(** * BoatApp: the electrical network simulation engine

    A shallow embedding of the simulation engine of
    [src/utils/calculations.ts] ([calculateSolarOutput],
    [calculateSolarArrayOutput], [calculateAlternatorOutput],
    [getChargingProfile], [calculateBatteryState],
    [calculateDCDCMPPTStateWithChemistry] and [runSimulation] with its
    connection-tracing closures), of the wire sizing calculators of the
    same file ([calculateVoltageDrop], [recommendWireGauge],
    [recommendFuse], [recommendBreaker], [calculateTotalLoad],
    [calculateBatteryBank], [calculateSolarRequirements],
    [validateCircuit], [formatSimTime]) and of the callers of both in
    the side panels ([runStep], [calculateChargeSummary],
    [isHourInPeriod], [WireRecommendation]), followed by the properties
    of the engine stated in the specification and by further properties
    of this code.

    Modelling conventions.
    - A JavaScript [number] is an exact rational ([Q]); [NaN], the
      infinities and rounding are not represented: a bound or a closed
      form stated here is one of the code up to the rounding of the
      last digit.
    - Every division the engine performs has a divisor that the [||]
      fallbacks keep away from zero, except the divisions by the battery
      voltage in the charger, whose divisor comes from the previous
      tick.  Where a calculator divides by one of its arguments, the
      properties assume that argument positive.
    - An optional property is an [option]; [a || b] on numbers is
      [or_num], which treats [0] like an absent value, [a ?? b] is
      [nullish].
    - [Record<string, T>] and [Map<string, T>] are [gmap string T],
      [Set<string>] is [gset string].  The table of charging profiles is
      a plain object and is looked up under a chemistry taken from the
      diagram: under a member name of [Object.prototype]
      ([OBJECT_MEMBERS]) the lookup answers the inherited member, whose
      fields are not numbers.  A property stated for whatever chemistry
      the diagram gives leaves these names out where it depends on the
      numbers of a profile ([plainChemistry]).
    - A whole number is printed as its decimal digits, which is what
      [toString] does below [2^53].
    - A template literal is the list of its parts ([Message]): the text
      pieces, the numbers printed as they are and the numbers printed
      with [toFixed].
    - [String.prototype.localeCompare] depends on the host's collation;
      it is a parameter of the engine. *)

From Stdlib Require Import QArith Qminmax Qabs Qround Lqa String Ascii List
  Sorted.
From stdpp Require Import gmap strings list fin_maps.

Open Scope Q_scope.

(** ** Numbers *)

Definition Qltb (x y : Q) : bool := negb (Qle_bool y x).
Definition Qgtb (x y : Q) : bool := Qltb y x.
Definition Qleb (x y : Q) : bool := Qle_bool x y.
Definition Qgeb (x y : Q) : bool := Qle_bool y x.

(** [x] is truthy: a number other than [0]. *)
Definition truthy (x : Q) : bool := negb (Qeq_bool x 0).

(** [o || d] where [o] is a possibly absent number. *)
Definition or_num (o : option Q) (d : Q) : Q :=
  match o with
  | Some x => if truthy x then x else d
  | None => d
  end.

(** [o1 || o2] where both sides may be absent. *)
Definition or_opt (o1 o2 : option Q) : option Q :=
  match o1 with
  | Some x => if truthy x then Some x else o2
  | None => o2
  end.

(** [o || d] on strings: the empty string is falsy. *)
Definition or_str (o : option string) (d : string) : string :=
  match o with
  | Some s => if String.eqb s "" then d else s
  | None => d
  end.

(** [o ?? d]. *)
Definition nullish {A : Type} (o : option A) (d : A) : A :=
  match o with
  | Some x => x
  | None => d
  end.

(** ** Strings *)

Definition lowerAscii (c : ascii) : ascii :=
  let n := nat_of_ascii c in
  if (Nat.leb 65 n && Nat.leb n 90)%bool then ascii_of_nat (n + 32) else c.

(** [s.toLowerCase()], on the ASCII letters. *)
Fixpoint toLowerCase (s : string) : string :=
  match s with
  | EmptyString => EmptyString
  | String c r => String (lowerAscii c) (toLowerCase r)
  end.

(** [s.includes(sub)]. *)
Fixpoint includes (s sub : string) : bool :=
  (String.prefix sub s ||
   match s with
   | EmptyString => false
   | String _ r => includes r sub
   end)%bool.

(** ** Messages (template literals) *)

Inductive Part : Type :=
  | Lit (s : string)               (* literal text, or a string value *)
  | Num (x : Q)                    (* [${x}] *)
  | Fixed (digits : nat) (x : Q).  (* [${x.toFixed(digits)}] *)

Definition Message : Type := list Part.

(** ** Data model ([src/types/electrical.ts]) *)

Inductive ComponentCategory : Type :=
  | PowerSource | Distribution | Protection | Load | Charging
  | Switching | Ground.

(** The [ComponentType] union, and the three types the engine and the
    node registry use beyond it ([starter-battery], [house-battery],
    [solar-array]). *)
Inductive ComponentType : Type :=
  | Battery | BatteryBank | SolarPanel | Alternator | ShorePower
  | BusBar | DistributionPanel | JunctionBox
  | Fuse | CircuitBreaker | FuseBlock | AnlFuse | BatteryShunt
  | DcDcCharger | DcDcMpptCharger | MpptController | BatteryCharger
  | Isolator
  | BatterySwitch | ToggleSwitch | Relay | Solenoid
  | BilgePump | NavLights | AnchorLight | CabinLights | RadioVhf
  | Chartplotter | DepthSounder | Windlass | Refrigerator | WaterPump
  | Horn | UsbOutlet | Outlet12v | CustomLoad
  | GroundBus | BondingBus
  | Engine | StarterMotor | TrimPump | DieselHeater
  | StarterBattery | HouseBattery | SolarArray.

#[global] Instance ComponentCategory_eq_dec : EqDecision ComponentCategory.
Proof. solve_decision. Defined.

#[global] Instance ComponentType_eq_dec : EqDecision ComponentType.
Proof. solve_decision. Defined.

Definition catIs (c d : ComponentCategory) : bool := bool_decide (c = d).
Definition typeIs (t u : ComponentType) : bool := bool_decide (t = u).

(** The fields of a component spec the engine reads.  The last block is
    read by the engine although the interface does not declare it. *)
Module Spec.
Record t : Type := mk {
  type : ComponentType;
  category : ComponentCategory;
  maxCurrent : option Q;
  capacity : option Q;
  rating : option Q;
  chargeRate : option Q;
  efficiency : option Q;
  alternatorInputMin : option Q;
  alternatorInputMax : option Q;
  solarInputMin : option Q;
  solarInputMax : option Q;
  maxSolarWattage : option Q;
  maxSolarCurrent : option Q;
  wattage : option Q;
  voc : option Q;
  vmp : option Q;
  imp : option Q;
  panelCount : option Q;
  arrayConfig : option string;
  batteryChemistry : option string;
  batteryRole : option string;
  maxOutputPower : option Q;
  traditionalAltMin : option Q;
  maxInputVoltage : option Q;
  outputVoltageMin : option Q;
  outputVoltageMax : option Q;
  tempCompNonLithium : option Q;
  tempCompLithium : option Q
}.

(** A spec with only its type and category. *)
Definition bare (ty : ComponentType) (cat : ComponentCategory) : t :=
  mk ty cat None None None None None None None None None None None None
     None None None None None None None None None None None None None None.

(** [{ ...spec, capacity: c }]. *)
Definition withCapacity (s : t) (c : option Q) : t :=
  mk (type s) (category s) (maxCurrent s) c (rating s) (chargeRate s)
     (efficiency s) (alternatorInputMin s) (alternatorInputMax s)
     (solarInputMin s) (solarInputMax s) (maxSolarWattage s)
     (maxSolarCurrent s) (wattage s) (voc s) (vmp s) (imp s)
     (panelCount s) (arrayConfig s) (batteryChemistry s) (batteryRole s)
     (maxOutputPower s) (traditionalAltMin s) (maxInputVoltage s)
     (outputVoltageMin s) (outputVoltageMax s) (tempCompNonLithium s)
     (tempCompLithium s).
End Spec.

(** The user overrides ([customValues]) the engine reads, each with the
    type the engine casts it to.  An absent [customValues] object is the
    record with every field absent. *)
Module Custom.
Record t : Type := mk {
  wattage : option Q;
  vmp : option Q;
  imp : option Q;
  voc : option Q;
  panelCount : option Q;
  arrayConfig : option string;
  batteryChemistry : option string;
  capacity : option Q;
  chargeRate : option Q;
  maxCurrent : option Q;
  rating : option Q;
  isOn : option bool;
  isBlown : option bool
}.

Definition empty : t :=
  mk None None None None None None None None None None None None None.
End Custom.

(** A diagram node: its identifier and its [data] (label, spec,
    overrides). *)
Module Node.
Record t : Type := mk {
  id : string;
  label : string;
  spec : option Spec.t;
  customValues : Custom.t
}.
End Node.

Module Edge.
Record t : Type := mk {
  id : string;
  source : string;
  target : string
}.
End Edge.

Module Env.
Record t : Type := mk {
  solarIrradiance : Q;
  ambientTemp : Q;
  engineRunning : bool;
  alternatorRPM : Q;
  shoreConnected : bool
}.
End Env.

Definition DEFAULT_ENV : Env.t := Env.mk 800 25 false 0 false.

Inductive Status : Type :=
  | On | Off | ChargingSt | Discharging | Idle | Fault.

#[global] Instance Status_eq_dec : EqDecision Status.
Proof. solve_decision. Defined.

Definition statusIs (s u : Status) : bool := bool_decide (s = u).

Module NodeSim.
Record t : Type := mk {
  voltage : Q;
  current : Q;
  power : Q;
  state : Status;
  stateOfCharge : option Q;
  efficiency : option Q;
  inputVoltage : option Q;
  outputVoltage : option Q;
  inputCurrent : option Q;
  outputCurrent : option Q;
  solarInputPower : option Q;
  alternatorInputPower : option Q;
  chargeStage : option string;
  dcDcActive : option bool;
  activationThreshold : option Q;
  tempCompensation : option Q;
  maxOutputPower : option Q;
  compensatedBulkVoltage : option Q;
  compensatedFloatVoltage : option Q
}.

(** [{ voltage, current, power, state }]. *)
Definition basic (v c p : Q) (s : Status) : t :=
  mk v c p s None None None None None None None None None None None None
     None None None.
End NodeSim.

Module Conn.
Record t : Type := mk {
  id : string;
  sourceId : string;
  targetId : string;
  voltage : Q;
  current : Q;
  power : Q;
  voltageDrop : Q;
  isActive : bool
}.
End Conn.

Module Sys.
Record t : Type := mk {
  systemVoltage : Q;
  totalLoad : Q;
  totalGeneration : Q;
  netPower : Q;
  nodes : gmap string NodeSim.t;
  connections : gmap string Conn.t;
  warnings : list Message;
  errors : list Message
}.
End Sys.

(** [{ voltage, current, power }], the result of the source
    calculators. *)
Module Out.
Record t : Type := mk { voltage : Q; current : Q; power : Q }.
End Out.

(** ** Source calculators *)

(** [calculateSolarOutput]: nameplate wattage scaled by irradiance, at
    the voltage of maximum power. *)
Definition calculateSolarOutput (spec : Spec.t) (irradiance : Q)
    (customValues : Custom.t) : Out.t :=
  let efficiencyFactor := irradiance / 1000 in
  let wattage :=
    or_num (Custom.wattage customValues) (or_num (Spec.wattage spec) 100)
    * efficiencyFactor in
  let vmp := or_num (Custom.vmp customValues) (or_num (Spec.vmp spec) 18) in
  let current := wattage / vmp in
  Out.mk vmp current wattage.

(** [calculateSolarArrayOutput]: the configuration decides the split
    between voltage and current, not the total power. *)
Definition calculateSolarArrayOutput (spec : Spec.t) (irradiance : Q)
    (customValues : Custom.t) : Out.t :=
  let efficiencyFactor := irradiance / 1000 in
  let wattagePerPanel :=
    or_num (Custom.wattage customValues) (or_num (Spec.wattage spec) 100) in
  let panelCount :=
    or_num (Custom.panelCount customValues)
           (or_num (Spec.panelCount spec) 2) in
  let arrayConfig :=
    or_str (Custom.arrayConfig customValues)
           (or_str (Spec.arrayConfig spec) "parallel") in
  let vmp := or_num (Custom.vmp customValues) (or_num (Spec.vmp spec) 18) in
  let imp :=
    or_num (Custom.imp customValues) (or_num (Spec.imp spec) 5.56) in
  let totalWattage := wattagePerPanel * panelCount * efficiencyFactor in
  if String.eqb arrayConfig "series"
  then Out.mk (vmp * panelCount) (imp * efficiencyFactor) totalWattage
  else Out.mk vmp (imp * panelCount * efficiencyFactor) totalWattage.

(** [calculateAlternatorOutput]: nothing below 800 RPM, then a linear
    ramp up to the rated current at 2000 RPM, at 14.4 V. *)
Definition calculateAlternatorOutput (spec : Spec.t) (rpm : Q) : Out.t :=
  if Qltb rpm 800 then Out.mk 0 0 0
  else
    let outputFactor := Qmin 1 ((rpm - 800) / 1200) in
    let maxCurrent := or_num (Spec.maxCurrent spec) 100 in
    let current := maxCurrent * outputFactor in
    let voltage := 14.4 in
    Out.mk voltage current (voltage * current).

(** ** Battery chemistry *)

Module Profile.
Record t : Type := mk {
  bulkVoltage : Q;
  floatVoltage : Q;
  maxDischargePercent : Q;
  maxChargeRate : Q;
  voltageAtFull : Q;
  voltageAtEmpty : Q;
  voltageAt50 : Q
}.
End Profile.

(** The table [CHARGING_PROFILES], keyed by chemistry. *)
Definition CHARGING_PROFILES (chemistry : string) : option Profile.t :=
  if String.eqb chemistry "lead-acid" then
    Some (Profile.mk 14.4 13.6 50 0.2 12.7 11.8 12.2)
  else if String.eqb chemistry "agm" then
    Some (Profile.mk 14.7 13.8 50 0.3 12.8 11.8 12.3)
  else if String.eqb chemistry "gel" then
    Some (Profile.mk 14.1 13.5 50 0.2 12.8 11.8 12.3)
  else if String.eqb chemistry "lithium" then
    Some (Profile.mk 14.2 0 20 0.5 13.6 12.0 13.2)
  else if String.eqb chemistry "lifepo4" then
    Some (Profile.mk 14.2 0 10 1.0 13.6 12.0 13.2)
  else None.

Definition leadAcidProfile : Profile.t :=
  Profile.mk 14.4 13.6 50 0.2 12.7 11.8 12.2.

(** The member names that every object inherits from [Object.prototype].
    [CHARGING_PROFILES] is a plain object: looked up under one of them
    it answers the inherited member, which is truthy and is no
    profile. *)
Definition OBJECT_MEMBERS : list string :=
  ["constructor"; "__defineGetter__"; "__defineSetter__"; "hasOwnProperty";
   "__lookupGetter__"; "__lookupSetter__"; "isPrototypeOf";
   "propertyIsEnumerable"; "toString"; "valueOf"; "__proto__";
   "toLocaleString"].

Definition inheritedMember (key : string) : bool :=
  existsb (String.eqb key) OBJECT_MEMBERS.

(** [getChargingProfile]: an unknown chemistry charges like lead-acid.
    This is the code for every chemistry but those of [OBJECT_MEMBERS],
    for which the code answers an object without the fields of a
    profile. *)
Definition getChargingProfile (chemistry : option string) : Profile.t :=
  match CHARGING_PROFILES (or_str chemistry "lead-acid") with
  | Some p => p
  | None => leadAcidProfile
  end.

Definition isLithiumChemistry (chemistry : string) : bool :=
  (String.eqb chemistry "lithium" || String.eqb chemistry "lifepo4")%bool.

(** ** Battery model *)

Module Batt.
Record t : Type := mk { voltage : Q; stateOfCharge : Q; state : Status }.
End Batt.

(** The coulomb count of [calculateBatteryState], clamped to [0,100]. *)
Definition updateSoC (capacity netCurrent currentSoC deltaTime : Q) : Q :=
  let ahChange := (netCurrent * deltaTime) / 3600 in
  let newSoC := currentSoC + (ahChange / capacity) * 100 in
  Qmax 0 (Qmin 100 newSoC).

(** The resting voltage of [calculateBatteryState], before the clamp. *)
Definition restingVoltage (isLithium : bool) (profile : Profile.t)
    (newSoC : Q) : Q :=
  if isLithium then
    if Qgtb newSoC 95 then
      Profile.voltageAtFull profile + (newSoC - 95) * 0.02
    else if Qgtb newSoC 15 then
      Profile.voltageAt50 profile + (newSoC - 50) * 0.005
    else
      Profile.voltageAtEmpty profile + newSoC * 0.08
  else
    if Qgtb newSoC 80 then
      Profile.voltageAt50 profile + (newSoC - 50) * 0.01
    else if Qgtb newSoC 20 then
      Profile.voltageAtEmpty profile + (newSoC - 0) * 0.015
    else
      Profile.voltageAtEmpty profile - (20 - newSoC) * 0.02.

Definition enterThreshold : Q := 1.0.
Definition exitThreshold : Q := 0.3.

(** The status update of [calculateBatteryState].  [previousState] is
    whatever status the previous tick left on the node, if any: only
    [charging] and [discharging] have a branch of their own. *)
Definition updateStatus (previousState : option Status) (netCurrent : Q)
    : Status :=
  match previousState with
  | Some ChargingSt =>
      if Qgtb netCurrent exitThreshold then ChargingSt
      else if Qltb netCurrent (- exitThreshold) then Discharging
      else Idle
  | Some Discharging =>
      if Qltb netCurrent (- exitThreshold) then Discharging
      else if Qgtb netCurrent exitThreshold then ChargingSt
      else Idle
  | _ =>
      if Qgtb netCurrent enterThreshold then ChargingSt
      else if Qltb netCurrent (- enterThreshold) then Discharging
      else Idle
  end.

Definition calculateBatteryState (spec : Spec.t)
    (netCurrent currentSoC deltaTime : Q) (previousState : option Status)
    : Batt.t :=
  let capacity := or_num (Spec.capacity spec) 100 in
  let chemistry := or_str (Spec.batteryChemistry spec) "lead-acid" in
  let profile := getChargingProfile (Some chemistry) in
  let newSoC := updateSoC capacity netCurrent currentSoC deltaTime in
  let isLithium := isLithiumChemistry chemistry in
  let voltage := restingVoltage isLithium profile newSoC in
  let voltage := Qmax 10.5 (Qmin 14.6 voltage) in
  let state := updateStatus previousState netCurrent in
  Batt.mk voltage newSoC state.

(** ** DC-DC MPPT charger *)

(** The ceiling on the charger's output current: the device rate, the
    chemistry's safe rate for this capacity and the device's maximum
    output power. *)
Definition powerLimitedMaxCurrent (spec : Spec.t)
    (batteryVoltage batteryCapacity : Q) (batteryChemistry : string) : Q :=
  let chargeRate := or_num (Spec.chargeRate spec) 30 in
  let maxOutputPower := or_num (Spec.maxOutputPower spec) 400 in
  let profile := getChargingProfile (Some batteryChemistry) in
  let maxChemistryChargeCurrent :=
    batteryCapacity * Profile.maxChargeRate profile in
  let effectiveMaxCurrent := Qmin chargeRate maxChemistryChargeCurrent in
  let maxCurrentByPower := maxOutputPower / batteryVoltage in
  Qmin effectiveMaxCurrent maxCurrentByPower.

Definition outputVoltageValid (spec : Spec.t) (batteryVoltage : Q) : bool :=
  let outputVoltageMin := or_num (Spec.outputVoltageMin spec) 9 in
  let outputVoltageMax := or_num (Spec.outputVoltageMax spec) 16 in
  (Qgeb batteryVoltage outputVoltageMin
   && Qleb batteryVoltage outputVoltageMax)%bool.

(** The alternator (DC-DC) input: [(dcDcActive, alternatorInputPower,
    outputCurrent)] after the first block of the charger. *)
Definition alternatorInput (spec : Spec.t)
    (alternatorVoltage batteryVoltage starterBatteryVoltage limit : Q)
    : bool * Q * Q :=
  let efficiency := or_num (Spec.efficiency spec) 94 / 100 in
  let traditionalAltMin := or_num (Spec.traditionalAltMin spec) 13.2 in
  let altInputMin := or_num (Spec.alternatorInputMin spec) 12 in
  let altInputMax := or_num (Spec.alternatorInputMax spec) 16 in
  let maxInputVoltage := or_num (Spec.maxInputVoltage spec) 30 in
  let dcDcActivationThreshold := traditionalAltMin in
  let starterVoltageForCheck :=
    if Qgtb starterBatteryVoltage 0 then starterBatteryVoltage
    else alternatorVoltage in
  let inputWithinRange :=
    (Qgeb alternatorVoltage altInputMin
     && Qleb alternatorVoltage (Qmin altInputMax maxInputVoltage))%bool in
  if (inputWithinRange && outputVoltageValid spec batteryVoltage
      && Qgeb starterVoltageForCheck dcDcActivationThreshold)%bool
  then
    let altCurrent :=
      Qmin limit ((alternatorVoltage - batteryVoltage) * 5) in
    if Qgtb altCurrent 0
    then (true, alternatorVoltage * altCurrent, 0 + altCurrent * efficiency)
    else (true, 0, 0)
  else (false, 0, 0).

(** The solar (MPPT) input: [(solarInputPowerActual, outputCurrent)]
    after the second block of the charger. *)
Definition solarInput (spec : Spec.t)
    (solarVoltage solarPower batteryVoltage limit outputCurrent : Q)
    : Q * Q :=
  let maxSolarWattage := or_num (Spec.maxSolarWattage spec) 400 in
  let maxSolarCurrent := or_num (Spec.maxSolarCurrent spec) 30 in
  let efficiency := or_num (Spec.efficiency spec) 94 / 100 in
  let solarInputMin := or_num (Spec.solarInputMin spec) 9 in
  let solarInputMax := or_num (Spec.solarInputMax spec) 32 in
  let solarValid :=
    (Qgeb solarVoltage solarInputMin && Qleb solarVoltage solarInputMax
     && outputVoltageValid spec batteryVoltage)%bool in
  if (solarValid && Qgtb solarPower 0)%bool then
    let solarInputPowerActual := Qmin solarPower maxSolarWattage in
    let solarChargeCurrent :=
      Qmin (solarInputPowerActual * efficiency / batteryVoltage)
           (Qmin maxSolarCurrent (limit - outputCurrent)) in
    (solarInputPowerActual, outputCurrent + Qmax 0 solarChargeCurrent)
  else (0, outputCurrent).

(** The output current before the charge-stage machine. *)
Definition preStageCurrent (spec : Spec.t)
    (alternatorVoltage solarVoltage solarPower batteryVoltage
     batteryCapacity : Q) (batteryChemistry : string)
    (starterBatteryVoltage : Q) : Q :=
  let limit :=
    powerLimitedMaxCurrent spec batteryVoltage batteryCapacity
                           batteryChemistry in
  let '(_, _, outputCurrent) :=
    alternatorInput spec alternatorVoltage batteryVoltage
                    starterBatteryVoltage limit in
  snd (solarInput spec solarVoltage solarPower batteryVoltage limit
                  outputCurrent).

(** The charge-stage machine: the stage label and the tapered current.
    It only runs when some input delivers current. *)
Definition chargeStageMachine (isLithium : bool) (batterySOC : Q)
    (outputCurrent : Q) : string * Q :=
  if Qgtb outputCurrent 0 then
    if isLithium then
      if Qltb batterySOC 95 then ("bulk (CC)", outputCurrent)
      else if Qltb batterySOC 100 then
        ("absorption (CV)", outputCurrent * ((100 - batterySOC) / 5))
      else ("full - stopped", 0)
    else
      if Qltb batterySOC 80 then ("bulk", outputCurrent)
      else if Qltb batterySOC 95 then
        ("absorption",
         outputCurrent * (0.7 + ((95 - batterySOC) / 15) * 0.3))
      else ("float", outputCurrent * 0.1)
  else ("idle", outputCurrent).

Definition calculateDCDCMPPTStateWithChemistry (spec : Spec.t)
    (alternatorVoltage solarVoltage solarPower batteryVoltage batterySOC
     batteryCapacity : Q) (batteryChemistry : string)
    (starterBatteryVoltage ambientTempC : Q) : NodeSim.t :=
  let efficiency := or_num (Spec.efficiency spec) 94 / 100 in
  let maxOutputPower := or_num (Spec.maxOutputPower spec) 400 in
  let traditionalAltMin := or_num (Spec.traditionalAltMin spec) 13.2 in
  let maxInputVoltage := or_num (Spec.maxInputVoltage spec) 30 in
  let dcDcActivationThreshold := traditionalAltMin in
  let tempCompNonLithium := or_num (Spec.tempCompNonLithium spec) (-3) in
  let tempCompLithium := or_num (Spec.tempCompLithium spec) 0 in
  let profile := getChargingProfile (Some batteryChemistry) in
  let isLithium := isLithiumChemistry batteryChemistry in
  let tempDeltaC := ambientTempC - 25 in
  let tempCompMv :=
    if isLithium then tempCompLithium else tempCompNonLithium in
  let voltageCompensation := (tempCompMv * tempDeltaC * 6) / 1000 in
  let limit :=
    powerLimitedMaxCurrent spec batteryVoltage batteryCapacity
                           batteryChemistry in
  let '(dcDcActive, alternatorInputPower, outputCurrent) :=
    alternatorInput spec alternatorVoltage batteryVoltage
                    starterBatteryVoltage limit in
  let '(solarInputPowerActual, outputCurrent) :=
    solarInput spec solarVoltage solarPower batteryVoltage limit
               outputCurrent in
  let compensatedBulkVoltage :=
    Profile.bulkVoltage profile + voltageCompensation in
  let compensatedFloatVoltage :=
    Profile.floatVoltage profile + voltageCompensation in
  let '(chargeStage, outputCurrent) :=
    chargeStageMachine isLithium batterySOC outputCurrent in
  let outputCurrent := Qmin outputCurrent limit in
  let outputPower := outputCurrent * batteryVoltage in
  let stateStr :=
    if Qgtb outputCurrent 0.1 then ChargingSt
    else if (dcDcActive || Qgtb solarInputPowerActual 0)%bool then On
    else Idle in
  let overvoltage := Qgtb alternatorVoltage maxInputVoltage in
  let stateStr := if overvoltage then Fault else stateStr in
  let chargeStage :=
    if overvoltage then "overvoltage protection" else chargeStage in
  let outputCurrent := if overvoltage then 0 else outputCurrent in
  NodeSim.mk
    batteryVoltage outputCurrent outputPower stateStr
    None
    (Some (efficiency * 100))
    (Some (Qmax alternatorVoltage solarVoltage))
    (Some batteryVoltage)
    (Some ((alternatorInputPower + solarInputPowerActual)
           / Qmax (Qmax alternatorVoltage solarVoltage) 1))
    (Some outputCurrent)
    (Some solarInputPowerActual)
    (Some alternatorInputPower)
    (Some chargeStage)
    (Some dcDcActive)
    (Some dcDcActivationThreshold)
    (Some voltageCompensation)
    (Some maxOutputPower)
    (Some compensatedBulkVoltage)
    (Some compensatedFloatVoltage).

(** ** The engine's working state *)

(** An entry of [batteryCircuits]. *)
Module Circuit.
Record t : Type := mk { generation : Q; load : Q }.
End Circuit.

(** The mutable locals of [runSimulation] that the passes share. *)
Module Sim.
Record t : Type := mk {
  nodeStates : gmap string NodeSim.t;
  batteryCircuits : gmap string Circuit.t;
  warnings : list Message;
  errors : list Message;
  systemVoltage : Q;
  totalLoad : Q;
  totalGeneration : Q
}.

Definition setNode (id : string) (st : NodeSim.t) (s : t) : t :=
  mk (<[id := st]> (nodeStates s)) (batteryCircuits s) (warnings s)
     (errors s) (systemVoltage s) (totalLoad s) (totalGeneration s).

Definition setCircuits (c : gmap string Circuit.t) (s : t) : t :=
  mk (nodeStates s) c (warnings s) (errors s) (systemVoltage s)
     (totalLoad s) (totalGeneration s).

Definition warn (m : Message) (s : t) : t :=
  mk (nodeStates s) (batteryCircuits s) (warnings s ++ [m]) (errors s)
     (systemVoltage s) (totalLoad s) (totalGeneration s).

Definition err (m : Message) (s : t) : t :=
  mk (nodeStates s) (batteryCircuits s) (warnings s) (errors s ++ [m])
     (systemVoltage s) (totalLoad s) (totalGeneration s).

Definition setSystemVoltage (v : Q) (s : t) : t :=
  mk (nodeStates s) (batteryCircuits s) (warnings s) (errors s) v
     (totalLoad s) (totalGeneration s).

Definition addLoad (p : Q) (s : t) : t :=
  mk (nodeStates s) (batteryCircuits s) (warnings s) (errors s)
     (systemVoltage s) (totalLoad s + p) (totalGeneration s).

Definition addGeneration (p : Q) (s : t) : t :=
  mk (nodeStates s) (batteryCircuits s) (warnings s) (errors s)
     (systemVoltage s) (totalLoad s) (totalGeneration s + p).
End Sim.

(** [circuit.generation += p] on the entry of [id], if there is one. *)
Definition creditGeneration (id : string) (p : Q)
    (circuits : gmap string Circuit.t) : gmap string Circuit.t :=
  match circuits !! id with
  | Some c =>
      <[id := Circuit.mk (Circuit.generation c + p) (Circuit.load c)]>
        circuits
  | None => circuits
  end.

(** [circuit.load += p] on the entry of [id], if there is one. *)
Definition creditLoad (id : string) (p : Q)
    (circuits : gmap string Circuit.t) : gmap string Circuit.t :=
  match circuits !! id with
  | Some c =>
      <[id := Circuit.mk (Circuit.generation c) (Circuit.load c + p)]>
        circuits
  | None => circuits
  end.

Definition isBatteryType (ty : ComponentType) : bool :=
  (typeIs ty Battery || typeIs ty BatteryBank || typeIs ty StarterBattery
   || typeIs ty HouseBattery)%bool.

Definition batteryTypes : list ComponentType :=
  [Battery; BatteryBank; StarterBattery; HouseBattery].

(** [spec?.type] is one of [types]. *)
Definition nodeTypeIn (types : list ComponentType) (n : Node.t) : bool :=
  match Node.spec n with
  | Some s => existsb (typeIs (Spec.type s)) types
  | None => false
  end.

(** [spec?.category] is one of [categories]. *)
Definition nodeCategoryIn (categories : list ComponentCategory)
    (n : Node.t) : bool :=
  match Node.spec n with
  | Some s => existsb (catIs (Spec.category s)) categories
  | None => false
  end.

Definition nodeIsBattery (n : Node.t) : bool := nodeTypeIn batteryTypes n.

(** The categories the tracer walks through instead of returning. *)
Definition isPassThrough (n : Node.t) : bool :=
  nodeCategoryIn [Protection; Distribution; Switching; Ground] n.

(** The loop body of [traceAllConnections] over the direct connections,
    threading the shared [visited] set.  [rec] is the recursive call;
    [None] means that [rec] ran out of fuel. *)
Fixpoint traceEach (findNode : string -> option Node.t)
    (rec : string -> gset string -> option (list Node.t * gset string))
    (directConnections : list string) (visited : gset string)
    : option (list Node.t * gset string) :=
  match directConnections with
  | [] => Some ([], visited)
  | connectedId :: rest =>
      if bool_decide (connectedId ∈ visited)
      then traceEach findNode rec rest visited
      else
        match findNode connectedId with
        | None => traceEach findNode rec rest visited
        | Some connectedNode =>
            if isPassThrough connectedNode then
              match rec connectedId visited with
              | None => None
              | Some (found, visited') =>
                  match traceEach findNode rec rest visited' with
                  | None => None
                  | Some (more, visited'') => Some (found ++ more, visited'')
                  end
              end
            else
              match traceEach findNode rec rest ({[connectedId]} ∪ visited)
              with
              | None => None
              | Some (more, visited') => Some (connectedNode :: more, visited')
              end
        end
  end.

(** ** Records of the charger pass *)

Inductive BatteryRole : Type := Starter | House | Generic.

(** An entry of the charger's [connectedBatteries] list. *)
Module CB.
Record t : Type := mk {
  id : string;
  voltage : Q;
  soc : Q;
  label : string;
  role : BatteryRole;
  chemistry : string;
  capacity : Q
}.
End CB.

Definition isRole (r : BatteryRole) (b : CB.t) : bool :=
  match r, CB.role b with
  | Starter, Starter | House, House | Generic, Generic => true
  | _, _ => false
  end.

(** What the charger collects from the nodes it traces to. *)
Module Inputs.
Record t : Type := mk {
  solarVoltage : Q;
  solarPower : Q;
  inputVoltage : Q;
  connectedBatteries : list CB.t
}.
End Inputs.

(** The charger's source and target once the roles are resolved. *)
Module Roles.
Record t : Type := mk {
  sourceBatteryId : option string;
  starterBatteryVoltage : Q;
  inputVoltage : Q;
  targetBatteryId : option string;
  targetBatteryVoltage : Q;
  targetBatterySoC : Q;
  targetBatteryChemistry : string;
  targetBatteryCapacity : Q
}.
End Roles.

Section Simulation.

Variable localeCompare : string -> string -> comparison.
Variable nodes : list Node.t.
Variable edges : list Edge.t.
Variable environment : Env.t.
Variable previousState : option Sys.t.
Variable deltaTime : Q.

(** *** Connection tracing *)

Definition isNodeConnected (nodeId : string) : bool :=
  existsb (fun edge =>
             (String.eqb (Edge.source edge) nodeId
              || String.eqb (Edge.target edge) nodeId)%bool) edges.

Definition getDirectConnections (nodeId : string) : list string :=
  flat_map (fun edge =>
              (if String.eqb (Edge.source edge) nodeId
               then [Edge.target edge] else [])
              ++ (if String.eqb (Edge.target edge) nodeId
                  then [Edge.source edge] else [])) edges.

(** [nodes.find(n => n.id === id)]. *)
Definition findNode (id : string) : option Node.t :=
  List.find (fun n => String.eqb (Node.id n) id) nodes.

(** [traceAllConnections(startId, visited)], with the recursion depth
    bounded by [fuel]: the nodes found and the [visited] set as the call
    leaves it. *)
Fixpoint traceFrom (fuel : nat) (startId : string) (visited : gset string)
    : option (list Node.t * gset string) :=
  match fuel with
  | O => None
  | S fuel' =>
      if bool_decide (startId ∈ visited) then Some ([], visited)
      else
        traceEach findNode (traceFrom fuel') (getDirectConnections startId)
                  ({[startId]} ∪ visited)
  end.

(** [traceAllConnections(startId)] with a fresh [visited] set.  A
    recursive call is made on a node of [nodes] that is not yet visited,
    so the depth never exceeds [length nodes + 1]
    ([traceFrom_total] below). *)
Definition traceAllConnections (startId : string) : list Node.t :=
  match traceFrom (S (length nodes)) startId ∅ with
  | Some (results, _) => results
  | None => []
  end.

Definition findConnectedByType (nodeId : string)
    (types : list ComponentType) : list Node.t :=
  List.filter (nodeTypeIn types) (traceAllConnections nodeId).

Definition findConnectedByCategory (nodeId : string)
    (categories : list ComponentCategory) : list Node.t :=
  List.filter (nodeCategoryIn categories) (traceAllConnections nodeId).

Definition isConnectedToBattery (nodeId : string) : bool :=
  negb (Nat.eqb (length (findConnectedByType nodeId batteryTypes)) 0).

Definition isConnectedToPower (nodeId : string) : bool :=
  existsb (fun n =>
             (nodeTypeIn [Battery; BatteryBank; StarterBattery; HouseBattery;
                          ShorePower; Alternator] n
              || nodeCategoryIn [Charging; PowerSource] n)%bool)
          (traceAllConnections nodeId).

Definition findConnectedBattery (nodeId : string) : option Node.t :=
  head (findConnectedByType nodeId batteryTypes).

(** [previousState?.nodes[id]]. *)
Definition prevNode (id : string) : option NodeSim.t :=
  match previousState with
  | Some p => Sys.nodes p !! id
  | None => None
  end.

(** *** Initialisation of the per-battery accumulators *)

Definition initCircuit (circuits : gmap string Circuit.t) (n : Node.t)
    : gmap string Circuit.t :=
  if nodeIsBattery n then
    match circuits !! Node.id n with
    | Some _ => circuits
    | None => <[Node.id n := Circuit.mk 0 0]> circuits
    end
  else circuits.

Definition initialSim : Sim.t :=
  Sim.mk ∅ (fold_left initCircuit nodes ∅) [] [] 12 0 0.

(** *** First pass: power sources *)

Definition sourceStep (s : Sim.t) (node : Node.t) : Sim.t :=
  match Node.spec node with
  | None => s
  | Some spec =>
    if negb (catIs (Spec.category spec) PowerSource) then s else
    let prevState := prevNode (Node.id node) in
    if isBatteryType (Spec.type spec) then
      let currentSoC := nullish (prevState ≫= NodeSim.stateOfCharge) 80 in
      let st :=
        NodeSim.mk (or_num (NodeSim.voltage <$> prevState) 12.8) 0 0 Idle
                   (Some currentSoC)
                   None None None None None None None None None None None
                   None None None in
      Sim.setSystemVoltage (NodeSim.voltage st)
                           (Sim.setNode (Node.id node) st s)
    else if typeIs (Spec.type spec) SolarPanel then
      let solar :=
        calculateSolarOutput spec (Env.solarIrradiance environment)
                             (Node.customValues node) in
      Sim.setNode (Node.id node)
        (NodeSim.basic (Out.voltage solar) (Out.current solar)
           (Out.power solar)
           (if Qgtb (Out.power solar) 0 then On else Idle)) s
    else if typeIs (Spec.type spec) SolarArray then
      let solar :=
        calculateSolarArrayOutput spec (Env.solarIrradiance environment)
                                  (Node.customValues node) in
      Sim.setNode (Node.id node)
        (NodeSim.basic (Out.voltage solar) (Out.current solar)
           (Out.power solar)
           (if Qgtb (Out.power solar) 0 then On else Idle)) s
    else if typeIs (Spec.type spec) Alternator then
      let alt :=
        calculateAlternatorOutput spec (Env.alternatorRPM environment) in
      let isAltConnected := isConnectedToBattery (Node.id node) in
      let producing := (Qgtb (Out.power alt) 0 && isAltConnected)%bool in
      let s :=
        Sim.setNode (Node.id node)
          (NodeSim.basic (Out.voltage alt)
             (if producing then Out.current alt else 0)
             (if producing then Out.power alt else 0)
             (if producing then On else Idle)) s in
      if (Env.engineRunning environment && isAltConnected)%bool then
        let s := Sim.addGeneration (Out.power alt) s in
        let connectedBatteries :=
          findConnectedByType (Node.id node) batteryTypes in
        let share :=
          Out.power alt / inject_Z (Z.of_nat (length connectedBatteries)) in
        Sim.setCircuits
          (fold_left (fun circuits battery =>
                        creditGeneration (Node.id battery) share circuits)
                     connectedBatteries (Sim.batteryCircuits s))
          s
      else s
    else s
  end.

Definition firstPass (s : Sim.t) : Sim.t := fold_left sourceStep nodes s.

(** *** Second pass: chargers *)


Definition optStrIs (o : option string) (s : string) : bool :=
  match o with
  | Some x => String.eqb x s
  | None => false
  end.

(** The role of a traced battery: its type or role tag, else its label. *)
Definition inferRole (connectedNode : Node.t) : BatteryRole :=
  let type := Spec.type <$> Node.spec connectedNode in
  let batteryRole := Node.spec connectedNode ≫= Spec.batteryRole in
  let label := toLowerCase (Node.label connectedNode) in
  if (bool_decide (type = Some StarterBattery)
      || optStrIs batteryRole "starter")%bool then Starter
  else if (bool_decide (type = Some HouseBattery)
           || optStrIs batteryRole "house")%bool then House
  else if (includes label "starter" || includes label "start"
           || includes label "engine")%bool then Starter
  else if (includes label "house" || includes label "lithium"
           || includes label "aux" || includes label "lifepo")%bool
  then House
  else Generic.

(** The body of [allConnected.forEach] in the MPPT charger branch. *)
Definition gatherInput (nodeStates : gmap string NodeSim.t)
    (acc : Inputs.t) (connectedNode : Node.t) : Inputs.t :=
  let state := nodeStates !! Node.id connectedNode in
  let acc :=
    if nodeTypeIn [SolarPanel; SolarArray] connectedNode then
      match state with
      | Some st =>
          Inputs.mk (Qmax (Inputs.solarVoltage acc) (NodeSim.voltage st))
                    (Inputs.solarPower acc + NodeSim.power st)
                    (Inputs.inputVoltage acc) (Inputs.connectedBatteries acc)
      | None => acc
      end
    else acc in
  let acc :=
    if nodeTypeIn [Alternator] connectedNode then
      match state with
      | Some st =>
          if Qgtb (NodeSim.voltage st) (Inputs.inputVoltage acc) then
            Inputs.mk (Inputs.solarVoltage acc) (Inputs.solarPower acc)
                      (NodeSim.voltage st) (Inputs.connectedBatteries acc)
          else acc
      | None => acc
      end
    else acc in
  if nodeIsBattery connectedNode then
    match state with
    | Some st =>
        let batteryChemistry :=
          or_str (Custom.batteryChemistry (Node.customValues connectedNode))
                 (or_str (Node.spec connectedNode ≫= Spec.batteryChemistry)
                         "lead-acid") in
        let batteryCapacity :=
          or_num (Custom.capacity (Node.customValues connectedNode))
                 (or_num (Node.spec connectedNode ≫= Spec.capacity) 100) in
        let label := toLowerCase (Node.label connectedNode) in
        Inputs.mk (Inputs.solarVoltage acc) (Inputs.solarPower acc)
                  (Inputs.inputVoltage acc)
                  (Inputs.connectedBatteries acc
                   ++ [CB.mk (Node.id connectedNode) (NodeSim.voltage st)
                             (or_num (NodeSim.stateOfCharge st) 50) label
                             (inferRole connectedNode) batteryChemistry
                             batteryCapacity])
    | None => acc
    end
  else acc.

(** [xs.sort((a, b) => a.id.localeCompare(b.id))]: the sort is stable. *)
Fixpoint insertById (x : CB.t) (xs : list CB.t) : list CB.t :=
  match xs with
  | [] => [x]
  | y :: rest =>
      match localeCompare (CB.id x) (CB.id y) with
      | Gt => y :: insertById x rest
      | _ => x :: y :: rest
      end
  end.

Definition sortById (xs : list CB.t) : list CB.t :=
  fold_right insertById [] xs.


Definition fromSourceAndTarget (inputVoltage : Q) (source target : CB.t)
    : Roles.t :=
  Roles.mk (Some (CB.id source)) (CB.voltage source)
           (Qmax inputVoltage (CB.voltage source))
           (Some (CB.id target)) (CB.voltage target) (CB.soc target)
           (CB.chemistry target) (CB.capacity target).

(** Role resolution: tagged starter and house first, else the order of
    the identifiers; a single battery is the target. *)
Definition resolveRoles (systemVoltage inputVoltage : Q)
    (connectedBatteries : list CB.t) : Roles.t :=
  let none :=
    Roles.mk None 0 inputVoltage None systemVoltage 50 "lead-acid" 100 in
  match connectedBatteries with
  | [] => none
  | [b] =>
      Roles.mk None 0 inputVoltage (Some (CB.id b)) (CB.voltage b)
               (CB.soc b) (CB.chemistry b) (CB.capacity b)
  | _ =>
      match List.find (isRole Starter) connectedBatteries,
            List.find (isRole House) connectedBatteries with
      | Some starterBatt, Some houseBatt =>
          fromSourceAndTarget inputVoltage starterBatt houseBatt
      | _, _ =>
          match sortById connectedBatteries with
          | first :: second :: _ =>
              fromSourceAndTarget inputVoltage first second
          | [first] => fromSourceAndTarget inputVoltage first first
          | [] => none
          end
      end
  end.

(** A string used as a condition: present and not empty. *)
Definition truthyId (o : option string) : bool :=
  match o with
  | Some s => negb (String.eqb s "")
  | None => false
  end.

Definition chargerStep (s : Sim.t) (node : Node.t) : Sim.t :=
  match Node.spec node with
  | None => s
  | Some spec =>
    if negb (catIs (Spec.category spec) Charging) then s else
    if typeIs (Spec.type spec) DcDcMpptCharger then
      let allConnected := traceAllConnections (Node.id node) in
      let inputs :=
        fold_left (gatherInput (Sim.nodeStates s)) allConnected
                  (Inputs.mk 0 0 0 []) in
      let roles :=
        resolveRoles (Sim.systemVoltage s) (Inputs.inputVoltage inputs)
                     (Inputs.connectedBatteries inputs) in
      let inputVoltage := Roles.inputVoltage roles in
      let hasInput :=
        (Qgtb inputVoltage 10 || Qgtb (Inputs.solarPower inputs) 0)%bool in
      if (truthyId (Roles.targetBatteryId roles) && hasInput)%bool then
        let dcdcState :=
          calculateDCDCMPPTStateWithChemistry
            spec inputVoltage (Inputs.solarVoltage inputs)
            (Inputs.solarPower inputs) (Roles.targetBatteryVoltage roles)
            (Roles.targetBatterySoC roles)
            (Roles.targetBatteryCapacity roles)
            (Roles.targetBatteryChemistry roles)
            (Roles.starterBatteryVoltage roles) 25 in
        let s := Sim.setNode (Node.id node) dcdcState s in
        let s := Sim.addGeneration (NodeSim.power dcdcState) s in
        Sim.setCircuits
          (creditGeneration (nullish (Roles.targetBatteryId roles) "")
                            (NodeSim.power dcdcState)
                            (Sim.batteryCircuits s)) s
      else
        Sim.setNode (Node.id node)
          (NodeSim.mk 0 0 0 Idle None
             (Some (or_num (Spec.efficiency spec) 98))
             (Some (Qmax inputVoltage (Inputs.solarVoltage inputs)))
             (Some 0) (Some 0) (Some 0) (Some 0) (Some 0)
             None None None None None None None) s
    else if typeIs (Spec.type spec) DcDcCharger then
      let chargeRate :=
        or_num (Custom.chargeRate (Node.customValues node))
               (or_num (Spec.chargeRate spec) 20) in
      let inputActive := Env.engineRunning environment in
      let connectedBattery := findConnectedBattery (Node.id node) in
      let hasBattery := bool_decide (is_Some connectedBattery) in
      let isCharging := (inputActive && hasBattery)%bool in
      let systemVoltage := Sim.systemVoltage s in
      let s :=
        Sim.setNode (Node.id node)
          (NodeSim.mk systemVoltage
             (if isCharging then chargeRate else 0)
             (if isCharging then chargeRate * systemVoltage else 0)
             (if isCharging then ChargingSt else Idle)
             None (Some (or_num (Spec.efficiency spec) 92))
             None None None None None None None None None None None None
             None) s in
      match connectedBattery with
      | Some battery =>
          if isCharging then
            let s := Sim.addGeneration (chargeRate * systemVoltage) s in
            Sim.setCircuits
              (creditGeneration (Node.id battery)
                                (chargeRate * systemVoltage)
                                (Sim.batteryCircuits s)) s
          else s
      | None => s
      end
    else s
  end.

Definition secondPass (s : Sim.t) : Sim.t := fold_left chargerStep nodes s.

(** *** Third pass: loads and passive components *)

(** [customValues?.isOn !== false]. *)
Definition isOnOf (node : Node.t) : bool :=
  match Custom.isOn (Node.customValues node) with
  | Some false => false
  | _ => true
  end.

(** [customValues?.isBlown === true]. *)
Definition isBlownOf (node : Node.t) : bool :=
  match Custom.isBlown (Node.customValues node) with
  | Some true => true
  | _ => false
  end.

(** The sum of the currents of the traced loads that are [on]. *)
Definition sumActiveLoadCurrent (nodeStates : gmap string NodeSim.t)
    (loads : list Node.t) : Q :=
  fold_left (fun total loadNode =>
               match nodeStates !! Node.id loadNode with
               | Some loadState =>
                   if statusIs (NodeSim.state loadState) On
                   then total + NodeSim.current loadState
                   else total
               | None => total
               end) loads 0.

(** The sum of the output currents of the traced chargers that are [on]
    or [charging]. *)
Definition sumChargingCurrent (nodeStates : gmap string NodeSim.t)
    (chargers : list Node.t) : Q :=
  fold_left (fun total chargerNode =>
               match nodeStates !! Node.id chargerNode with
               | Some chargerState =>
                   if (statusIs (NodeSim.state chargerState) On
                       || statusIs (NodeSim.state chargerState) ChargingSt)%bool
                   then total
                        + or_num (NodeSim.outputCurrent chargerState)
                            (or_num (Some (NodeSim.current chargerState))
                                    0)
                   else total
               | None => total
               end) chargers 0.

(** The rating of a protection device. *)
Definition ratingOf (node : Node.t) (spec : Spec.t) : Q :=
  or_num (Custom.rating (Node.customValues node))
         (or_num (Spec.rating spec) 15).

(** The current the engine reports through a protection device. *)
Definition currentThroughOf (nodeStates : gmap string NodeSim.t)
    (node : Node.t) : Q :=
  let downstreamLoads := findConnectedByCategory (Node.id node) [Load] in
  let connectedChargers :=
    findConnectedByCategory (Node.id node) [Charging] in
  let totalDownstreamCurrent :=
    sumActiveLoadCurrent nodeStates downstreamLoads in
  let totalChargingCurrent :=
    sumChargingCurrent nodeStates connectedChargers in
  Qmax totalDownstreamCurrent totalChargingCurrent.

Definition overRatedWarning (node : Node.t) (currentThrough rating : Q)
    : Message :=
  [Lit (Node.label node); Lit " is over-rated: "; Fixed 1 currentThrough;
   Lit "A through "; Num rating; Lit "A fuse!"].

Definition protectionStep (s : Sim.t) (node : Node.t) (spec : Spec.t)
    : Sim.t :=
  let rating := ratingOf node spec in
  let currentThrough := currentThroughOf (Sim.nodeStates s) node in
  let isOverloaded := Qgtb currentThrough rating in
  let isBlown := isBlownOf node in
  let fuseState :=
    if isBlown then Off else if isOverloaded then Fault else On in
  let systemVoltage := Sim.systemVoltage s in
  let isOff := statusIs fuseState Off in
  let s :=
    Sim.setNode (Node.id node)
      (NodeSim.basic (if isOff then 0 else systemVoltage)
                     (if isOff then 0 else currentThrough)
                     (if isOff then 0 else currentThrough * systemVoltage)
                     fuseState) s in
  if (isOverloaded && negb isBlown)%bool
  then Sim.warn (overRatedWarning node currentThrough rating) s
  else s.

Definition loadStep (s : Sim.t) (node : Node.t) (spec : Spec.t) : Sim.t :=
  let maxCurrent :=
    or_num (Custom.maxCurrent (Node.customValues node))
           (or_num (Spec.maxCurrent spec) 5) in
  let isOn := isOnOf node in
  let isPowered := isConnectedToPower (Node.id node) in
  let isActive := (isOn && isPowered)%bool in
  let current := if isActive then maxCurrent else 0 in
  let systemVoltage := Sim.systemVoltage s in
  let power := current * systemVoltage in
  let s :=
    Sim.setNode (Node.id node)
      (NodeSim.basic (if isPowered then systemVoltage else 0) current power
         (if isActive then On
          else if (isOn && negb isPowered)%bool then Fault else Off)) s in
  if isActive then
    let s := Sim.addLoad power s in
    match findConnectedBattery (Node.id node) with
    | Some connectedBattery =>
        Sim.setCircuits
          (creditLoad (Node.id connectedBattery) power
                      (Sim.batteryCircuits s)) s
    | None => s
    end
  else s.

Definition passiveStep (s : Sim.t) (node : Node.t) : Sim.t :=
  match Node.spec node with
  | None => s
  | Some spec =>
      match Spec.category spec with
      | PowerSource | Charging => s
      | Load => loadStep s node spec
      | Protection => protectionStep s node spec
      | Distribution | Switching =>
          Sim.setNode (Node.id node)
            (NodeSim.basic (Sim.systemVoltage s) 0 0 On) s
      | Ground =>
          Sim.setNode (Node.id node)
            (NodeSim.basic (Sim.systemVoltage s) 0 0 Idle) s
      end
  end.

Definition thirdPass (s : Sim.t) : Sim.t := fold_left passiveStep nodes s.

(** *** Fourth pass: battery finalisation *)

(** The capacity the engine uses for a battery node. *)
Definition battCapacityOf (node : Node.t) (spec : Spec.t) : Q :=
  or_num (Custom.capacity (Node.customValues node))
         (or_num (Spec.capacity spec) 100).

(** The net power and net current of a battery for this tick. *)
Definition netOf (s : Sim.t) (node : Node.t) : Q * Q :=
  match Sim.batteryCircuits s !! Node.id node with
  | Some circuit =>
      if isNodeConnected (Node.id node) then
        let netPowerForBattery :=
          Circuit.generation circuit - Circuit.load circuit in
        (netPowerForBattery, netPowerForBattery / Sim.systemVoltage s)
      else (0, 0)
  | None => (0, 0)
  end.

(** [{ ...old, voltage, current, power, state, stateOfCharge }]. *)
Definition overwriteBattery (old : option NodeSim.t)
    (voltage current power : Q) (state : Status) (soc : Q) : NodeSim.t :=
  match old with
  | Some o =>
      NodeSim.mk voltage current power state (Some soc)
        (NodeSim.efficiency o) (NodeSim.inputVoltage o)
        (NodeSim.outputVoltage o) (NodeSim.inputCurrent o)
        (NodeSim.outputCurrent o) (NodeSim.solarInputPower o)
        (NodeSim.alternatorInputPower o) (NodeSim.chargeStage o)
        (NodeSim.dcDcActive o) (NodeSim.activationThreshold o)
        (NodeSim.tempCompensation o) (NodeSim.maxOutputPower o)
        (NodeSim.compensatedBulkVoltage o)
        (NodeSim.compensatedFloatVoltage o)
  | None =>
      NodeSim.mk voltage current power state (Some soc)
        None None None None None None None None None None None None None
        None
  end.

(** What [calculateBatteryState] returns for a battery node in the
    fourth pass. *)
Definition battStateOf (s : Sim.t) (node : Node.t) (spec : Spec.t)
    : Batt.t :=
  let prevState := prevNode (Node.id node) in
  let currentSoC := nullish (prevState ≫= NodeSim.stateOfCharge) 80 in
  let previousBatteryState := NodeSim.state <$> prevState in
  let '(_, netCurrentForBattery) := netOf s node in
  calculateBatteryState
    (Spec.withCapacity spec
       (or_opt (Custom.capacity (Node.customValues node))
               (Spec.capacity spec)))
    netCurrentForBattery currentSoC deltaTime previousBatteryState.

(** The state the fourth pass writes for a battery node. *)
Definition batteryEntry (s : Sim.t) (node : Node.t) (spec : Spec.t)
    : NodeSim.t :=
  let connected := isNodeConnected (Node.id node) in
  let '(netPowerForBattery, netCurrentForBattery) := netOf s node in
  let battState := battStateOf s node spec in
  overwriteBattery (Sim.nodeStates s !! Node.id node)
    (Batt.voltage battState)
    (if connected then Qabs netCurrentForBattery else 0)
    (if connected then Qabs netPowerForBattery else 0)
    (if connected then Batt.state battState else Idle)
    (Batt.stateOfCharge battState).

Definition batteryStep (s : Sim.t) (node : Node.t) : Sim.t :=
  match Node.spec node with
  | None => s
  | Some spec =>
    if negb (isBatteryType (Spec.type spec)) then s else
    let battState := battStateOf s node spec in
    let s1 := Sim.setNode (Node.id node) (batteryEntry s node spec) s in
    let battCapacity := battCapacityOf node spec in
    let s2 :=
      if (Qgeb battCapacity 100 || Qeq_bool (Sim.systemVoltage s) 12)%bool
      then Sim.setSystemVoltage (Batt.voltage battState) s1
      else s1 in
    let s3 :=
      if Qltb (Batt.stateOfCharge battState) 20
      then Sim.warn [Lit "Battery "; Lit (Node.label node); Lit " is low (";
                     Fixed 0 (Batt.stateOfCharge battState); Lit "%)"] s2
      else s2 in
    if Qltb (Batt.stateOfCharge battState) 10
    then Sim.err [Lit "Battery "; Lit (Node.label node);
                  Lit " critically low!"] s3
    else s3
  end.

Definition fourthPass (s : Sim.t) : Sim.t := fold_left batteryStep nodes s.

(** *** Connection states *)

Definition connectionStates (systemVoltage : Q) : gmap string Conn.t :=
  fold_left (fun states edge =>
               <[Edge.id edge :=
                   Conn.mk (Edge.id edge) (Edge.source edge)
                           (Edge.target edge) systemVoltage 0 0 0 true]>
                 states) edges ∅.

(** *** Diagnostics *)

(** [(label || '').toLowerCase()] mentions a lithium chemistry. *)
Definition labelIsLithium (n : Node.t) : bool :=
  (includes (toLowerCase (Node.label n)) "lithium"
   || includes (toLowerCase (Node.label n)) "lifepo")%bool.

Definition isEmpty {A : Type} (l : list A) : bool :=
  Nat.eqb (length l) 0.

(** The power and the current of a node state that may be missing. *)
Definition hasPower (state : option NodeSim.t) : bool :=
  match state with
  | Some st => Qgtb (NodeSim.power st) 0
  | None => false
  end.

Definition hasCurrent (state : option NodeSim.t) : bool :=
  match state with
  | Some st => Qgtb (NodeSim.current st) 0
  | None => false
  end.

(** Disconnected components, unpowered loads, sources and chargers with
    nothing useful attached. *)
Definition wiringStep (s : Sim.t) (node : Node.t) : Sim.t :=
  match Node.spec node with
  | None => s
  | Some spec =>
    let id := Node.id node in
    let label := Lit (Node.label node) in
    let state := Sim.nodeStates s !! id in
    if negb (isNodeConnected id) then
      if (catIs (Spec.category spec) PowerSource
          && negb (typeIs (Spec.type spec) Battery)
          && negb (typeIs (Spec.type spec) BatteryBank))%bool
      then Sim.warn [label; Lit " is not connected to anything"] s
      else if catIs (Spec.category spec) Load
      then Sim.warn [label; Lit " has no wire connections"] s
      else if catIs (Spec.category spec) Charging
      then Sim.warn [label; Lit " is not wired into the system"] s
      else s
    else
      let s :=
        if (catIs (Spec.category spec) Load && isOnOf node
            && negb (isConnectedToPower id))%bool
        then Sim.warn [label; Lit " is on but not connected to a battery"] s
        else s in
      let s :=
        if ((typeIs (Spec.type spec) SolarPanel
             || typeIs (Spec.type spec) SolarArray)
            && isEmpty (findConnectedByCategory id [Charging])
            && hasPower state)%bool
        then Sim.warn [label;
               Lit " is producing power but not connected to a charger"] s
        else s in
      let s :=
        if (typeIs (Spec.type spec) Alternator
            && isEmpty (findConnectedByType id batteryTypes)
            && isEmpty (findConnectedByCategory id [Charging])
            && Env.engineRunning environment)%bool
        then Sim.warn [label;
               Lit " is running but not connected to a battery or charger"] s
        else s in
      let s :=
        if (catIs (Spec.category spec) Charging
            && isEmpty (findConnectedByType id batteryTypes))%bool
        then Sim.warn [label; Lit " has no battery connected to charge"] s
        else s in
      if (typeIs (Spec.type spec) DcDcMpptCharger
          && isEmpty (findConnectedByType id [SolarPanel; SolarArray])
          && isEmpty (findConnectedByType id [Alternator])
          && Nat.ltb (length (findConnectedByType id batteryTypes)) 2)%bool
      then Sim.warn [label;
             Lit " has no power input (solar, alternator, or starter battery)"]
             s
      else s
  end.

(** Batteries with nothing attached, starter batteries carrying house
    loads. *)
Definition batteryUseStep (s : Sim.t) (node : Node.t) : Sim.t :=
  match Node.spec node with
  | None => s
  | Some spec =>
    if (isBatteryType (Spec.type spec) && isNodeConnected (Node.id node))%bool
    then
      let allConnected := traceAllConnections (Node.id node) in
      let hasLoads := existsb (nodeCategoryIn [Load]) allConnected in
      let hasChargers := existsb (nodeCategoryIn [Charging]) allConnected in
      let s :=
        if (typeIs (Spec.type spec) StarterBattery
            || optStrIs (Spec.batteryRole spec) "starter")%bool then
          let hasNonStarterLoads :=
            existsb (fun n =>
                       (nodeCategoryIn [Load] n
                        && negb (nodeTypeIn [StarterMotor] n)
                        && negb (nodeTypeIn [Engine] n))%bool) allConnected in
          if hasNonStarterLoads
          then Sim.warn [Lit "⚠️ "; Lit (Node.label node);
                 Lit " has house loads connected! Starter battery should only power starter motor."]
                 s
          else s
        else s in
      if (negb hasLoads && negb hasChargers)%bool
      then Sim.warn [Lit (Node.label node);
             Lit " is not connected to any loads or chargers"] s
      else s
    else s
  end.

(** Loads wired to a battery without a fuse or breaker. *)
Definition unprotectedStep (s : Sim.t) (node : Node.t) : Sim.t :=
  if (nodeCategoryIn [Load] node && isNodeConnected (Node.id node))%bool then
    let allConnected := traceAllConnections (Node.id node) in
    let hasProtection := existsb (nodeCategoryIn [Protection]) allConnected in
    let hasBattery := existsb nodeIsBattery allConnected in
    if (hasBattery && negb hasProtection)%bool
    then Sim.warn [Lit "⚠️ "; Lit (Node.label node);
           Lit " has no fuse/breaker protection!"] s
    else s
  else s.

(** Fuses rated below 80% of the current through them. *)
Definition undersizedStep (s : Sim.t) (node : Node.t) : Sim.t :=
  match Node.spec node with
  | None => s
  | Some spec =>
    if (catIs (Spec.category spec) Protection
        && isNodeConnected (Node.id node))%bool then
      let rating := ratingOf node spec in
      match Sim.nodeStates s !! Node.id node with
      | Some state =>
          if (Qgtb (NodeSim.current state) 0
              && Qltb rating (NodeSim.current state * 0.8))%bool
          then Sim.err [Lit "❌ "; Lit (Node.label node); Lit " (";
                 Num rating; Lit "A) is undersized for ";
                 Fixed 1 (NodeSim.current state); Lit "A load!"] s
          else s
      | None => s
      end
    else s
  end.

(** [customValues?.voc || spec?.voc || 22]. *)
Definition vocOf (n : Node.t) : Q :=
  or_num (Custom.voc (Node.customValues n))
         (or_num (Node.spec n ≫= Spec.voc) 22).

(** Solar panels whose open-circuit voltage exceeds the charger's
    input. *)
Definition solarVocStep (s : Sim.t) (node : Node.t) : Sim.t :=
  match Node.spec node with
  | None => s
  | Some spec =>
    if (catIs (Spec.category spec) Charging
        && typeIs (Spec.type spec) DcDcMpptCharger)%bool then
      let connectedSolar :=
        findConnectedByType (Node.id node) [SolarPanel; SolarArray] in
      let maxSolarVoltage := or_num (Spec.solarInputMax spec) 32 in
      fold_left (fun s solarNode =>
                   let voc := vocOf solarNode in
                   if Qgtb voc maxSolarVoltage
                   then Sim.err [Lit "❌ "; Lit (Node.label solarNode);
                          Lit " Voc ("; Num voc; Lit "V) exceeds ";
                          Lit (Node.label node); Lit " max input (";
                          Num maxSolarVoltage; Lit "V)!"] s
                   else s) connectedSolar s
    else s
  end.

(** [(totalBatteryCapacity, totalDailyLoadAh)] after one more node. *)
Definition demandStep (nodeStates : gmap string NodeSim.t)
    (totals : Q * Q) (node : Node.t) : Q * Q :=
  match Node.spec node with
  | None => totals
  | Some spec =>
    let '(totalBatteryCapacity, totalDailyLoadAh) := totals in
    let totalBatteryCapacity :=
      if ((typeIs (Spec.type spec) Battery
           || typeIs (Spec.type spec) BatteryBank
           || typeIs (Spec.type spec) HouseBattery)
          && negb (typeIs (Spec.type spec) StarterBattery)
          && negb (optStrIs (Spec.batteryRole spec) "starter"))%bool
      then totalBatteryCapacity + battCapacityOf node spec
      else totalBatteryCapacity in
    let totalDailyLoadAh :=
      if catIs (Spec.category spec) Load then
        match nodeStates !! Node.id node with
        | Some state =>
            if Qgtb (NodeSim.current state) 0
            then totalDailyLoadAh + NodeSim.current state * 8
            else totalDailyLoadAh
        | None => totalDailyLoadAh
        end
      else totalDailyLoadAh in
    (totalBatteryCapacity, totalDailyLoadAh)
  end.

Definition demandTotals (s : Sim.t) : Q * Q :=
  fold_left (demandStep (Sim.nodeStates s)) nodes (0, 0).

Definition demandCheck (totals : Q * Q) (s : Sim.t) : Sim.t :=
  let '(totalBatteryCapacity, totalDailyLoadAh) := totals in
  if (Qgtb totalBatteryCapacity 0
      && Qgtb totalDailyLoadAh (totalBatteryCapacity * 0.5))%bool
  then Sim.warn [Lit "⚡ Daily load (~"; Fixed 0 totalDailyLoadAh;
         Lit "Ah) may exceed safe battery discharge (";
         Fixed 0 (totalBatteryCapacity * 0.5); Lit "Ah at 50% DoD)"] s
  else s.

Definition groundCheck (s : Sim.t) : Sim.t :=
  let hasGroundBus := existsb (nodeCategoryIn [Ground]) nodes in
  let hasLoads := existsb (nodeCategoryIn [Load]) nodes in
  if (hasLoads && negb hasGroundBus)%bool
  then Sim.warn [Lit "⏚ No ground/negative bus in diagram - consider adding for complete circuit"] s
  else s.

(** [customValues?.capacity || spec?.capacity || 100]. *)
Definition capacityOf (n : Node.t) : Q :=
  or_num (Custom.capacity (Node.customValues n))
         (or_num (Node.spec n ≫= Spec.capacity) 100).

(** Chargers faster than the safe charge rate of their batteries. *)
Definition chargeRateStep (s : Sim.t) (node : Node.t) : Sim.t :=
  match Node.spec node with
  | None => s
  | Some spec =>
    if catIs (Spec.category spec) Charging then
      let chargerRate :=
        or_num (Custom.chargeRate (Node.customValues node))
               (or_num (Spec.chargeRate spec) 30) in
      fold_left (fun s battNode =>
                   let battCapacity := capacityOf battNode in
                   let maxSafeChargeRate :=
                     if labelIsLithium battNode then battCapacity
                     else battCapacity * 0.5 in
                   if Qgtb chargerRate maxSafeChargeRate
                   then Sim.warn [Lit "⚠️ "; Lit (Node.label node);
                          Lit " ("; Num chargerRate;
                          Lit "A) may exceed safe charge rate for ";
                          Lit (Node.label battNode); Lit " (";
                          Fixed 0 maxSafeChargeRate; Lit "A max)"] s
                   else s)
                (findConnectedByType (Node.id node) batteryTypes) s
    else s
  end.

(** Fuses between 80% and 100% of their rating. *)
Definition nearLimitStep (s : Sim.t) (node : Node.t) : Sim.t :=
  match Node.spec node with
  | None => s
  | Some spec =>
    if (catIs (Spec.category spec) Protection
        && isNodeConnected (Node.id node))%bool then
      let rating := ratingOf node spec in
      match Sim.nodeStates s !! Node.id node with
      | Some state =>
          if Qgtb (NodeSim.current state) 0 then
            let loadPercent := (NodeSim.current state / rating) * 100 in
            if (Qgeb loadPercent 80 && Qltb loadPercent 100)%bool
            then Sim.warn [Lit "⚠️ "; Lit (Node.label node); Lit " at ";
                   Fixed 0 loadPercent; Lit "% capacity (";
                   Fixed 1 (NodeSim.current state); Lit "A / "; Num rating;
                   Lit "A)"] s
            else s
          else s
      | None => s
      end
    else s
  end.

(** Batteries discharging faster than their chemistry allows. *)
Definition dischargeRateStep (s : Sim.t) (node : Node.t) : Sim.t :=
  match Node.spec node with
  | None => s
  | Some spec =>
    if (isBatteryType (Spec.type spec) && isNodeConnected (Node.id node))%bool
    then
      let capacity := battCapacityOf node spec in
      match Sim.nodeStates s !! Node.id node with
      | Some state =>
          if (statusIs (NodeSim.state state) Discharging
              && Qgtb (NodeSim.current state) 0)%bool then
            let cRate := NodeSim.current state / capacity in
            let maxCRate := if labelIsLithium node then 1.0 else 0.2 in
            if Qgtb cRate maxCRate
            then Sim.warn [Lit "⚡ "; Lit (Node.label node);
                   Lit " discharge rate ("; Fixed 2 cRate;
                   Lit "C) exceeds recommended "; Num maxCRate;
                   Lit "C max"] s
            else s
          else s
      | None => s
      end
    else s
  end.

(** Series arrays whose open-circuit voltage reaches the charger's
    maximum. *)
Definition seriesVocStep (s : Sim.t) (node : Node.t) : Sim.t :=
  match Node.spec node with
  | None => s
  | Some spec =>
    if typeIs (Spec.type spec) SolarArray then
      let arrayConfig :=
        or_str (Custom.arrayConfig (Node.customValues node))
               (or_str (Spec.arrayConfig spec) "parallel") in
      let panelCount :=
        or_num (Custom.panelCount (Node.customValues node))
               (or_num (Spec.panelCount spec) 2) in
      let voc := vocOf node in
      if String.eqb arrayConfig "series" then
        let totalVoc := voc * panelCount in
        fold_left (fun s charger =>
                     let maxInput :=
                       or_num (Node.spec charger ≫= Spec.solarInputMax) 32 in
                     if Qgtb totalVoc maxInput
                     then Sim.err [Lit "❌ "; Lit (Node.label node);
                            Lit " series Voc ("; Num totalVoc;
                            Lit "V) exceeds "; Lit (Node.label charger);
                            Lit " max ("; Num maxInput; Lit "V)!"] s
                     else if Qgtb totalVoc (maxInput * 0.9)
                     then Sim.warn [Lit "⚠️ "; Lit (Node.label node);
                            Lit " series Voc ("; Num totalVoc;
                            Lit "V) close to "; Lit (Node.label charger);
                            Lit " max ("; Num maxInput; Lit "V)"] s
                     else s)
                  (findConnectedByCategory (Node.id node) [Charging]) s
      else s
    else s
  end.

(** Load above generation when no house battery backs it. *)
Definition backupCheck (totalBatteryCapacity : Q) (s : Sim.t) : Sim.t :=
  if (Qgtb (Sim.totalLoad s) 0 && Qgtb (Sim.totalGeneration s) 0
      && Qeq_bool totalBatteryCapacity 0
      && Qgtb (Sim.totalLoad s) (Sim.totalGeneration s))%bool
  then Sim.warn [Lit "⚡ Load ("; Fixed 0 (Sim.totalLoad s);
         Lit "W) exceeds generation ("; Fixed 0 (Sim.totalGeneration s);
         Lit "W) with no battery backup!"] s
  else s.

(** Loads and chargers whose current calls for a heavier wire. *)
Definition wireGaugeStep (s : Sim.t) (node : Node.t) : Sim.t :=
  if nodeCategoryIn [Load; Charging] node then
    match Sim.nodeStates s !! Node.id node with
    | Some state =>
        if Qgtb (NodeSim.current state) 30
        then Sim.warn [Lit "📏 "; Lit (Node.label node); Lit " draws ";
               Fixed 1 (NodeSim.current state);
               Lit "A - ensure adequate wire gauge (≥10 AWG recommended)"] s
        else if Qgtb (NodeSim.current state) 50
        then Sim.warn [Lit "📏 "; Lit (Node.label node); Lit " draws ";
               Fixed 1 (NodeSim.current state);
               Lit "A - ensure adequate wire gauge (≥6 AWG recommended)"] s
        else s
    | None => s
    end
  else s.

(** A battery that is not a starter battery. *)
Definition isHouseBattery (b : Node.t) : bool :=
  (nodeTypeIn [HouseBattery] b
   || optStrIs (Node.spec b ≫= Spec.batteryRole) "house"
   || (negb (optStrIs (Node.spec b ≫= Spec.batteryRole) "starter")
       && negb (nodeTypeIn [StarterBattery] b)))%bool.

Definition mismatchWarning (a b : string * Q) : Message :=
  [Lit "⚠️ Voltage mismatch: "; Lit (fst a); Lit " ("; Fixed 2 (snd a);
   Lit "V) vs "; Lit (fst b); Lit " ("; Fixed 2 (snd b); Lit "V)"].

(** The nested loops over the pairs [i < j] of [batteryVoltages]. *)
Fixpoint mismatchPairs (batteryVoltages : list (string * Q)) (s : Sim.t)
    : Sim.t :=
  match batteryVoltages with
  | [] => s
  | a :: rest =>
      mismatchPairs rest
        (fold_left (fun s b =>
                      if Qgtb (Qabs (snd a - snd b)) 0.5
                      then Sim.warn (mismatchWarning a b) s
                      else s) rest s)
  end.

(** House batteries whose voltages differ by more than half a volt. *)
Definition mismatchCheck (s : Sim.t) : Sim.t :=
  let batteries := List.filter nodeIsBattery nodes in
  let houseBatteries := List.filter isHouseBattery batteries in
  if Nat.leb 2 (length houseBatteries) then
    let batteryVoltages :=
      map (fun b =>
             (Node.label b,
              or_num (NodeSim.voltage <$> (Sim.nodeStates s !! Node.id b))
                     12)) houseBatteries in
    mismatchPairs batteryVoltages s
  else s.

(** Alternators wired to a lithium battery without a DC-DC charger. *)
Definition directLithiumStep (s : Sim.t) (node : Node.t) : Sim.t :=
  if (nodeTypeIn [Alternator] node && isNodeConnected (Node.id node))%bool
  then
    let connectedBatteries :=
      findConnectedByType (Node.id node) batteryTypes in
    let connectedChargers :=
      findConnectedByCategory (Node.id node) [Charging] in
    fold_left (fun s batt =>
                 let hasDCDC :=
                   existsb (nodeTypeIn [DcDcCharger; DcDcMpptCharger])
                           connectedChargers in
                 if (labelIsLithium batt && negb hasDCDC)%bool
                 then Sim.warn [Lit "⚠️ "; Lit (Node.label node);
                        Lit " directly connected to ";
                        Lit (Node.label batt);
                        Lit " - consider DC-DC charger for lithium"] s
                 else s) connectedBatteries s
  else s.

(** Distribution buses carrying more than their rating. *)
Definition busLoadStep (s : Sim.t) (node : Node.t) : Sim.t :=
  if (nodeCategoryIn [Distribution] node
      && isNodeConnected (Node.id node))%bool then
    let connectedLoads := findConnectedByCategory (Node.id node) [Load] in
    let totalBusCurrent :=
      sumActiveLoadCurrent (Sim.nodeStates s) connectedLoads in
    let busRating := or_num (Custom.rating (Node.customValues node)) 100 in
    if Qgtb totalBusCurrent busRating
    then Sim.err [Lit "❌ "; Lit (Node.label node); Lit " overloaded: ";
           Fixed 1 totalBusCurrent; Lit "A exceeds "; Num busRating;
           Lit "A rating!"] s
    else if Qgtb totalBusCurrent (busRating * 0.8)
    then Sim.warn [Lit "⚠️ "; Lit (Node.label node); Lit " at ";
           Fixed 0 ((totalBusCurrent / busRating) * 100);
           Lit "% capacity ("; Fixed 1 totalBusCurrent; Lit "A / ";
           Num busRating; Lit "A)"] s
    else s
  else s.

(** The whole diagnostics stage, in the order of the source. *)
Definition diagnostics (s : Sim.t) : Sim.t :=
  let s := fold_left wiringStep nodes s in
  let s := fold_left batteryUseStep nodes s in
  let s := fold_left unprotectedStep nodes s in
  let s := fold_left undersizedStep nodes s in
  let s := fold_left solarVocStep nodes s in
  let totals := demandTotals s in
  let s := demandCheck totals s in
  let s := groundCheck s in
  let s := fold_left chargeRateStep nodes s in
  let s := fold_left nearLimitStep nodes s in
  let s := fold_left dischargeRateStep nodes s in
  let s := fold_left seriesVocStep nodes s in
  let s := backupCheck (fst totals) s in
  let s := fold_left wireGaugeStep nodes s in
  let s := mismatchCheck s in
  let s := fold_left directLithiumStep nodes s in
  fold_left busLoadStep nodes s.

(** *** The tick *)

Definition runSimulation : Sys.t :=
  let s := initialSim in
  let s := firstPass s in
  let s := secondPass s in
  let s := thirdPass s in
  let s := fourthPass s in
  let connections := connectionStates (Sim.systemVoltage s) in
  let s := diagnostics s in
  let netPower := Sim.totalGeneration s - Sim.totalLoad s in
  Sys.mk (Sim.systemVoltage s) (Sim.totalLoad s) (Sim.totalGeneration s)
         netPower (Sim.nodeStates s) connections (Sim.warnings s)
         (Sim.errors s).

End Simulation.

(** ** Wire, fuse and breaker tables ([src/types/electrical.ts]) *)

(** A row of [WIRE_GAUGES]. *)
Module Wire.
Record t : Type := mk {
  awg : string;
  mmSq : Q;
  maxCurrent3Percent : Q;
  maxCurrent10Percent : Q;
  resistance : Q
}.
End Wire.

Definition WIRE_GAUGES : list Wire.t :=
  [ Wire.mk "18" 0.82 2.5 8 6.385;
    Wire.mk "16" 1.31 4 13 4.016;
    Wire.mk "14" 2.08 6 20 2.525;
    Wire.mk "12" 3.31 10 32 1.588;
    Wire.mk "10" 5.26 15 50 0.999;
    Wire.mk "8" 8.37 25 80 0.628;
    Wire.mk "6" 13.3 40 120 0.395;
    Wire.mk "4" 21.1 60 160 0.249;
    Wire.mk "2" 33.6 95 250 0.156;
    Wire.mk "1" 42.4 120 300 0.124;
    Wire.mk "1/0" 53.5 150 350 0.098;
    Wire.mk "2/0" 67.4 190 420 0.078;
    Wire.mk "3/0" 85.0 240 500 0.062;
    Wire.mk "4/0" 107 300 600 0.049 ].

Definition STANDARD_FUSE_RATINGS : list Q :=
  [1; 2; 3; 5; 7.5; 10; 15; 20; 25; 30; 35; 40; 50; 60; 70; 80; 100; 125;
   150; 175; 200; 225; 250; 300].

Definition STANDARD_BREAKER_RATINGS : list Q :=
  [5; 10; 15; 20; 25; 30; 40; 50; 60; 70; 80; 100; 125; 150; 175; 200].

(** ** Wire sizing calculators ([src/utils/calculations.ts])

    A parameter with a default value is an ordinary argument here: a
    caller that leaves it out passes the default. *)

(** [{ voltageDrop, percentDrop, isAcceptable }]. *)
Module Drop.
Record t : Type := mk {
  voltageDrop : Q;
  percentDrop : Q;
  isAcceptable : bool
}.
End Drop.

(** [WIRE_GAUGES.find(w => w.awg === awg)]. *)
Definition findGauge (awg : string) : option Wire.t :=
  List.find (fun w => String.eqb (Wire.awg w) awg) WIRE_GAUGES.

(** [calculateVoltageDrop], over the round-trip length of the wire;
    [systemVoltage] defaults to 12.  The percentage divides by
    [systemVoltage], which is taken different from 0. *)
Definition calculateVoltageDrop (current lengthFeet : Q) (awg : string)
    (systemVoltage : Q) : Drop.t :=
  match findGauge awg with
  | None => Drop.mk 0 0 false
  | Some wireSpec =>
      let totalLength := lengthFeet * 2 in
      let voltageDrop :=
        (totalLength * current * Wire.resistance wireSpec) / 1000 in
      let percentDrop := (voltageDrop / systemVoltage) * 100 in
      let isAcceptable := Qleb percentDrop 10 in
      Drop.mk voltageDrop percentDrop isAcceptable
  end.

(** [parseInt(s, 10)] on ASCII text: leading white space, a sign, then
    the longest run of decimal digits; [None] stands for [NaN]. *)
Definition isWhiteSpace (c : ascii) : bool :=
  let n := nat_of_ascii c in
  (Nat.eqb n 9 || Nat.eqb n 10 || Nat.eqb n 11 || Nat.eqb n 12
   || Nat.eqb n 13 || Nat.eqb n 32)%bool.

Definition digitOf (c : ascii) : option Z :=
  let n := nat_of_ascii c in
  if (Nat.leb 48 n && Nat.leb n 57)%bool
  then Some (Z.of_nat (n - 48)) else None.

Fixpoint skipWhiteSpace (s : string) : string :=
  match s with
  | String c r => if isWhiteSpace c then skipWhiteSpace r else s
  | EmptyString => s
  end.

Fixpoint digitsFrom (acc : option Z) (s : string) : option Z :=
  match s with
  | String c r =>
      match digitOf c with
      | Some d => digitsFrom (Some (10 * nullish acc 0 + d)%Z) r
      | None => acc
      end
  | EmptyString => acc
  end.

Definition parseInt10 (s : string) : option Z :=
  match skipWhiteSpace s with
  | String "-" r => Z.opp <$> digitsFrom None r
  | String "+" r => digitsFrom None r
  | t => digitsFrom None t
  end.

(** [parseAWG]: the aught sizes count below zero. *)
Definition parseAWG (awg : string) : option Z :=
  if String.eqb awg "1/0" then Some (-1)%Z
  else if String.eqb awg "2/0" then Some (-2)%Z
  else if String.eqb awg "3/0" then Some (-3)%Z
  else if String.eqb awg "4/0" then Some (-4)%Z
  else parseInt10 awg.

(** The comparator [(a, b) => parseAWG(b.awg) - parseAWG(a.awg)]; a
    [NaN] result counts as [0], as [Array.prototype.sort] takes it. *)
Definition thinnerFirst (a b : Wire.t) : Z :=
  match parseAWG (Wire.awg a), parseAWG (Wire.awg b) with
  | Some aNum, Some bNum => (bNum - aNum)%Z
  | _, _ => 0%Z
  end.

(** [xs.sort(compare)]: the sort is stable, an element is placed before
    the first one it does not come after. *)
Fixpoint insertBy {A : Type} (compare : A -> A -> Z) (x : A) (xs : list A)
    : list A :=
  match xs with
  | [] => [x]
  | y :: rest =>
      if (compare x y <=? 0)%Z then x :: y :: rest
      else y :: insertBy compare x rest
  end.

Definition sortBy {A : Type} (compare : A -> A -> Z) (xs : list A)
    : list A :=
  fold_right (insertBy compare) [] xs.

(** [{ recommended, alternative, allSuitable }]. *)
Module GaugeChoice.
Record t : Type := mk {
  recommended : string;
  alternative : option string;
  allSuitable : list Wire.t
}.
End GaugeChoice.

(** A gauge whose drop stays within [maxDropPercent]: the test of the
    loop of [recommendWireGauge]. *)
Definition withinDrop (current lengthFeet systemVoltage maxDropPercent : Q)
    (wire : Wire.t) : bool :=
  Qleb (Drop.percentDrop
          (calculateVoltageDrop current lengthFeet (Wire.awg wire)
                                systemVoltage))
       maxDropPercent.

(** [recommendWireGauge]; [systemVoltage] defaults to 12 and
    [maxDropPercent] to 3.  [alternative] is [null] ([None]) when there
    is no second gauge. *)
Definition recommendWireGauge
    (current lengthFeet systemVoltage maxDropPercent : Q) : GaugeChoice.t :=
  let suitableGauges :=
    List.filter (withinDrop current lengthFeet systemVoltage maxDropPercent)
                WIRE_GAUGES in
  let suitableGauges := sortBy thinnerFirst suitableGauges in
  let recommended :=
    or_str (Wire.awg <$> suitableGauges !! 0%nat) "4/0" in
  let alternative :=
    match Wire.awg <$> suitableGauges !! 1%nat with
    | Some s => if String.eqb s "" then None else Some s
    | None => None
    end in
  GaugeChoice.mk recommended alternative suitableGauges.

(** The loop shared by [recommendFuse] and [recommendBreaker], from some
    index on: the first rating that fits, with the rating after it, or
    itself when it is the last ([ratings[i + 1] || recommended]). *)
Fixpoint firstFit (fits : Q -> bool) (ratings : list Q) : option (Q * Q) :=
  match ratings with
  | [] => None
  | rating :: rest =>
      if fits rating then Some (rating, or_num (head rest) rating)
      else firstFit fits rest
  end.

(** [{ recommended, nextSize, wireCapacity }]. *)
Module FuseChoice.
Record t : Type := mk {
  recommended : Q;
  nextSize : Q;
  wireCapacity : Q
}.
End FuseChoice.

(** [recommendFuse]: the smallest standard fuse of at least 125 % of the
    load that the wire can carry; the first two ratings of the table
    when no rating fits. *)
Definition recommendFuse (loadCurrent : Q) (wireGauge : string)
    : FuseChoice.t :=
  let wireSpec := findGauge wireGauge in
  let wireCapacity :=
    or_num (Wire.maxCurrent10Percent <$> wireSpec) (loadCurrent * 1.5) in
  let minFuseSize := loadCurrent * 1.25 in
  let maxFuseSize := wireCapacity in
  match firstFit (fun rating =>
                    (Qgeb rating minFuseSize && Qleb rating maxFuseSize)%bool)
                 STANDARD_FUSE_RATINGS with
  | Some (recommended, nextSize) =>
      FuseChoice.mk recommended nextSize wireCapacity
  | None =>
      FuseChoice.mk (nth 0 STANDARD_FUSE_RATINGS 0)
                    (nth 1 STANDARD_FUSE_RATINGS 0) wireCapacity
  end.

(** [{ recommended, nextSize }]. *)
Module BreakerChoice.
Record t : Type := mk { recommended : Q; nextSize : Q }.
End BreakerChoice.

Definition recommendBreaker (loadCurrent : Q) : BreakerChoice.t :=
  let minSize := loadCurrent * 1.25 in
  match firstFit (fun rating => Qgeb rating minSize)
                 STANDARD_BREAKER_RATINGS with
  | Some (recommended, nextSize) => BreakerChoice.mk recommended nextSize
  | None =>
      BreakerChoice.mk (nth 0 STANDARD_BREAKER_RATINGS 0)
                       (nth 1 STANDARD_BREAKER_RATINGS 0)
  end.

(** An entry of the [loads] array of [calculateTotalLoad]. *)
Module LoadItem.
Record t : Type := mk { current : Q; dutyCycle : option Q }.
End LoadItem.

(** [{ peakCurrent, averageCurrent, dailyAh }]. *)
Module TotalLoad.
Record t : Type := mk {
  peakCurrent : Q;
  averageCurrent : Q;
  dailyAh : Q
}.
End TotalLoad.

Definition calculateTotalLoad (loads : list LoadItem.t) : TotalLoad.t :=
  let '(peakCurrent, weightedCurrent) :=
    fold_left (fun '(peakCurrent, weightedCurrent) load =>
                 let dutyCycle := or_num (LoadItem.dutyCycle load) 1 in
                 (peakCurrent + LoadItem.current load,
                  weightedCurrent + LoadItem.current load * dutyCycle))
              loads (0, 0) in
  let dailyAh := weightedCurrent * 8 in
  TotalLoad.mk peakCurrent weightedCurrent dailyAh.

(** [Math.ceil], here of the exact value: the code takes it of a
    rounded one, which can be a whole number away when the exact value
    is within rounding of a whole number. *)
Definition ceil (x : Q) : Q := inject_Z (Qceiling x).

(** [{ minimumCapacity, recommendedCapacity, watts }]. *)
Module Bank.
Record t : Type := mk {
  minimumCapacity : Q;
  recommendedCapacity : Q;
  watts : Q
}.
End Bank.

(** [calculateBatteryBank]; the defaults are 2 days of autonomy, a depth
    of discharge of 50 % and 12 V. *)
Definition calculateBatteryBank
    (dailyAh daysAutonomy depthOfDischarge systemVoltage : Q) : Bank.t :=
  let minimumCapacity :=
    (dailyAh * daysAutonomy) / (depthOfDischarge / 100) in
  let recommendedCapacity := minimumCapacity * 1.2 in
  let watts := recommendedCapacity * systemVoltage in
  Bank.mk (ceil minimumCapacity) (ceil recommendedCapacity) (ceil watts).

(** [{ minimumWatts, recommendedWatts, panelCount100W }]. *)
Module SolarNeed.
Record t : Type := mk {
  minimumWatts : Q;
  recommendedWatts : Q;
  panelCount100W : Q
}.
End SolarNeed.

(** [calculateSolarRequirements]; the defaults are 5 peak sun hours and
    an efficiency of 0.75. *)
Definition calculateSolarRequirements
    (dailyAh peakSunHours systemEfficiency : Q) : SolarNeed.t :=
  let systemVoltage := 12 in
  let minimumWatts :=
    (dailyAh * systemVoltage) / (peakSunHours * systemEfficiency) in
  let recommendedWatts := minimumWatts * 1.25 in
  SolarNeed.mk (ceil minimumWatts) (ceil recommendedWatts)
               (ceil (recommendedWatts / 100)).

(** [{ isValid, warnings, errors }]. *)
Module Validation.
Record t : Type := mk {
  isValid : bool;
  warnings : list Message;
  errors : list Message
}.
End Validation.

(** [errors.length === 0]. *)
Definition isEmptyList {A : Type} (l : list A) : bool :=
  match l with [] => true | _ :: _ => false end.

Definition validateCircuit (loadCurrent : Q) (wireGauge : string)
    (fuseRating wireLengthFeet : Q) : Validation.t :=
  match findGauge wireGauge with
  | None =>
      Validation.mk false [] [[Lit "Unknown wire gauge: "; Lit wireGauge]]
  | Some wireSpec =>
      let percentDrop :=
        Drop.percentDrop
          (calculateVoltageDrop loadCurrent wireLengthFeet wireGauge 12) in
      let warnings : list Message := [] in
      let errors : list Message := [] in
      let '(warnings, errors) :=
        if Qgtb percentDrop 10 then
          (warnings,
           errors ++ [[Lit "Voltage drop ("; Fixed 1 percentDrop;
                       Lit "%) exceeds 10% maximum"]])
        else if Qgtb percentDrop 3 then
          (warnings ++ [[Lit "Voltage drop ("; Fixed 1 percentDrop;
                         Lit "%) exceeds 3% recommended for critical circuits"]],
           errors)
        else (warnings, errors) in
      let errors :=
        if Qgtb loadCurrent (Wire.maxCurrent10Percent wireSpec) then
          errors ++ [[Lit "Wire gauge "; Lit wireGauge;
                      Lit " AWG cannot safely carry "; Num loadCurrent;
                      Lit "A"]]
        else errors in
      let errors :=
        if Qltb fuseRating loadCurrent then
          errors ++ [[Lit "Fuse ("; Num fuseRating;
                      Lit "A) is undersized for load ("; Num loadCurrent;
                      Lit "A)"]]
        else errors in
      let warnings :=
        if Qgtb fuseRating (Wire.maxCurrent10Percent wireSpec) then
          warnings ++ [[Lit "Fuse ("; Num fuseRating;
                        Lit "A) may not protect "; Lit wireGauge;
                        Lit " AWG wire (max ";
                        Num (Wire.maxCurrent10Percent wireSpec); Lit "A)"]]
        else warnings in
      Validation.mk (isEmptyList errors) warnings errors
  end.

(** What the wire recommendation of the properties panel shows
    ([WireRecommendation] in [src/components/sidebar/PropertiesPanel.tsx]):
    the gauge, the alternative, the fuse and the voltage drop, at 12 V
    and a limit of 3 %. *)
Module WireAdvice.
Record t : Type := mk {
  recommended : string;
  alternative : option string;
  fuseSizeRec : Q;
  percentDrop : Q
}.
End WireAdvice.

Definition WireRecommendation (current length : Q) : WireAdvice.t :=
  let choice := recommendWireGauge current length 12 3 in
  let recommended := GaugeChoice.recommended choice in
  let fuseSizeRec :=
    FuseChoice.recommended (recommendFuse current recommended) in
  let percentDrop :=
    Drop.percentDrop (calculateVoltageDrop current length recommended 12) in
  WireAdvice.mk recommended (GaugeChoice.alternative choice) fuseSizeRec
                percentDrop.

(** ** The simulation panel
    ([src/components/sidebar/SimulationPanel.tsx])

    The component's state, the part the tick touches: the [simulation]
    and [simTime] state variables and the [prevSimRef] reference.  A
    state update is a transition of this record. *)
Module Panel.
Record t : Type := mk {
  simulation : option Sys.t;
  prevSimRef : option Sys.t;
  simTime : Q
}.

(** The state the component mounts with. *)
Definition initial : t := mk None None 0.
End Panel.

(** What a tick reads of the component's props and state: the diagram,
    the environment and the speed. *)
Module Tick.
Record t : Type := mk {
  nodes : list Node.t;
  edges : list Edge.t;
  environment : Env.t;
  simSpeed : Q
}.
End Tick.

(** [runStep]: one tick of [simSpeed] seconds, fed with the result of
    the tick before. *)
Definition runStep (localeCompare : string -> string -> comparison)
    (tick : Tick.t) (panel : Panel.t) : Panel.t :=
  let deltaTime := Tick.simSpeed tick in
  let result :=
    runSimulation localeCompare (Tick.nodes tick) (Tick.edges tick)
                  (Tick.environment tick) (Panel.prevSimRef panel)
                  deltaTime in
  Panel.mk (Some result) (Some result) (Panel.simTime panel + deltaTime).

(** The ticks of the interval timer, one after the other. *)
Definition runSteps (localeCompare : string -> string -> comparison)
    (ticks : list Tick.t) (panel : Panel.t) : Panel.t :=
  fold_left (fun panel tick => runStep localeCompare tick panel) ticks panel.

(** The usage periods of the scenario simulator. *)
Inductive TimePeriod : Type := Morning | Afternoon | Evening | Night.

(** A row of [TIME_PERIODS]: [start] and [end]. *)
Module Period.
Record t : Type := mk { start : Q; finish : Q }.
End Period.

Definition TIME_PERIODS (period : TimePeriod) : Period.t :=
  match period with
  | Morning => Period.mk 6 12
  | Afternoon => Period.mk 12 18
  | Evening => Period.mk 18 23
  | Night => Period.mk 23 6
  end.

(** [isHourInPeriod]: the night wraps around midnight. *)
Definition isHourInPeriod (hour : Q) (period : TimePeriod) : bool :=
  let p := TIME_PERIODS period in
  match period with
  | Night => (Qgeb hour (Period.start p) || Qltb hour (Period.finish p))%bool
  | _ => (Qgeb hour (Period.start p) && Qltb hour (Period.finish p))%bool
  end.

(** [ChargeSummary]. *)
Module ChargeSummary.
Record t : Type := mk {
  totalBatteryCapacity : Q;
  currentSoC : Q;
  averageChargeCurrent : Q;
  averageLoadCurrent : Q;
  netChargeCurrent : Q;
  timeToFull : option Q;
  timeToEmpty : option Q;
  dailySolarYield : Q;
  runtime : Q;
  batteryCount : nat
}.
End ChargeSummary.

(** The body of the [nodes.forEach] of [calculateChargeSummary]:
    [(totalCapacity, totalAhRemaining, batteryCount)]. *)
Definition batteryStats (simulation : Sys.t) (acc : Q * Q * nat)
    (node : Node.t) : Q * Q * nat :=
  let '(totalCapacity, totalAhRemaining, batteryCount) := acc in
  match Node.spec node with
  | Some spec =>
      if (typeIs (Spec.type spec) Battery
          || typeIs (Spec.type spec) BatteryBank)%bool then
        let capacity :=
          or_num (Custom.capacity (Node.customValues node))
                 (or_num (Spec.capacity spec) 100) in
        let state := Sys.nodes simulation !! Node.id node in
        let soc := nullish (state ≫= NodeSim.stateOfCharge) 80 in
        (totalCapacity + capacity,
         totalAhRemaining + capacity * (soc / 100),
         S batteryCount)
      else acc
  | None => acc
  end.

(** The slow-down assumed for the absorption phase. *)
Definition avgChargeEfficiency (currentSoC : Q) : Q :=
  if Qgtb currentSoC 80 then 0.5
  else if Qgtb currentSoC 90 then 0.2 else 1.

(** [calculateChargeSummary]; the [environment] argument is not read. *)
Definition calculateChargeSummary (nodes : list Node.t)
    (simulation : option Sys.t) (environment : Env.t) : ChargeSummary.t :=
  match simulation with
  | None => ChargeSummary.mk 0 0 0 0 0 None None 0 0 0
  | Some simulation =>
      let '(totalCapacity, totalAhRemaining, batteryCount) :=
        fold_left (batteryStats simulation) nodes (0, 0, 0%nat) in
      let currentSoC :=
        if Qgtb totalCapacity 0
        then (totalAhRemaining / totalCapacity) * 100 else 0 in
      let ahToFull := totalCapacity - totalAhRemaining in
      let ahToEmpty := totalAhRemaining * 0.8 in
      let netPower := Sys.netPower simulation in
      let netCurrent := netPower / Sys.systemVoltage simulation in
      let chargeCurrent :=
        Sys.totalGeneration simulation / Sys.systemVoltage simulation in
      let loadCurrent :=
        Sys.totalLoad simulation / Sys.systemVoltage simulation in
      let timeToFull :=
        if (Qgtb netCurrent 0.1 && Qgtb ahToFull 0)%bool then
          Some ((ahToFull
                 / (netCurrent * avgChargeEfficiency currentSoC)) * 3600)
        else None in
      let timeToEmpty :=
        if (Qltb netCurrent (-0.1) && Qgtb ahToEmpty 0)%bool then
          Some ((ahToEmpty / Qabs netCurrent) * 3600)
        else None in
      let solarPower := Sys.totalGeneration simulation in
      let dailySolarYield := solarPower * 5 in
      let runtime :=
        if Qgtb loadCurrent 0 then (ahToEmpty / loadCurrent) * 3600
        else 0 in
      ChargeSummary.mk totalCapacity currentSoC chargeCurrent loadCurrent
                       netCurrent timeToFull timeToEmpty dailySolarYield
                       runtime batteryCount
  end.

(** ** The simulation clock ([formatSimTime])

    The three fields of the display are whole numbers; [Math.floor] is
    [Qfloor]. *)

(** [Math.trunc], with which [%] rounds its quotient. *)
Definition truncate (x : Q) : Z := Z.quot (Qnum x) (Zpos (Qden x)).

(** [x % m]: the remainder takes the sign of [x]. *)
Definition remainder (x m : Q) : Q := x - m * inject_Z (truncate (x / m)).

Definition digitChar (d : Z) : ascii := ascii_of_nat (48 + Z.to_nat d).

(** The decimal digits of [n], put in front of [acc]; [fuel] bounds
    their number. *)
Fixpoint decimalDigits (fuel : nat) (n : Z) (acc : string) : string :=
  match fuel with
  | O => acc
  | S fuel' =>
      let acc' := String (digitChar (n mod 10)) acc in
      if (n / 10 =? 0)%Z then acc'
      else decimalDigits fuel' (n / 10) acc'
  end.

(** [n.toString()] and [${n}] for a whole number below [2^53], where a
    [number] holds every whole number and prints all its digits. *)
Definition numberToString (n : Z) : string :=
  if (n <? 0)%Z
  then String "-" (decimalDigits (S (Z.to_nat (Z.log2 (- n)))) (- n) "")
  else decimalDigits (S (Z.to_nat (Z.log2 n))) n "".

Fixpoint repeatChar (c : ascii) (n : nat) : string :=
  match n with
  | O => EmptyString
  | S k => String c (repeatChar c k)
  end.

(** [s.padStart(targetLength, c)] for a pad string of one character. *)
Definition padStart (targetLength : nat) (c : ascii) (s : string)
    : string :=
  repeatChar c (targetLength - String.length s) +:+ s.

Definition formatSimTime (seconds : Q) : string :=
  let hrs := Qfloor (seconds / 3600) in
  let mins := Qfloor (remainder seconds 3600 / 60) in
  let secs := Qfloor (remainder seconds 60) in
  if (0 <? hrs)%Z then
    numberToString hrs +:+ ":"
    +:+ padStart 2 "0" (numberToString mins) +:+ ":"
    +:+ padStart 2 "0" (numberToString secs)
  else
    numberToString mins +:+ ":" +:+ padStart 2 "0" (numberToString secs).

(** ** Example diagrams *)

(** The collation used in the examples: code-unit order. *)
Definition ordinalCompare : string -> string -> comparison := String.compare.

Definition withRating (s : Spec.t) (r : Q) : Spec.t :=
  Spec.mk (Spec.type s) (Spec.category s) (Spec.maxCurrent s)
    (Spec.capacity s) (Some r) (Spec.chargeRate s) (Spec.efficiency s)
    (Spec.alternatorInputMin s) (Spec.alternatorInputMax s)
    (Spec.solarInputMin s) (Spec.solarInputMax s) (Spec.maxSolarWattage s)
    (Spec.maxSolarCurrent s) (Spec.wattage s) (Spec.voc s) (Spec.vmp s)
    (Spec.imp s) (Spec.panelCount s) (Spec.arrayConfig s)
    (Spec.batteryChemistry s) (Spec.batteryRole s) (Spec.maxOutputPower s)
    (Spec.traditionalAltMin s) (Spec.maxInputVoltage s)
    (Spec.outputVoltageMin s) (Spec.outputVoltageMax s)
    (Spec.tempCompNonLithium s) (Spec.tempCompLithium s).

Definition withMaxCurrent (s : Spec.t) (c : Q) : Spec.t :=
  Spec.mk (Spec.type s) (Spec.category s) (Some c)
    (Spec.capacity s) (Spec.rating s) (Spec.chargeRate s) (Spec.efficiency s)
    (Spec.alternatorInputMin s) (Spec.alternatorInputMax s)
    (Spec.solarInputMin s) (Spec.solarInputMax s) (Spec.maxSolarWattage s)
    (Spec.maxSolarCurrent s) (Spec.wattage s) (Spec.voc s) (Spec.vmp s)
    (Spec.imp s) (Spec.panelCount s) (Spec.arrayConfig s)
    (Spec.batteryChemistry s) (Spec.batteryRole s) (Spec.maxOutputPower s)
    (Spec.traditionalAltMin s) (Spec.maxInputVoltage s)
    (Spec.outputVoltageMin s) (Spec.outputVoltageMax s)
    (Spec.tempCompNonLithium s) (Spec.tempCompLithium s).

Definition withChemistry (s : Spec.t) (chemistry : string) : Spec.t :=
  Spec.mk (Spec.type s) (Spec.category s) (Spec.maxCurrent s)
    (Spec.capacity s) (Spec.rating s) (Spec.chargeRate s) (Spec.efficiency s)
    (Spec.alternatorInputMin s) (Spec.alternatorInputMax s)
    (Spec.solarInputMin s) (Spec.solarInputMax s) (Spec.maxSolarWattage s)
    (Spec.maxSolarCurrent s) (Spec.wattage s) (Spec.voc s) (Spec.vmp s)
    (Spec.imp s) (Spec.panelCount s) (Spec.arrayConfig s)
    (Some chemistry) (Spec.batteryRole s) (Spec.maxOutputPower s)
    (Spec.traditionalAltMin s) (Spec.maxInputVoltage s)
    (Spec.outputVoltageMin s) (Spec.outputVoltageMax s)
    (Spec.tempCompNonLithium s) (Spec.tempCompLithium s).

(** A 100 Ah lead-acid battery, a 15 A fuse, a bus bar and a 20 A
    load. *)
Definition houseBattery : Node.t :=
  Node.mk "battery-1" "House bank"
    (Some (Spec.withCapacity (Spec.bare Battery PowerSource) (Some 100)))
    Custom.empty.

Definition fuse15 : Node.t :=
  Node.mk "fuse-1" "Main fuse"
    (Some (withRating (Spec.bare Fuse Protection) 15)) Custom.empty.

Definition mainBus : Node.t :=
  Node.mk "bus-1" "Bus bar" (Some (Spec.bare BusBar Distribution))
    Custom.empty.

Definition load20 : Node.t :=
  Node.mk "load-1" "Windlass"
    (Some (withMaxCurrent (Spec.bare Windlass Load) 20)) Custom.empty.

(** battery - fuse - bus - load. *)
Definition chainNodes : list Node.t := [houseBattery; fuse15; mainBus; load20].

Definition chainEdges : list Edge.t :=
  [Edge.mk "w1" "battery-1" "fuse-1"; Edge.mk "w2" "fuse-1" "bus-1";
   Edge.mk "w3" "bus-1" "load-1"].

(** battery - fuse - load, with the fuse placed on the canvas before the
    load, and with the load placed first. *)
Definition fuseFirstNodes : list Node.t := [houseBattery; fuse15; load20].
Definition loadFirstNodes : list Node.t := [houseBattery; load20; fuse15].

Definition fusedEdges : list Edge.t :=
  [Edge.mk "w1" "battery-1" "fuse-1"; Edge.mk "w2" "fuse-1" "load-1"].

(** A 200 Ah lead-acid bank followed by a 100 Ah LiFePO4 battery, not
    wired. *)
Definition bank200 : Node.t :=
  Node.mk "battery-a" "Bank A"
    (Some (Spec.withCapacity (Spec.bare Battery PowerSource) (Some 200)))
    Custom.empty.

Definition lifepo100 : Node.t :=
  Node.mk "battery-b" "Bank B"
    (Some (withChemistry
             (Spec.withCapacity (Spec.bare Battery PowerSource) (Some 100))
             "lifepo4"))
    Custom.empty.

Definition twoBanks : list Node.t := [bank200; lifepo100].

(** A single 50 Ah lead-acid battery. *)
Definition smallBattery : Node.t :=
  Node.mk "battery-c" "Dinghy"
    (Some (Spec.withCapacity (Spec.bare Battery PowerSource) (Some 50)))
    Custom.empty.

(** A 100 A alternator wired to a starter battery and, through a bus, to
    the house bank; the engine runs at 1400 RPM. *)
Definition alternator100 : Node.t :=
  Node.mk "alt-1" "Alternator"
    (Some (withMaxCurrent (Spec.bare Alternator PowerSource) 100))
    Custom.empty.

Definition starterBattery : Node.t :=
  Node.mk "battery-s" "Starter"
    (Some (Spec.withCapacity (Spec.bare StarterBattery PowerSource)
                             (Some 70)))
    Custom.empty.

Definition engineNodes : list Node.t :=
  [alternator100; starterBattery; mainBus; houseBattery].

Definition engineEdges : list Edge.t :=
  [Edge.mk "w1" "alt-1" "battery-s"; Edge.mk "w2" "alt-1" "bus-1";
   Edge.mk "w3" "bus-1" "battery-1"].

Definition engineOn : Env.t := Env.mk 800 25 true 1400 false.

(** The fuse of [loadFirstNodes] with its rating overridden by [0] and
    no rating in its spec. *)
Definition fuseZero : Node.t :=
  Node.mk "fuse-1" "Main fuse" (Some (Spec.bare Fuse Protection))
    (Custom.mk None None None None None None None None None None (Some 0)
               None None).

Definition zeroRatingNodes : list Node.t := [houseBattery; load20; fuseZero].

(** ** Notions used to state the properties *)

(** The identifiers of the diagram's nodes. *)
Definition nodeIds (nodes : list Node.t) : gset string :=
  list_to_set (map Node.id nodes).


(** What a trace establishes: [visited] only grows, every node found is
    a real (not pass-through) node of the diagram that was not visited
    before and is visited after, and no identifier is found twice. *)
Definition traced (nodes : list Node.t) (v : gset string)
    (r : list Node.t) (v' : gset string) : Prop :=
  v ⊆ v'
  /\ Forall (fun n => isPassThrough n = false
                      /\ findNode nodes (Node.id n) = Some n
                      /\ (Node.id n ∉ v) /\ (Node.id n ∈ v')) r
  /\ NoDup (map Node.id r).


(** The part of the working state that the diagnostics only read. *)
Definition core (s : Sim.t)
    : gmap string NodeSim.t * gmap string Circuit.t * Q * Q * Q :=
  (Sim.nodeStates s, Sim.batteryCircuits s, Sim.systemVoltage s,
   Sim.totalLoad s, Sim.totalGeneration s).

(** An accumulator entry after [p] watts of generation were added. *)
Definition credited (p : Q) (c : Circuit.t) : Circuit.t :=
  Circuit.mk (Circuit.generation c + p) (Circuit.load c).

(** Every battery node of the diagram has an accumulator entry. *)
Definition accumulatorsReady (nodes : list Node.t)
    (circuits : gmap string Circuit.t) : Prop :=
  forall n, In n nodes -> nodeIsBattery n = true ->
            is_Some (circuits !! Node.id n).

(** What a tick reads of a node's previous state: its state of charge,
    its voltage and its status. *)
Definition persistentView (st : option NodeSim.t)
    : option Q * option Q * option Status :=
  (st ≫= NodeSim.stateOfCharge, NodeSim.voltage <$> st,
   NodeSim.state <$> st).

(** Two previous results that every node's tick reads alike. *)
Definition sameHistory (p p' : option Sys.t) : Prop :=
  forall id, persistentView (prevNode p id) = persistentView (prevNode p' id).

(** A possibly absent number, with a zero turned into an absent value;
    a spec, an override record and a node with every zero removed that
    way. *)
Definition scrub (o : option Q) : option Q :=
  match o with
  | Some x => if truthy x then Some x else None
  | None => None
  end.

Definition scrubSpec (s : Spec.t) : Spec.t :=
  Spec.mk (Spec.type s) (Spec.category s) (scrub (Spec.maxCurrent s))
    (scrub (Spec.capacity s)) (scrub (Spec.rating s))
    (scrub (Spec.chargeRate s)) (scrub (Spec.efficiency s))
    (scrub (Spec.alternatorInputMin s)) (scrub (Spec.alternatorInputMax s))
    (scrub (Spec.solarInputMin s)) (scrub (Spec.solarInputMax s))
    (scrub (Spec.maxSolarWattage s)) (scrub (Spec.maxSolarCurrent s))
    (scrub (Spec.wattage s)) (scrub (Spec.voc s)) (scrub (Spec.vmp s))
    (scrub (Spec.imp s)) (scrub (Spec.panelCount s)) (Spec.arrayConfig s)
    (Spec.batteryChemistry s) (Spec.batteryRole s)
    (scrub (Spec.maxOutputPower s)) (scrub (Spec.traditionalAltMin s))
    (scrub (Spec.maxInputVoltage s)) (scrub (Spec.outputVoltageMin s))
    (scrub (Spec.outputVoltageMax s)) (scrub (Spec.tempCompNonLithium s))
    (scrub (Spec.tempCompLithium s)).

Definition scrubCustom (c : Custom.t) : Custom.t :=
  Custom.mk (scrub (Custom.wattage c)) (scrub (Custom.vmp c))
    (scrub (Custom.imp c)) (scrub (Custom.voc c))
    (scrub (Custom.panelCount c)) (Custom.arrayConfig c)
    (Custom.batteryChemistry c) (scrub (Custom.capacity c))
    (scrub (Custom.chargeRate c)) (scrub (Custom.maxCurrent c))
    (scrub (Custom.rating c)) (Custom.isOn c) (Custom.isBlown c).

Definition scrubNode (n : Node.t) : Node.t :=
  Node.mk (Node.id n) (Node.label n) (scrubSpec <$> Node.spec n)
          (scrubCustom (Node.customValues n)).

(** The result of a trace with its nodes scrubbed. *)
Definition scrubTrace (r : option (list Node.t * gset string))
    : option (list Node.t * gset string) :=
  (fun '(found, visited) => (map scrubNode found, visited)) <$> r.

(** [passPath nodes edges p q]: [q] is joined to [p] by a chain of edges
    on which every node strictly between [p] and [q] is a pass-through
    node of the diagram. *)
Inductive passPath (nodes : list Node.t) (edges : list Edge.t)
    : string -> string -> Prop :=
  | passPath_edge (p q : string) :
      In q (getDirectConnections edges p) -> passPath nodes edges p q
  | passPath_through (p m : string) (n : Node.t) (q : string) :
      In m (getDirectConnections edges p) ->
      findNode nodes m = Some n -> isPassThrough n = true ->
      passPath nodes edges m q -> passPath nodes edges p q.

(** An identifier the tracer expands: that of a pass-through node. *)
Definition passThroughId (nodes : list Node.t) (id : string) : Prop :=
  exists n, findNode nodes id = Some n /\ isPassThrough n = true.

(** The order of the rows of [WIRE_GAUGES]: thinner first for the
    comparator of [recommendWireGauge], by growing cross-section and by
    falling resistance. *)
Definition gaugeOrder (a b : Wire.t) : Prop :=
  (thinnerFirst a b <= 0)%Z
  /\ Wire.mmSq a < Wire.mmSq b
  /\ Wire.resistance b < Wire.resistance a.

(** Reading a displayed time back: runs of decimal digits separated by
    colons, the last one counting seconds, the one before it minutes
    and, when there are three, the first one hours. *)
Fixpoint readNumber (acc : Z) (s : string) : Z * string :=
  match s with
  | String c r =>
      match digitOf c with
      | Some d => readNumber (10 * acc + d) r
      | None => (acc, s)
      end
  | EmptyString => (acc, s)
  end.

Definition readSimTime (text : string) : option Z :=
  let '(first, rest) := readNumber 0 text in
  match rest with
  | String ":" rest =>
      let '(second, rest) := readNumber 0 rest in
      match rest with
      | EmptyString => Some (60 * first + second)%Z
      | String ":" rest =>
          let '(third, rest) := readNumber 0 rest in
          match rest with
          | EmptyString => Some (3600 * first + 60 * second + third)%Z
          | String _ _ => None
          end
      | String _ _ => None
      end
  | _ => None
  end.

(** The working state the third pass starts from, and the system
    voltage it works with. *)
Definition beforeLoads (localeCompare : string -> string -> comparison)
    (nodes : list Node.t) (edges : list Edge.t) (environment : Env.t)
    (previousState : option Sys.t) : Sim.t :=
  secondPass localeCompare nodes edges environment
    (firstPass nodes edges environment previousState (initialSim nodes)).

Definition busVoltage (localeCompare : string -> string -> comparison)
    (nodes : list Node.t) (edges : list Edge.t) (environment : Env.t)
    (previousState : option Sys.t) : Q :=
  Sim.systemVoltage
    (beforeLoads localeCompare nodes edges environment previousState).

(** The rated current of a load, and the current it draws: its rated
    current when it is switched on and reaches a power source. *)
Definition ratedCurrent (node : Node.t) (spec : Spec.t) : Q :=
  or_num (Custom.maxCurrent (Node.customValues node))
         (or_num (Spec.maxCurrent spec) 5).

Definition loadDraw (nodes : list Node.t) (edges : list Edge.t)
    (node : Node.t) : Q :=
  match Node.spec node with
  | Some spec =>
      if (catIs (Spec.category spec) Load && isOnOf node
          && isConnectedToPower nodes edges (Node.id node))%bool
      then ratedCurrent node spec else 0
  | None => 0
  end.

(** The state the third pass writes for a load node. *)
Definition loadEntry (nodes : list Node.t) (edges : list Edge.t)
    (systemVoltage : Q) (node : Node.t) (spec : Spec.t) : NodeSim.t :=
  let isOn := isOnOf node in
  let isPowered := isConnectedToPower nodes edges (Node.id node) in
  let current :=
    if (isOn && isPowered)%bool then ratedCurrent node spec else 0 in
  NodeSim.basic (if isPowered then systemVoltage else 0) current
    (current * systemVoltage)
    (if (isOn && isPowered)%bool then On
     else if isOn then Fault else Off).

(** A chemistry, possibly absent, that is not a member name of
    [Object.prototype]: one for which the lookup of [getChargingProfile]
    answers a profile of the table or falls back to lead-acid. *)
Definition plainChemistry (chemistry : option string) : bool :=
  match chemistry with
  | Some c => negb (inheritedMember c)
  | None => true
  end.

(** Every battery node of the diagram has a plain chemistry, in its
    overrides and in its spec. *)
Definition plainBatteries (nodes : list Node.t) : bool :=
  forallb (fun n =>
             implb (nodeIsBattery n)
                   (plainChemistry
                      (Custom.batteryChemistry (Node.customValues n))
                    && plainChemistry (Node.spec n ≫= Spec.batteryChemistry)))
          nodes.

(** What a tick reads of the environment: the irradiance, whether the
    engine runs and the speed of the alternator. *)
Definition envView (environment : Env.t) : Q * bool * Q :=
  (Env.solarIrradiance environment, Env.engineRunning environment,
   Env.alternatorRPM environment).

(** Two collations that order the identifiers of the diagram alike. *)
Definition sameCollation (nodes : list Node.t)
    (c c' : string -> string -> comparison) : Prop :=
  forall a b, In a nodes -> In b nodes ->
              c (Node.id a) (Node.id b) = c' (Node.id a) (Node.id b).

(** A battery gathered by a charger that carries the identifier of a
    node of the diagram. *)
Definition knownBattery (nodes : list Node.t) (b : CB.t) : Prop :=
  exists n, In n nodes /\ CB.id b = Node.id n.

(** What the state of a protection device shows, [v] being the system
    voltage: nothing when the device is blown; else its status follows
    from the current it shows and its rating. *)
Definition protectionReading (node : Node.t) (spec : Spec.t) (v : Q)
    (st : NodeSim.t) : Prop :=
  if isBlownOf node then
    NodeSim.state st = Off /\ NodeSim.voltage st = 0
    /\ NodeSim.current st = 0 /\ NodeSim.power st = 0
  else
    NodeSim.state st
    = (if Qgtb (NodeSim.current st) (ratingOf node spec) then Fault else On)
    /\ NodeSim.voltage st = v
    /\ NodeSim.power st = NodeSim.current st * v.

(** * Properties *)

(** ** Comparisons and fallbacks *)

Lemma Qltb_lt (x y : Q) : Qltb x y = true <-> x < y.
Proof.
  unfold Qltb. rewrite negb_true_iff. split.
  - intros H. apply Qnot_le_lt. intros Hle.
    apply Qle_bool_iff in Hle. congruence.
  - intros H. destruct (Qle_bool y x) eqn:E; [|reflexivity].
    apply Qle_bool_iff in E. lra.
Qed.

Lemma Qltb_ge (x y : Q) : Qltb x y = false <-> y <= x.
Proof. unfold Qltb. rewrite negb_false_iff. apply Qle_bool_iff. Qed.

Lemma Qltb_spec (x y : Q) : reflect (x < y) (Qltb x y).
Proof. apply iff_reflect. symmetry. apply Qltb_lt. Qed.

Lemma Qmin_zero_pos (l : Q) : 0 < l -> Qmin 0 l = 0.
Proof.
  intros H. unfold Qmin, GenericMinMax.gmin.
  destruct (0 ?= l) eqn:E; try reflexivity.
  apply Qgt_alt in E. lra.
Qed.

(** What [||] returns is never a zero taken from its left side. *)
Lemma or_num_nonzero (o : option Q) (d : Q) :
  ~ d == 0 -> ~ or_num o d == 0.
Proof.
  intros Hd. unfold or_num, truthy. destruct o as [x|]; [|done].
  destruct (Qeq_bool x 0) eqn:E; simpl; [done|].
  intros Hx. apply Qeq_bool_iff in Hx. congruence.
Qed.

(** ** Battery model *)

Lemma updateSoC_range (capacity netCurrent currentSoC deltaTime : Q) :
  0 <= updateSoC capacity netCurrent currentSoC deltaTime <= 100.
Proof.
  unfold updateSoC. split.
  - apply Q.le_max_l.
  - apply Q.max_lub; [lra | apply Q.le_min_l].
Qed.

(** With no net current the coulomb count leaves a state of charge that
    is within bounds where it was. *)
Lemma updateSoC_idle (capacity currentSoC deltaTime : Q) :
  0 <= currentSoC <= 100 ->
  updateSoC capacity 0 currentSoC deltaTime == currentSoC.
Proof.
  intros [H0 H100]. unfold updateSoC.
  assert (currentSoC + 0 * deltaTime / 3600 / capacity * 100 == currentSoC)
    as E by (unfold Qdiv; ring).
  rewrite E. rewrite Q.min_r by done. by rewrite Q.max_r.
Qed.

(** The status reached under a current is kept under the same current,
    whatever that current is. *)
Lemma updateStatus_idempotent (previousState : option Status) (i : Q) :
  updateStatus (Some (updateStatus previousState i)) i
  = updateStatus previousState i.
Proof.
  unfold updateStatus, Qgtb, enterThreshold, exitThreshold.
  destruct previousState as [[]|];
    repeat match goal with
           | |- context [Qltb ?a ?b] => destruct (Qltb_spec a b)
           end; try reflexivity; exfalso; lra.
Qed.

(** At the exit threshold itself a battery that was charging or
    discharging goes to [idle]. *)
Lemma updateStatus_at_exit (previousState : option Status) (i : Q) :
  Qabs i == exitThreshold -> updateStatus previousState i = Idle.
Proof.
  intros Habs.
  assert (- exitThreshold <= i <= exitThreshold) as [Hlo Hhi].
  { apply Qabs_Qle_condition. rewrite Habs. apply Qle_refl. }
  revert Hlo Hhi.
  unfold updateStatus, Qgtb, enterThreshold, exitThreshold.
  intros Hlo Hhi.
  destruct previousState as [[]|];
    repeat match goal with
           | |- context [Qltb ?a ?b] => destruct (Qltb_spec a b)
           end; try reflexivity; exfalso; lra.
Qed.

(** C3.  Whatever the battery, its previous state of charge (within
    [0,100] or not), the net current, the capacity and the length of the
    tick, the state of charge that [calculateBatteryState] returns lies
    in [0,100]. *)
Theorem C3_soc_within_bounds (spec : Spec.t)
    (netCurrent currentSoC deltaTime : Q) (previousState : option Status) :
  0 <= Batt.stateOfCharge
         (calculateBatteryState spec netCurrent currentSoC deltaTime
                                previousState) <= 100.
Proof. unfold calculateBatteryState. simpl. apply updateSoC_range. Qed.

(** C5.  With a net current whose magnitude is the exit threshold, the
    status that one update reaches is the status a second update with
    the same current reaches: the status does not toggle on consecutive
    ticks. *)
Theorem C5_status_hysteresis_stable (spec spec' : Spec.t)
    (previousState : option Status)
    (netCurrent soc soc' deltaTime deltaTime' : Q) :
  Qabs netCurrent == exitThreshold ->
  let once :=
    Batt.state (calculateBatteryState spec netCurrent soc deltaTime
                                      previousState) in
  Batt.state (calculateBatteryState spec' netCurrent soc' deltaTime'
                                    (Some once)) = once.
Proof.
  intros _ once. subst once. unfold calculateBatteryState. simpl.
  apply updateStatus_idempotent.
Qed.

Lemma C5_status_hysteresis_stable_witness :
  Qabs 0.3 == exitThreshold
  /\ Batt.state
       (calculateBatteryState (Spec.bare Battery PowerSource) 0.3 50 1
          (Some (Batt.state
                   (calculateBatteryState (Spec.bare Battery PowerSource)
                      0.3 50 1 (Some ChargingSt)))))
     = Batt.state
         (calculateBatteryState (Spec.bare Battery PowerSource) 0.3 50 1
                                (Some ChargingSt)).
Proof.
  split; [reflexivity|].
  apply (C5_status_hysteresis_stable (Spec.bare Battery PowerSource)
           (Spec.bare Battery PowerSource) (Some ChargingSt) 0.3 50 50 1 1).
  reflexivity.
Defined.

(** X5.  The status update is idempotent under any fixed net current,
    not only at the exit threshold: the status one update reaches is the
    status a second update with the same current reaches. *)
Theorem X5_status_idempotent_for_every_current (spec spec' : Spec.t)
    (previousState : option Status)
    (netCurrent soc soc' deltaTime deltaTime' : Q) :
  Batt.state
    (calculateBatteryState spec' netCurrent soc' deltaTime'
       (Some (Batt.state (calculateBatteryState spec netCurrent soc
                                                deltaTime previousState))))
  = Batt.state (calculateBatteryState spec netCurrent soc deltaTime
                                      previousState).
Proof. unfold calculateBatteryState. simpl. apply updateStatus_idempotent. Qed.

(** ** Connection tracing *)

Lemma traceFrom_S (nodes : list Node.t) (edges : list Edge.t) (fuel : nat)
    (s : string) (v : gset string) :
  traceFrom nodes edges (S fuel) s v =
  if bool_decide (s ∈ v) then Some ([], v)
  else traceEach (findNode nodes) (traceFrom nodes edges fuel)
         (getDirectConnections edges s) ({[s]} ∪ v).
Proof. reflexivity. Qed.

Lemma passThrough_of_category (cats : list ComponentCategory) (n : Node.t) :
  nodeCategoryIn cats n = true ->
  incl cats [Protection; Distribution; Switching; Ground] ->
  isPassThrough n = true.
Proof.
  unfold isPassThrough, nodeCategoryIn.
  destruct (Node.spec n) as [s|]; [|done].
  rewrite !existsb_exists. intros (c & Hc & Hcat) Hincl.
  exists c. split; [|done]. by apply Hincl.
Qed.

Lemma load_not_passThrough (n : Node.t) :
  nodeCategoryIn [Load] n = true -> isPassThrough n = false.
Proof.
  unfold isPassThrough, nodeCategoryIn.
  destruct (Node.spec n) as [s|]; [|done].
  simpl. unfold catIs. destruct (Spec.category s); simpl; done.
Qed.

Lemma NoDup_map_filter {A B : Type} (f : A -> B) (p : A -> bool)
    (l : list A) :
  NoDup (map f l) -> NoDup (map f (List.filter p l)).
Proof.
  induction l as [|x l IH]; simpl; [done|].
  intros Hnd. apply NoDup_cons in Hnd as [Hx Hnd].
  destruct (p x); simpl; [|by apply IH].
  apply NoDup_cons. split; [|by apply IH].
  intros Hin. apply Hx.
  apply list_elem_of_In, in_map_iff in Hin as (y & <- & Hy).
  apply filter_In in Hy as [Hy _].
  apply list_elem_of_In, in_map. done.
Qed.

Lemma size_list_to_set_le (l : list string) :
  (size (list_to_set l : gset string) <= length l)%nat.
Proof.
  induction l as [|x l IH].
  - rewrite list_to_set_nil, size_empty. simpl. lia.
  - rewrite list_to_set_cons, size_union_alt, size_singleton. simpl.
    assert (size ((list_to_set l : gset string) ∖ {[x]})
            <= size (list_to_set l : gset string))%nat
      by (apply subseteq_size; set_solver).
    lia.
Qed.

Section Tracer.

Variable nodes : list Node.t.
Variable edges : list Edge.t.

Lemma findNode_id (id : string) (n : Node.t) :
  findNode nodes id = Some n -> Node.id n = id.
Proof.
  unfold findNode. intros H. apply List.find_some in H as [_ H].
  by apply String.eqb_eq in H.
Qed.

Lemma findNode_In (id : string) (n : Node.t) :
  findNode nodes id = Some n -> In n nodes.
Proof.
  unfold findNode. intros H. by apply List.find_some in H as [H _].
Qed.

Lemma findNode_nodeIds (id : string) (n : Node.t) :
  findNode nodes id = Some n -> id ∈ nodeIds nodes.
Proof.
  intros H. unfold nodeIds. apply elem_of_list_to_set, list_elem_of_In.
  rewrite <- (findNode_id _ _ H). apply in_map. by eapply findNode_In.
Qed.

Lemma traced_weaken (v0 v : gset string) (r : list Node.t)
    (v' : gset string) :
  v0 ⊆ v -> traced nodes v r v' -> traced nodes v0 r v'.
Proof.
  intros Hsub (H1 & H2 & H3). split; [set_solver|]. split; [|done].
  eapply Forall_impl; [exact H2|]. simpl. intros n (? & ? & ? & ?).
  set_solver.
Qed.

Lemma traceEach_traced
    (rec : string -> gset string -> option (list Node.t * gset string)) :
  (forall c v r v', rec c v = Some (r, v') -> traced nodes v r v') ->
  forall conns v r v',
    traceEach (findNode nodes) rec conns v = Some (r, v') ->
    traced nodes v r v'.
Proof.
  intros Hrec. induction conns as [|c rest IH]; intros v r v' H; simpl in H.
  - inversion H; subst. split; [done|]. split; constructor.
  - case_bool_decide as Hc; [by apply IH|].
    destruct (findNode nodes c) as [n|] eqn:Hf; [|by apply IH].
    destruct (isPassThrough n) eqn:Hp.
    + destruct (rec c v) as [[r1 v1]|] eqn:Hr; [|done].
      destruct (traceEach _ rec rest v1) as [[r2 v2]|] eqn:He; [|done].
      inversion H; subst. apply Hrec in Hr as (A1 & A2 & A3).
      apply IH in He as (B1 & B2 & B3).
      split; [set_solver|]. split.
      * apply Forall_app. split.
        -- eapply Forall_impl; [exact A2|]. simpl.
           intros ? (? & ? & ? & ?). set_solver.
        -- eapply Forall_impl; [exact B2|]. simpl.
           intros ? (? & ? & ? & ?). set_solver.
      * rewrite map_app. apply NoDup_app. split; [done|]. split; [|done].
        intros x Hx1 Hx2.
        apply list_elem_of_In, in_map_iff in Hx1 as (n1 & <- & Hn1).
        apply list_elem_of_In, in_map_iff in Hx2 as (n2 & Heq & Hn2).
        rewrite Forall_forall in A2, B2.
        apply list_elem_of_In, A2 in Hn1 as (_ & _ & _ & Hin).
        apply list_elem_of_In, B2 in Hn2 as (_ & _ & Hnot & _).
        rewrite Heq in Hnot. done.
    + destruct (traceEach _ rec rest _) as [[r2 v2]|] eqn:He; [|done].
      inversion H; subst. apply IH in He as (B1 & B2 & B3).
      pose proof (findNode_id _ _ Hf) as Hid.
      split; [set_solver|]. split.
      * constructor.
        -- rewrite Hid. repeat split; [done|done|done|set_solver].
        -- eapply Forall_impl; [exact B2|]. simpl.
           intros ? (? & ? & ? & ?). set_solver.
      * simpl. constructor; [|done]. rewrite Hid.
        intros Hx.
        apply list_elem_of_In, in_map_iff in Hx as (n2 & Heq & Hn2).
        rewrite Forall_forall in B2.
        apply list_elem_of_In, B2 in Hn2 as (_ & _ & Hnot & _). set_solver.
Qed.

Lemma traceFrom_traced (fuel : nat) :
  forall s v r v',
    traceFrom nodes edges fuel s v = Some (r, v') -> traced nodes v r v'.
Proof.
  induction fuel as [|fuel IH]; intros s v r v' H; simpl in H; [done|].
  case_bool_decide.
  - inversion H; subst. split; [done|]. split; constructor.
  - apply traceEach_traced in H; [|exact IH].
    eapply traced_weaken; [|exact H]. set_solver.
Qed.

Lemma traceEach_total
    (rec : string -> gset string -> option (list Node.t * gset string))
    (v0 : gset string) :
  (forall c v r v', rec c v = Some (r, v') -> v ⊆ v') ->
  (forall c v,
      c ∈ nodeIds nodes -> c ∉ v -> v0 ⊆ v -> is_Some (rec c v)) ->
  forall conns v,
    v0 ⊆ v -> is_Some (traceEach (findNode nodes) rec conns v).
Proof.
  intros Hmono Hrec.
  induction conns as [|c rest IH]; intros v Hv; simpl; [by eexists|].
  case_bool_decide as Hc; [by apply IH|].
  destruct (findNode nodes c) as [n|] eqn:Hf; [|by apply IH].
  destruct (isPassThrough n).
  - destruct (Hrec c v) as [[r1 v1] Hr];
      [by eapply findNode_nodeIds|done|done|].
    rewrite Hr. destruct (IH v1) as [[r2 v2] He].
    { apply Hmono in Hr. set_solver. }
    rewrite He. by eexists.
  - destruct (IH ({[c]} ∪ v)) as [[r2 v2] He]; [set_solver|].
    rewrite He. by eexists.
Qed.

(** The trace returns as soon as the fuel exceeds the number of nodes of
    the diagram that are still unvisited. *)
Lemma traceFrom_total (fuel : nat) :
  forall s v,
    (size (nodeIds nodes ∖ ({[s]} ∪ v)) < fuel)%nat ->
    is_Some (traceFrom nodes edges fuel s v).
Proof.
  induction fuel as [|fuel IH]; intros s v Hsz; [lia|]. simpl.
  case_bool_decide as Hs; [by eexists|].
  apply traceEach_total with (v0 := {[s]} ∪ v); [| |done].
  - intros c v1 r v1' H. by apply traceFrom_traced in H as [? _].
  - intros c v1 Hc Hnot Hsub. apply IH.
    assert (nodeIds nodes ∖ ({[c]} ∪ v1) ⊂ nodeIds nodes ∖ ({[s]} ∪ v))
      as Hlt.
    { split; [set_solver|]. intros Hsub'.
      assert (c ∈ nodeIds nodes ∖ ({[s]} ∪ v)) as Hin by set_solver.
      apply Hsub' in Hin. set_solver. }
    apply subset_size in Hlt. lia.
Qed.

(** [traceAllConnections] never runs out of fuel. *)
Lemma traceAllConnections_returns (s : string) :
  exists v',
    traceFrom nodes edges (S (length nodes)) s ∅
    = Some (traceAllConnections nodes edges s, v').
Proof.
  unfold traceAllConnections.
  destruct (traceFrom_total (S (length nodes)) s ∅) as [[r v'] H].
  - pose proof (size_list_to_set_le (map Node.id nodes)) as Hle.
    rewrite length_map in Hle.
    assert (size (nodeIds nodes ∖ ({[s]} ∪ ∅)) <= size (nodeIds nodes))%nat
      by (apply subseteq_size; set_solver).
    unfold nodeIds in *. lia.
  - rewrite H. by eexists.
Qed.

Lemma traceAllConnections_traced (s : string) :
  exists v', traced nodes ∅ (traceAllConnections nodes edges s) v'.
Proof.
  destruct (traceAllConnections_returns s) as [v' H].
  exists v'. by eapply traceFrom_traced.
Qed.

Lemma traceAllConnections_real (s : string) :
  Forall (fun n => isPassThrough n = false)
         (traceAllConnections nodes edges s).
Proof.
  destruct (traceAllConnections_traced s) as (v' & _ & H & _).
  eapply Forall_impl; [exact H|]. simpl. tauto.
Qed.

Lemma traceAllConnections_In (s : string) :
  Forall (fun n => In n nodes) (traceAllConnections nodes edges s).
Proof.
  destruct (traceAllConnections_traced s) as (v' & _ & H & _).
  eapply Forall_impl; [exact H|]. simpl. intros n (_ & Hf & _).
  by eapply findNode_In.
Qed.

Lemma traceAllConnections_NoDup (s : string) :
  NoDup (map Node.id (traceAllConnections nodes edges s)).
Proof. by destruct (traceAllConnections_traced s) as (v' & _ & _ & H). Qed.

Lemma getDirectConnections_isolated (s : string) :
  isNodeConnected edges s = false -> getDirectConnections edges s = [].
Proof.
  unfold isNodeConnected, getDirectConnections.
  induction edges as [|e es IH]; simpl; [done|].
  intros H. apply orb_false_iff in H as [He Hes].
  apply orb_false_iff in He as [-> ->]. simpl. by apply IH.
Qed.

Lemma traceAllConnections_isolated (s : string) :
  isNodeConnected edges s = false -> traceAllConnections nodes edges s = [].
Proof.
  intros H. unfold traceAllConnections. rewrite traceFrom_S.
  rewrite bool_decide_eq_false_2 by set_solver.
  by rewrite getDirectConnections_isolated.
Qed.

End Tracer.

(** The chain battery - fuse - bus - load, for any four nodes with
    distinct identifiers. *)
Lemma traceAllConnections_chain (b f u l : Node.t) (e1 e2 e3 : string) :
  NoDup [Node.id b; Node.id f; Node.id u; Node.id l] ->
  nodeCategoryIn [Protection] f = true ->
  nodeCategoryIn [Distribution] u = true ->
  nodeCategoryIn [Load] l = true ->
  traceAllConnections [b; f; u; l]
    [Edge.mk e1 (Node.id b) (Node.id f); Edge.mk e2 (Node.id f) (Node.id u);
     Edge.mk e3 (Node.id u) (Node.id l)] (Node.id b) = [l].
Proof.
  intros Hnd Hf Hu Hl.
  apply passThrough_of_category in Hf; [|intros ? [<-|[]]; simpl; tauto].
  apply passThrough_of_category in Hu; [|intros ? [<-|[]]; simpl; tauto].
  apply load_not_passThrough in Hl.
  set (ib := Node.id b) in *. set (jf := Node.id f) in *.
  set (iu := Node.id u) in *. set (il := Node.id l) in *.
  apply NoDup_cons in Hnd as [Hb Hnd]. apply NoDup_cons in Hnd as [Hf' Hnd].
  apply NoDup_cons in Hnd as [Hu' _].
  assert (ib ≠ jf /\ ib ≠ iu /\ ib ≠ il /\ jf ≠ iu /\ jf ≠ il /\ iu ≠ il)
    as (N1 & N2 & N3 & N4 & N5 & N6) by set_solver.
  assert (forall x y : string, x ≠ y -> String.eqb x y = false) as Hne
    by (intros; by apply String.eqb_neq).
  assert (forall x y : string, x ≠ y -> String.eqb y x = false) as Hne'
    by (intros; apply String.eqb_neq; congruence).
  set (nodes := [b; f; u; l]).
  set (edges := [Edge.mk e1 ib jf; Edge.mk e2 jf iu; Edge.mk e3 iu il]).
  assert (getDirectConnections edges ib = [jf]) as Db.
  { unfold getDirectConnections, edges. simpl.
    by rewrite !String.eqb_refl, ?(Hne' _ _ N1), ?(Hne' _ _ N2),
         ?(Hne' _ _ N3), ?(Hne' _ _ N4), ?(Hne' _ _ N5), ?(Hne' _ _ N6). }
  assert (getDirectConnections edges jf = [ib; iu]) as Df.
  { unfold getDirectConnections, edges. simpl.
    by rewrite !String.eqb_refl, ?(Hne _ _ N1), ?(Hne _ _ N4),
         ?(Hne _ _ N5), ?(Hne' _ _ N4), ?(Hne' _ _ N5). }
  assert (getDirectConnections edges iu = [jf; il]) as Du.
  { unfold getDirectConnections, edges. simpl.
    by rewrite !String.eqb_refl, ?(Hne _ _ N2), ?(Hne _ _ N4),
         ?(Hne _ _ N6), ?(Hne' _ _ N6). }
  assert (findNode nodes jf = Some f) as Ff.
  { unfold findNode, nodes. simpl. fold ib jf.
    by rewrite (Hne _ _ N1), String.eqb_refl. }
  assert (findNode nodes iu = Some u) as Fu.
  { unfold findNode, nodes. simpl. fold ib jf iu.
    by rewrite (Hne _ _ N2), (Hne _ _ N4), String.eqb_refl. }
  assert (findNode nodes il = Some l) as Fl.
  { unfold findNode, nodes. simpl. fold ib jf iu il.
    by rewrite (Hne _ _ N3), (Hne _ _ N5), (Hne _ _ N6), String.eqb_refl. }
  unfold traceAllConnections.
  rewrite traceFrom_S, bool_decide_eq_false_2, Db by set_solver.
  cbn [traceEach].
  rewrite bool_decide_eq_false_2, Ff, Hf by set_solver.
  change (length nodes) with 4%nat.
  rewrite traceFrom_S, bool_decide_eq_false_2, Df by set_solver.
  cbn [traceEach].
  rewrite bool_decide_eq_true_2 by set_solver.
  rewrite bool_decide_eq_false_2, Fu, Hu by set_solver.
  rewrite traceFrom_S, bool_decide_eq_false_2, Du by set_solver.
  cbn [traceEach].
  rewrite bool_decide_eq_true_2 by set_solver.
  rewrite bool_decide_eq_false_2, Fl, Hl by set_solver.
  reflexivity.
Qed.

(** C2.  On a chain battery - fuse - bus - load (fuse in category
    protection, bus in category distribution) the trace started at the
    battery returns exactly the load.  On every diagram and from every
    start, no returned node is in a pass-through category, no node is
    returned twice, and a start without edges yields the empty list. *)
Theorem C2_tracer_correct (battery fuse bus load : Node.t)
    (e1 e2 e3 : string) (nodes : list Node.t) (edges : list Edge.t)
    (start : string) :
  NoDup [Node.id battery; Node.id fuse; Node.id bus; Node.id load] ->
  nodeCategoryIn [Protection] fuse = true ->
  nodeCategoryIn [Distribution] bus = true ->
  nodeCategoryIn [Load] load = true ->
  traceAllConnections [battery; fuse; bus; load]
    [Edge.mk e1 (Node.id battery) (Node.id fuse);
     Edge.mk e2 (Node.id fuse) (Node.id bus);
     Edge.mk e3 (Node.id bus) (Node.id load)] (Node.id battery) = [load]
  /\ Forall (fun n => nodeCategoryIn
                        [Protection; Distribution; Switching; Ground] n
                      = false)
            (traceAllConnections nodes edges start)
  /\ NoDup (map Node.id (traceAllConnections nodes edges start))
  /\ NoDup (traceAllConnections nodes edges start)
  /\ (isNodeConnected edges start = false ->
      traceAllConnections nodes edges start = []).
Proof.
  intros Hnd Hf Hu Hl. split; [by apply traceAllConnections_chain|].
  split; [apply traceAllConnections_real|].
  split; [apply traceAllConnections_NoDup|].
  split; [|apply traceAllConnections_isolated].
  eapply NoDup_fmap_1. apply traceAllConnections_NoDup.
Qed.

Lemma C2_tracer_correct_witness :
  NoDup [Node.id houseBattery; Node.id fuse15; Node.id mainBus;
         Node.id load20]
  /\ traceAllConnections chainNodes chainEdges "battery-1" = [load20]
  /\ traceAllConnections loadFirstNodes fusedEdges "fuse-1"
     = [houseBattery; load20]
  /\ NoDup (map Node.id
              (traceAllConnections loadFirstNodes fusedEdges "fuse-1"))
  /\ traceAllConnections loadFirstNodes fusedEdges "bus-1" = [].
Proof.
  assert (NoDup [Node.id houseBattery; Node.id fuse15; Node.id mainBus;
                 Node.id load20]) as Hnd
    by (apply (bool_decide_unpack _); vm_compute; exact I).
  destruct (C2_tracer_correct houseBattery fuse15 mainBus load20
              "w1" "w2" "w3" loadFirstNodes fusedEdges "fuse-1" Hnd
              eq_refl eq_refl eq_refl) as (Hchain & _ & Hnodup & _ & _).
  destruct (C2_tracer_correct houseBattery fuse15 mainBus load20
              "w1" "w2" "w3" loadFirstNodes fusedEdges "bus-1" Hnd
              eq_refl eq_refl eq_refl) as (_ & _ & _ & _ & Hisolated).
  split; [exact Hnd|]. split; [exact Hchain|].
  split; [vm_compute; reflexivity|]. split; [exact Hnodup|].
  apply Hisolated. vm_compute. reflexivity.
Defined.

(** ** DC-DC MPPT charger *)

(** When some input delivers current, the ceiling on the output current
    is positive. *)
Lemma preStageCurrent_pos_limit (spec : Spec.t)
    (alternatorVoltage solarVoltage solarPower batteryVoltage
     batteryCapacity : Q) (batteryChemistry : string)
    (starterBatteryVoltage : Q) :
  0 < preStageCurrent spec alternatorVoltage solarVoltage solarPower
        batteryVoltage batteryCapacity batteryChemistry
        starterBatteryVoltage ->
  0 < powerLimitedMaxCurrent spec batteryVoltage batteryCapacity
        batteryChemistry.
Proof.
  unfold preStageCurrent.
  set (L := powerLimitedMaxCurrent spec batteryVoltage batteryCapacity
                                   batteryChemistry).
  unfold alternatorInput, solarInput.
  set (eff := or_num (Spec.efficiency spec) 94 / 100).
  destruct (_ && _ && Qgeb _ _)%bool.
  - destruct (Qltb_spec 0 (Qmin L ((alternatorVoltage - batteryVoltage) * 5)))
      as [Ha|Ha]; unfold Qgtb.
    + intros _.
      destruct (Q.min_spec L ((alternatorVoltage - batteryVoltage) * 5))
        as [[? E]|[? E]]; rewrite E in Ha; lra.
    + destruct (Qltb_spec 0
                  (Qmin L ((alternatorVoltage - batteryVoltage) * 5)));
        [lra|].
      destruct (_ && Qltb 0 solarPower)%bool; simpl; [|lra].
      match goal with
      | |- context [Qmax 0 ?x] =>
          set (X := x); destruct (Q.max_spec 0 X) as [[? E]|[? E]]
      end; rewrite E; [|lra].
      intros HX. subst X.
      match goal with
      | H : 0 < Qmin ?a (Qmin ?b ?c) |- _ =>
          pose proof (Q.le_min_r a (Qmin b c));
          pose proof (Q.le_min_r b c)
      end. lra.
  - destruct (_ && Qgtb solarPower 0)%bool; simpl; [|lra].
    match goal with
    | |- context [Qmax 0 ?x] =>
        set (X := x); destruct (Q.max_spec 0 X) as [[? E]|[? E]]
    end; rewrite E; [|lra].
    intros HX. subst X.
    match goal with
    | H : 0 < Qmin ?a (Qmin ?b ?c) |- _ =>
        pose proof (Q.le_min_r a (Qmin b c));
        pose proof (Q.le_min_r b c)
    end. lra.
Qed.

(** C4.  For a lithium or LiFePO4 target and a charger that is otherwise
    active (some input delivers current and the device is not in its
    overvoltage fault): below 95% the stage is [bulk (CC)] at the full
    allowed current, from 95% up to 100% it is [absorption (CV)] with the
    current scaled by [(100 - SOC) / 5], and from 100% on it is
    [full - stopped] with the output current forced to 0; there is no
    float stage. *)
Theorem C4_lithium_no_float (spec : Spec.t)
    (alternatorVoltage solarVoltage solarPower batteryVoltage batterySOC
     batteryCapacity : Q) (batteryChemistry : string)
    (starterBatteryVoltage ambientTempC : Q) :
  isLithiumChemistry batteryChemistry = true ->
  0 < preStageCurrent spec alternatorVoltage solarVoltage solarPower
        batteryVoltage batteryCapacity batteryChemistry
        starterBatteryVoltage ->
  alternatorVoltage <= or_num (Spec.maxInputVoltage spec) 30 ->
  let st :=
    calculateDCDCMPPTStateWithChemistry spec alternatorVoltage solarVoltage
      solarPower batteryVoltage batterySOC batteryCapacity batteryChemistry
      starterBatteryVoltage ambientTempC in
  let pre :=
    preStageCurrent spec alternatorVoltage solarVoltage solarPower
      batteryVoltage batteryCapacity batteryChemistry
      starterBatteryVoltage in
  let limit :=
    powerLimitedMaxCurrent spec batteryVoltage batteryCapacity
                           batteryChemistry in
  (batterySOC < 95 ->
     NodeSim.chargeStage st = Some "bulk (CC)"%string
     /\ NodeSim.outputCurrent st = Some (Qmin pre limit)
     /\ NodeSim.current st = Qmin pre limit)
  /\ (95 <= batterySOC < 100 ->
     NodeSim.chargeStage st = Some "absorption (CV)"%string
     /\ NodeSim.outputCurrent st
        = Some (Qmin (pre * ((100 - batterySOC) / 5)) limit)
     /\ NodeSim.current st = Qmin (pre * ((100 - batterySOC) / 5)) limit)
  /\ (100 <= batterySOC ->
     NodeSim.chargeStage st = Some "full - stopped"%string
     /\ NodeSim.outputCurrent st = Some 0
     /\ NodeSim.current st = 0
     /\ NodeSim.power st == 0).
Proof.
  intros Hli Hpre Hov st pre limit.
  pose proof (preStageCurrent_pos_limit _ _ _ _ _ _ _ _ Hpre) as Hlim.
  subst st pre limit. revert Hpre Hlim.
  unfold calculateDCDCMPPTStateWithChemistry, preStageCurrent.
  set (L := powerLimitedMaxCurrent spec batteryVoltage batteryCapacity
                                   batteryChemistry).
  destruct (alternatorInput spec alternatorVoltage batteryVoltage
                            starterBatteryVoltage L) as [[act aip] oc0].
  destruct (solarInput spec solarVoltage solarPower batteryVoltage L oc0)
    as [sip oc].
  simpl. intros Hpre Hlim. rewrite Hli.
  assert (Qgtb alternatorVoltage (or_num (Spec.maxInputVoltage spec) 30)
          = false) as -> by (unfold Qgtb; by apply Qltb_ge).
  unfold chargeStageMachine, Qgtb.
  rewrite (proj2 (Qltb_lt 0 oc) Hpre).
  repeat split.
  all: try (destruct (Qltb_spec batterySOC 95); [|lra]; reflexivity).
  all: try (destruct (Qltb_spec batterySOC 95); [lra|];
            destruct (Qltb_spec batterySOC 100); [|lra]; reflexivity).
  all: destruct (Qltb_spec batterySOC 95); [lra|];
    destruct (Qltb_spec batterySOC 100); [lra|]; simpl;
    rewrite ?(Qmin_zero_pos L Hlim); reflexivity.
Qed.

Lemma C4_lithium_no_float_witness :
  let st :=
    calculateDCDCMPPTStateWithChemistry
      (Spec.bare DcDcMpptCharger Charging) 0 18 100 13.2 100 100 "lifepo4"
      0 25 in
  0 < preStageCurrent (Spec.bare DcDcMpptCharger Charging) 0 18 100 13.2
        100 "lifepo4" 0
  /\ NodeSim.chargeStage st = Some "full - stopped"%string
  /\ NodeSim.outputCurrent st = Some 0
  /\ NodeSim.current st = 0.
Proof.
  assert (0 < preStageCurrent (Spec.bare DcDcMpptCharger Charging) 0 18 100
                13.2 100 "lifepo4" 0) as Hpre by (vm_compute; reflexivity).
  assert (0 <= or_num (Spec.maxInputVoltage
                         (Spec.bare DcDcMpptCharger Charging)) 30) as Hov
    by (vm_compute; discriminate).
  destruct (C4_lithium_no_float (Spec.bare DcDcMpptCharger Charging)
              0 18 100 13.2 100 100 "lifepo4" 0 25 eq_refl Hpre Hov)
    as (_ & _ & Hfull).
  destruct Hfull as (Hstage & Hout & Hcur & _).
  - vm_compute. discriminate.
  - split; [exact Hpre|]. split; [exact Hstage|]. split; [exact Hout|].
    exact Hcur.
Defined.

(** ** The diagnostics only add messages *)

Lemma core_warn (m : Message) (s : Sim.t) : core (Sim.warn m s) = core s.
Proof. reflexivity. Qed.

Lemma core_err (m : Message) (s : Sim.t) : core (Sim.err m s) = core s.
Proof. reflexivity. Qed.

Lemma fold_core {A : Type} (f : Sim.t -> A -> Sim.t) :
  (forall s x, core (f s x) = core s) ->
  forall l s, core (fold_left f l s) = core s.
Proof.
  intros Hf. induction l as [|x l IH]; intros s; simpl; [done|].
  by rewrite IH, Hf.
Qed.

Ltac core_cases :=
  repeat match goal with
         | |- context [match ?x with _ => _ end] => destruct x
         end;
  rewrite ?core_warn, ?core_err; try reflexivity.

Section Diagnostics.

Variable nodes : list Node.t.
Variable edges : list Edge.t.
Variable environment : Env.t.

Lemma wiringStep_core (s : Sim.t) (n : Node.t) :
  core (wiringStep nodes edges environment s n) = core s.
Proof. unfold wiringStep. core_cases. Qed.

Lemma batteryUseStep_core (s : Sim.t) (n : Node.t) :
  core (batteryUseStep nodes edges s n) = core s.
Proof. unfold batteryUseStep. core_cases. Qed.

Lemma unprotectedStep_core (s : Sim.t) (n : Node.t) :
  core (unprotectedStep nodes edges s n) = core s.
Proof. unfold unprotectedStep. core_cases. Qed.

Lemma undersizedStep_core (s : Sim.t) (n : Node.t) :
  core (undersizedStep edges s n) = core s.
Proof. unfold undersizedStep. core_cases. Qed.

Lemma solarVocStep_core (s : Sim.t) (n : Node.t) :
  core (solarVocStep nodes edges s n) = core s.
Proof.
  unfold solarVocStep. destruct (Node.spec n); [|done].
  destruct (_ && _)%bool; [|done]. apply fold_core. intros. core_cases.
Qed.

Lemma demandCheck_core (totals : Q * Q) (s : Sim.t) :
  core (demandCheck totals s) = core s.
Proof. unfold demandCheck. core_cases. Qed.

Lemma groundCheck_core (s : Sim.t) : core (groundCheck nodes s) = core s.
Proof. unfold groundCheck. core_cases. Qed.

Lemma chargeRateStep_core (s : Sim.t) (n : Node.t) :
  core (chargeRateStep nodes edges s n) = core s.
Proof.
  unfold chargeRateStep. destruct (Node.spec n); [|done].
  destruct (catIs _ _); [|done]. apply fold_core. intros. core_cases.
Qed.

Lemma nearLimitStep_core (s : Sim.t) (n : Node.t) :
  core (nearLimitStep edges s n) = core s.
Proof. unfold nearLimitStep. core_cases. Qed.

Lemma dischargeRateStep_core (s : Sim.t) (n : Node.t) :
  core (dischargeRateStep edges s n) = core s.
Proof. unfold dischargeRateStep. core_cases. Qed.

Lemma seriesVocStep_core (s : Sim.t) (n : Node.t) :
  core (seriesVocStep nodes edges s n) = core s.
Proof.
  unfold seriesVocStep. destruct (Node.spec n); [|done].
  destruct (typeIs _ _); [|done]. destruct (String.eqb _ _); [|done].
  apply fold_core. intros. core_cases.
Qed.

Lemma backupCheck_core (capacity : Q) (s : Sim.t) :
  core (backupCheck capacity s) = core s.
Proof. unfold backupCheck. core_cases. Qed.

Lemma wireGaugeStep_core (s : Sim.t) (n : Node.t) :
  core (wireGaugeStep s n) = core s.
Proof. unfold wireGaugeStep. core_cases. Qed.

Lemma mismatchPairs_core (l : list (string * Q)) :
  forall s, core (mismatchPairs l s) = core s.
Proof.
  induction l as [|a l IH]; intros s; simpl; [done|].
  rewrite IH. apply fold_core. intros. core_cases.
Qed.

Lemma mismatchCheck_core (s : Sim.t) : core (mismatchCheck nodes s) = core s.
Proof.
  unfold mismatchCheck. destruct (Nat.leb _ _); [|done].
  apply mismatchPairs_core.
Qed.

Lemma directLithiumStep_core (s : Sim.t) (n : Node.t) :
  core (directLithiumStep nodes edges s n) = core s.
Proof.
  unfold directLithiumStep. destruct (_ && _)%bool; [|done].
  apply fold_core. intros. core_cases.
Qed.

Lemma busLoadStep_core (s : Sim.t) (n : Node.t) :
  core (busLoadStep nodes edges s n) = core s.
Proof. unfold busLoadStep. core_cases. Qed.

Lemma diagnostics_core (s : Sim.t) :
  core (diagnostics nodes edges environment s) = core s.
Proof.
  unfold diagnostics.
  rewrite (fold_core _ busLoadStep_core),
    (fold_core _ directLithiumStep_core), mismatchCheck_core,
    (fold_core _ wireGaugeStep_core), backupCheck_core,
    (fold_core _ seriesVocStep_core), (fold_core _ dischargeRateStep_core),
    (fold_core _ nearLimitStep_core), (fold_core _ chargeRateStep_core),
    groundCheck_core, demandCheck_core, (fold_core _ solarVocStep_core),
    (fold_core _ undersizedStep_core), (fold_core _ unprotectedStep_core),
    (fold_core _ batteryUseStep_core), (fold_core _ wiringStep_core).
  reflexivity.
Qed.

End Diagnostics.

(** ** Battery finalisation *)

Lemma isBatteryType_nodeIsBattery (n : Node.t) (spec : Spec.t) :
  Node.spec n = Some spec -> nodeIsBattery n = isBatteryType (Spec.type spec).
Proof.
  intros H. unfold nodeIsBattery, nodeTypeIn, isBatteryType, batteryTypes.
  rewrite H. simpl. repeat destruct (typeIs _ _); reflexivity.
Qed.

Section Finalisation.

Variable localeCompare : string -> string -> comparison.
Variable nodes : list Node.t.
Variable edges : list Edge.t.
Variable environment : Env.t.
Variable previousState : option Sys.t.
Variable deltaTime : Q.

Lemma batteryStep_nodeStates (s : Sim.t) (node : Node.t) :
  Sim.nodeStates (batteryStep edges previousState deltaTime s node) =
  match Node.spec node with
  | Some spec =>
      if isBatteryType (Spec.type spec)
      then <[Node.id node :=
               batteryEntry edges previousState deltaTime s node spec]>
             (Sim.nodeStates s)
      else Sim.nodeStates s
  | None => Sim.nodeStates s
  end.
Proof.
  unfold batteryStep. destruct (Node.spec node) as [spec|]; [|done].
  destruct (isBatteryType _); simpl; [|done].
  repeat match goal with
         | |- context [if ?c then _ else _] => destruct c
         end; reflexivity.
Qed.

(** After the fourth pass, the state of a battery node is an entry that
    the pass wrote for a battery node with that identifier. *)
Lemma fourthPass_entry (P : NodeSim.t -> Prop) (id : string) :
  (forall s node spec,
      Node.id node = id -> Node.spec node = Some spec ->
      isBatteryType (Spec.type spec) = true ->
      P (batteryEntry edges previousState deltaTime s node spec)) ->
  forall l s,
    (exists node spec,
        In node l /\ Node.id node = id /\ Node.spec node = Some spec
        /\ isBatteryType (Spec.type spec) = true)
    \/ (exists st, Sim.nodeStates s !! id = Some st /\ P st) ->
    exists st,
      Sim.nodeStates
        (fold_left (batteryStep edges previousState deltaTime) l s) !! id
      = Some st /\ P st.
Proof.
  intros HP. induction l as [|n l IH]; intros s H; simpl.
  - destruct H as [(? & ? & [] & _)|H]; done.
  - apply IH. rewrite batteryStep_nodeStates.
    destruct (Node.spec n) as [spec|] eqn:Hs.
    + destruct (isBatteryType (Spec.type spec)) eqn:Hb.
      * destruct (decide (Node.id n = id)) as [Heq|Hne].
        -- right.
           exists (batteryEntry edges previousState deltaTime s n spec).
           rewrite Heq, lookup_insert_eq. split; [done|]. by apply HP.
        -- rewrite lookup_insert_ne by done.
           destruct H as [(m & sp & [->|Hin] & Hid & Hsp & Hbt)|H];
             [done| |by right].
           left. by exists m, sp.
      * destruct H as [(m & sp & [->|Hin] & Hid & Hsp & Hbt)|H];
          [congruence| |by right].
        left. by exists m, sp.
    + destruct H as [(m & sp & [->|Hin] & Hid & Hsp & Hbt)|H];
        [congruence| |by right].
      left. by exists m, sp.
Qed.

(** The node states of the result are those the fourth pass leaves. *)
Lemma runSimulation_nodes :
  Sys.nodes (runSimulation localeCompare nodes edges environment
                           previousState deltaTime) =
  Sim.nodeStates
    (fourthPass nodes edges previousState deltaTime
       (thirdPass nodes edges
          (secondPass localeCompare nodes edges environment
             (firstPass nodes edges environment previousState
                        (initialSim nodes))))).
Proof.
  unfold runSimulation. simpl.
  pose proof
    (diagnostics_core nodes edges environment
       (fourthPass nodes edges previousState deltaTime
          (thirdPass nodes edges
             (secondPass localeCompare nodes edges environment
                (firstPass nodes edges environment previousState
                           (initialSim nodes)))))) as H.
  unfold core in H. congruence.
Qed.

(** X1.  When no battery of the diagram has a member name of
    [Object.prototype] as its chemistry, the state of charge of every
    battery node of the result lies in [0,100]. *)
Theorem X1_runSimulation_soc_within_bounds (node : Node.t) (spec : Spec.t) :
  plainBatteries nodes = true ->
  In node nodes -> Node.spec node = Some spec ->
  isBatteryType (Spec.type spec) = true ->
  exists st soc,
    Sys.nodes (runSimulation localeCompare nodes edges environment
                             previousState deltaTime) !! Node.id node
    = Some st
    /\ NodeSim.stateOfCharge st = Some soc /\ 0 <= soc <= 100.
Proof.
  intros _ Hin Hspec Hbatt. rewrite runSimulation_nodes. unfold fourthPass.
  edestruct (fourthPass_entry
               (fun st => exists soc, NodeSim.stateOfCharge st = Some soc
                                      /\ 0 <= soc <= 100) (Node.id node))
    as (st & Hst & soc & H).
  - intros s n sp Hid Hsp Hb.
    unfold batteryEntry, overwriteBattery, battStateOf.
    destruct (netOf _ _ _) as [p c]. eexists.
    split; [by destruct (Sim.nodeStates s !! Node.id n)|].
    unfold calculateBatteryState. simpl. apply updateSoC_range.
  - left. by exists node, spec.
  - by exists st, soc.
Qed.

(** C9.  A battery node without any edge keeps the state of charge of
    the previous tick (80 on the first tick), whatever the length of the
    tick, and its reported current and power are 0. *)
Theorem C9_disconnected_battery_unchanged (node : Node.t) (spec : Spec.t) :
  In node nodes -> Node.spec node = Some spec ->
  isBatteryType (Spec.type spec) = true ->
  isNodeConnected edges (Node.id node) = false ->
  let prevSoC :=
    nullish (prevNode previousState (Node.id node)
               ≫= NodeSim.stateOfCharge) 80 in
  0 <= prevSoC <= 100 ->
  exists st soc,
    Sys.nodes (runSimulation localeCompare nodes edges environment
                             previousState deltaTime) !! Node.id node
    = Some st
    /\ NodeSim.stateOfCharge st = Some soc /\ soc == prevSoC
    /\ NodeSim.current st = 0 /\ NodeSim.power st = 0.
Proof.
  intros Hin Hspec Hbatt Hconn prevSoC Hrange.
  rewrite runSimulation_nodes. unfold fourthPass.
  edestruct (fourthPass_entry
               (fun st => exists soc,
                    NodeSim.stateOfCharge st = Some soc /\ soc == prevSoC
                    /\ NodeSim.current st = 0 /\ NodeSim.power st = 0)
               (Node.id node)) as (st & Hst & soc & H).
  - intros s n sp Hid Hsp Hb. unfold batteryEntry, battStateOf, netOf.
    rewrite Hid, Hconn.
    assert (match Sim.batteryCircuits s !! Node.id node with
            | Some _ => (0, 0)
            | None => (0, 0)
            end = (0, 0)) as -> by (by destruct (_ !! _)).
    unfold overwriteBattery. eexists.
    split; [by destruct (Sim.nodeStates s !! Node.id node)|].
    split; [|by destruct (Sim.nodeStates s !! Node.id node)].
    unfold calculateBatteryState. simpl. by apply updateSoC_idle.
  - left. by exists node, spec.
  - by exists st, soc.
Qed.

End Finalisation.

Lemma C9_disconnected_battery_unchanged_witness :
  exists st soc,
    Sys.nodes (runSimulation ordinalCompare [houseBattery] [] DEFAULT_ENV
                             None 3600) !! "battery-1" = Some st
    /\ NodeSim.stateOfCharge st = Some soc /\ soc == 80
    /\ NodeSim.current st = 0 /\ NodeSim.power st = 0.
Proof.
  apply (C9_disconnected_battery_unchanged ordinalCompare [houseBattery] []
           DEFAULT_ENV None 3600 houseBattery
           (Spec.withCapacity (Spec.bare Battery PowerSource) (Some 100))).
  - simpl. left. reflexivity.
  - reflexivity.
  - reflexivity.
  - reflexivity.
  - simpl. split; discriminate.
Defined.

Lemma X1_runSimulation_soc_within_bounds_witness :
  exists st soc,
    Sys.nodes (runSimulation ordinalCompare chainNodes chainEdges engineOn
                             None 3600) !! "battery-1" = Some st
    /\ NodeSim.stateOfCharge st = Some soc /\ 0 <= soc <= 100.
Proof.
  apply (X1_runSimulation_soc_within_bounds ordinalCompare chainNodes
           chainEdges engineOn None 3600 houseBattery
           (Spec.withCapacity (Spec.bare Battery PowerSource) (Some 100))).
  - reflexivity.
  - simpl. left. reflexivity.
  - reflexivity.
  - reflexivity.
Defined.

(** ** Alternator *)

Lemma creditGeneration_lookup (id : string) (p : Q)
    (circuits : gmap string Circuit.t) (id' : string) :
  creditGeneration id p circuits !! id' =
  if bool_decide (id' = id) then credited p <$> circuits !! id'
  else circuits !! id'.
Proof.
  unfold creditGeneration. case_bool_decide as H.
  - subst. destruct (circuits !! id) as [c|] eqn:E.
    + by rewrite lookup_insert_eq.
    + by rewrite E.
  - destruct (circuits !! id) as [c|] eqn:E; [|done].
    by rewrite lookup_insert_ne.
Qed.

(** Crediting a list of batteries without repeated identifiers credits
    each of them once and leaves the other entries alone. *)
Lemma fold_creditGeneration_lookup (p : Q) (l : list Node.t) :
  NoDup (map Node.id l) ->
  forall (circuits : gmap string Circuit.t) (id' : string),
    fold_left (fun circuits battery =>
                 creditGeneration (Node.id battery) p circuits) l circuits
      !! id'
    = if bool_decide (id' ∈ map Node.id l)
      then credited p <$> circuits !! id'
      else circuits !! id'.
Proof.
  induction l as [|b l IH]; intros Hnd circuits id'; cbn [fold_left map].
  - rewrite bool_decide_eq_false_2; [done|]. apply not_elem_of_nil.
  - apply NoDup_cons in Hnd as [Hb Hnd]. rewrite IH by done.
    rewrite creditGeneration_lookup.
    case_bool_decide as H1; case_bool_decide as H2;
      case_bool_decide as H3; subst; try done.
    all: exfalso; set_solver.
Qed.

Lemma initCircuit_keeps (circuits : gmap string Circuit.t) (n : Node.t)
    (id : string) :
  is_Some (circuits !! id) -> is_Some (initCircuit circuits n !! id).
Proof.
  unfold initCircuit. destruct (nodeIsBattery n); [|done].
  destruct (circuits !! Node.id n) eqn:E; [done|].
  intros H. destruct (decide (Node.id n = id)) as [<-|Hne].
  - rewrite lookup_insert_eq. by eexists.
  - by rewrite lookup_insert_ne.
Qed.

Lemma fold_initCircuit_keeps (l : list Node.t) :
  forall (circuits : gmap string Circuit.t) (id : string),
    is_Some (circuits !! id) ->
    is_Some (fold_left initCircuit l circuits !! id).
Proof.
  induction l as [|n l IH]; intros circuits id H; simpl; [done|].
  apply IH. by apply initCircuit_keeps.
Qed.

(** The engine starts every tick with an accumulator for every battery
    node. *)
Lemma initialSim_accumulatorsReady (nodes : list Node.t) :
  accumulatorsReady nodes (Sim.batteryCircuits (initialSim nodes)).
Proof.
  unfold initialSim, accumulatorsReady. simpl.
  generalize (∅ : gmap string Circuit.t).
  induction nodes as [|m l IH]; intros circuits n Hin Hb; [done|].
  simpl. destruct Hin as [->|Hin]; [|by apply IH].
  apply fold_initCircuit_keeps. unfold initCircuit. rewrite Hb.
  destruct (circuits !! Node.id n) eqn:E; [by rewrite E|].
  rewrite lookup_insert_eq. by eexists.
Qed.

Section Alternator.

Variable nodes : list Node.t.
Variable edges : list Edge.t.
Variable environment : Env.t.
Variable previousState : option Sys.t.

(** What the first pass does to the totals and the accumulators when it
    meets an alternator. *)
Lemma sourceStep_alternator (s : Sim.t) (node : Node.t) (spec : Spec.t) :
  Node.spec node = Some spec -> Spec.category spec = PowerSource ->
  Spec.type spec = Alternator ->
  let alt :=
    calculateAlternatorOutput spec (Env.alternatorRPM environment) in
  let batteries := findConnectedByType nodes edges (Node.id node)
                                       batteryTypes in
  let counted :=
    (Env.engineRunning environment && negb (isEmpty batteries))%bool in
  let s' := sourceStep nodes edges environment previousState s node in
  Sim.totalGeneration s'
  = (if counted then Sim.totalGeneration s + Out.power alt
     else Sim.totalGeneration s)
  /\ Sim.batteryCircuits s'
     = if counted then
         fold_left
           (fun circuits battery =>
              creditGeneration (Node.id battery)
                (Out.power alt / inject_Z (Z.of_nat (length batteries)))
                circuits)
           batteries (Sim.batteryCircuits s)
       else Sim.batteryCircuits s.
Proof.
  intros Hs Hc Ht alt batteries counted s'. subst s'.
  unfold sourceStep. rewrite Hs, Hc, Ht.
  change (negb (catIs PowerSource PowerSource)) with false.
  change (isBatteryType Alternator) with false.
  change (typeIs Alternator SolarPanel) with false.
  change (typeIs Alternator SolarArray) with false.
  change (typeIs Alternator Alternator) with true.
  cbv iota.
  unfold isConnectedToBattery. fold batteries. fold alt.
  change (negb (Nat.eqb (length batteries) 0))
    with (negb (isEmpty batteries)).
  fold counted. destruct counted; simpl; done.
Qed.

Lemma findConnectedByType_NoDup (id : string) (types : list ComponentType) :
  NoDup (map Node.id (findConnectedByType nodes edges id types)).
Proof.
  unfold findConnectedByType. apply NoDup_map_filter.
  apply traceAllConnections_NoDup.
Qed.

Lemma findConnectedByType_batteries (id : string) (b : Node.t) :
  In b (findConnectedByType nodes edges id batteryTypes) ->
  In b nodes /\ nodeIsBattery b = true.
Proof.
  unfold findConnectedByType. intros H. apply filter_In in H as [H Hb].
  split; [|done].
  pose proof (traceAllConnections_In nodes edges id) as HIn.
  rewrite Forall_forall in HIn. apply HIn. by apply list_elem_of_In.
Qed.

(** C6.  An alternator gives nothing below 800 RPM and, from 800 RPM on,
    its rated current times [min(1, (rpm - 800) / 1200)] at 14.4 V (50 A
    for 100 A rated at 1400 RPM).  The first pass adds its power to the
    total generation exactly when the engine runs and the alternator
    traces to a battery, and then credits each traced battery's
    accumulator with an equal share, leaving the other accumulators
    alone. *)
Theorem C6_alternator_output_and_split (s : Sim.t) (node : Node.t)
    (spec : Spec.t) :
  Node.spec node = Some spec -> Spec.category spec = PowerSource ->
  Spec.type spec = Alternator ->
  accumulatorsReady nodes (Sim.batteryCircuits s) ->
  let rpm := Env.alternatorRPM environment in
  let rated := or_num (Spec.maxCurrent spec) 100 in
  let alt := calculateAlternatorOutput spec rpm in
  let batteries := findConnectedByType nodes edges (Node.id node)
                                       batteryTypes in
  let counted :=
    (Env.engineRunning environment
     && isConnectedToBattery nodes edges (Node.id node))%bool in
  let share := Out.power alt / inject_Z (Z.of_nat (length batteries)) in
  let s' := sourceStep nodes edges environment previousState s node in
  (rpm < 800 -> alt = Out.mk 0 0 0)
  /\ (800 <= rpm ->
      Out.voltage alt = 14.4
      /\ Out.current alt = rated * Qmin 1 ((rpm - 800) / 1200)
      /\ Out.power alt = 14.4 * Out.current alt)
  /\ (Spec.maxCurrent spec = Some 100 -> rpm = 1400 ->
      Out.current alt == 50)
  /\ Sim.totalGeneration s'
     = (if counted then Sim.totalGeneration s + Out.power alt
        else Sim.totalGeneration s)
  /\ (counted = true ->
      forall b, In b batteries ->
        exists c,
          Sim.batteryCircuits s !! Node.id b = Some c
          /\ Sim.batteryCircuits s' !! Node.id b
             = Some (Circuit.mk (Circuit.generation c + share)
                                (Circuit.load c)))
  /\ (forall id, id ∉ map Node.id batteries ->
        Sim.batteryCircuits s' !! id = Sim.batteryCircuits s !! id)
  /\ (counted = false -> Sim.batteryCircuits s' = Sim.batteryCircuits s).
Proof.
  intros Hs Hc Ht Hready rpm rated alt batteries counted share s'.
  destruct (sourceStep_alternator s node spec Hs Hc Ht) as [Hgen Hcirc].
  fold rpm alt batteries share s' in Hgen, Hcirc.
  change (Env.engineRunning environment && negb (isEmpty batteries))%bool
    with counted in Hgen, Hcirc.
  split.
  { intros Hlt. subst alt. unfold calculateAlternatorOutput.
    by rewrite (proj2 (Qltb_lt rpm 800) Hlt). }
  split.
  { intros Hge. subst alt. unfold calculateAlternatorOutput.
    by rewrite (proj2 (Qltb_ge rpm 800) Hge). }
  split.
  { intros Hmax Hrpm. subst alt. unfold calculateAlternatorOutput.
    rewrite Hrpm, Hmax. vm_compute. reflexivity. }
  split; [exact Hgen|].
  split.
  { intros Hcounted b Hb. rewrite Hcounted in Hcirc.
    destruct (findConnectedByType_batteries _ _ Hb) as [Hin Hbatt].
    destruct (Hready b Hin Hbatt) as [c Hlook]. exists c.
    split; [done|]. rewrite Hcirc.
    rewrite fold_creditGeneration_lookup
      by apply findConnectedByType_NoDup.
    rewrite bool_decide_eq_true_2.
    - by rewrite Hlook.
    - apply list_elem_of_In, in_map. done. }
  split.
  { intros id Hid. rewrite Hcirc. destruct counted; [|done].
    rewrite fold_creditGeneration_lookup
      by apply findConnectedByType_NoDup.
    by rewrite bool_decide_eq_false_2. }
  intros Hcounted. by rewrite Hcirc, Hcounted.
Qed.

End Alternator.

Lemma creditGeneration_keeps (id' : string) (p : Q)
    (circuits : gmap string Circuit.t) (id : string) :
  is_Some (circuits !! id) ->
  is_Some (creditGeneration id' p circuits !! id).
Proof.
  rewrite creditGeneration_lookup. case_bool_decide; [|done].
  intros [c ->]. by eexists.
Qed.

Lemma sourceStep_keeps (nodes : list Node.t) (edges : list Edge.t)
    (environment : Env.t) (previousState : option Sys.t) (s : Sim.t)
    (n : Node.t) (id : string) :
  is_Some (Sim.batteryCircuits s !! id) ->
  is_Some (Sim.batteryCircuits
             (sourceStep nodes edges environment previousState s n) !! id).
Proof.
  intros H. unfold sourceStep.
  destruct (Node.spec n) as [spec|]; [|done].
  destruct (negb _); [done|].
  destruct (isBatteryType _); [done|].
  destruct (typeIs _ SolarPanel); [done|].
  destruct (typeIs _ SolarArray); [done|].
  destruct (typeIs _ Alternator); [|done].
  destruct (_ && _)%bool; [|done]. simpl.
  match goal with
  | |- context [creditGeneration _ ?p] => generalize p
  end.
  intros share. generalize (Sim.batteryCircuits s) H.
  induction (findConnectedByType nodes edges (Node.id n) batteryTypes)
    as [|b l IH]; intros circuits Hc; simpl; [done|].
  apply IH. by apply creditGeneration_keeps.
Qed.

(** The accumulators stay ready all along the first pass. *)
Lemma firstPass_accumulatorsReady (nodes : list Node.t)
    (edges : list Edge.t) (environment : Env.t)
    (previousState : option Sys.t) (processed : list Node.t) :
  accumulatorsReady nodes
    (Sim.batteryCircuits
       (fold_left (sourceStep nodes edges environment previousState)
                  processed (initialSim nodes))).
Proof.
  pose proof (initialSim_accumulatorsReady nodes) as H.
  revert H. generalize (initialSim nodes).
  induction processed as [|n l IH]; intros s H; simpl; [done|].
  apply IH. intros m Hin Hb. apply sourceStep_keeps. by apply H.
Qed.

Lemma C6_alternator_output_and_split_witness :
  let s' :=
    sourceStep engineNodes engineEdges engineOn None
               (initialSim engineNodes) alternator100 in
  Out.current
    (calculateAlternatorOutput
       (withMaxCurrent (Spec.bare Alternator PowerSource) 100) 1400) == 50
  /\ Sim.totalGeneration s' == 720
  /\ (exists c, Sim.batteryCircuits s' !! "battery-s" = Some c
                /\ Circuit.generation c == 360)
  /\ (exists c, Sim.batteryCircuits s' !! "battery-1" = Some c
                /\ Circuit.generation c == 360).
Proof.
  intros s'.
  destruct (C6_alternator_output_and_split engineNodes engineEdges engineOn
              None (initialSim engineNodes) alternator100
              (withMaxCurrent (Spec.bare Alternator PowerSource) 100)
              eq_refl eq_refl eq_refl
              (initialSim_accumulatorsReady engineNodes))
    as (_ & _ & Hex & Hgen & Hsplit & _).
  split; [by apply Hex|].
  split; [fold s' in Hgen; rewrite Hgen; vm_compute; reflexivity|].
  split.
  - destruct (Hsplit eq_refl starterBattery) as (c & Hc & Hc').
    { vm_compute. left. reflexivity. }
    eexists. split; [exact Hc'|].
    vm_compute in Hc. inversion Hc; subst c. vm_compute. reflexivity.
  - destruct (Hsplit eq_refl houseBattery) as (c & Hc & Hc').
    { vm_compute. right. left. reflexivity. }
    eexists. split; [exact Hc'|].
    vm_compute in Hc. inversion Hc; subst c. vm_compute. reflexivity.
Defined.

(** ** System voltage *)

Section LastBattery.

Variable localeCompare : string -> string -> comparison.
Variable nodes : list Node.t.
Variable edges : list Edge.t.
Variable environment : Env.t.
Variable previousState : option Sys.t.
Variable deltaTime : Q.

Lemma batteryStep_systemVoltage (s : Sim.t) (node : Node.t)
    (spec : Spec.t) :
  Node.spec node = Some spec -> isBatteryType (Spec.type spec) = true ->
  Sim.systemVoltage (batteryStep edges previousState deltaTime s node)
  = if (Qgeb (battCapacityOf node spec) 100
        || Qeq_bool (Sim.systemVoltage s) 12)%bool
    then Batt.voltage
           (battStateOf edges previousState deltaTime s node spec)
    else Sim.systemVoltage s.
Proof.
  intros Hs Hb. unfold batteryStep. rewrite Hs, Hb. simpl.
  repeat match goal with
         | |- context [if ?c then _ else _] => destruct c
         end; reflexivity.
Qed.

Lemma batteryStep_skip (s : Sim.t) (node : Node.t) :
  nodeIsBattery node = false ->
  batteryStep edges previousState deltaTime s node = s.
Proof.
  intros H. unfold batteryStep.
  destruct (Node.spec node) as [spec|] eqn:Hs; [|done].
  by rewrite <- (isBatteryType_nodeIsBattery _ _ Hs), H.
Qed.

Lemma fold_batteryStep_skip (l : list Node.t) (s : Sim.t) :
  Forall (fun n => nodeIsBattery n = false) l ->
  fold_left (batteryStep edges previousState deltaTime) l s = s.
Proof.
  intros H. revert s.
  induction H as [|n l Hn _ IH]; intros s; simpl; [done|].
  by rewrite batteryStep_skip, IH.
Qed.

Lemma batteryEntry_voltage (s : Sim.t) (node : Node.t) (spec : Spec.t) :
  NodeSim.voltage (batteryEntry edges previousState deltaTime s node spec)
  = Batt.voltage (battStateOf edges previousState deltaTime s node spec).
Proof.
  unfold batteryEntry, overwriteBattery. destruct (netOf _ _ _).
  by destruct (Sim.nodeStates s !! Node.id node).
Qed.

(** The system voltage of the result is the one the fourth pass
    leaves. *)
Lemma runSimulation_systemVoltage :
  Sys.systemVoltage (runSimulation localeCompare nodes edges environment
                                   previousState deltaTime) =
  Sim.systemVoltage
    (fourthPass nodes edges previousState deltaTime
       (thirdPass nodes edges
          (secondPass localeCompare nodes edges environment
             (firstPass nodes edges environment previousState
                        (initialSim nodes))))).
Proof.
  unfold runSimulation. simpl.
  pose proof
    (diagnostics_core nodes edges environment
       (fourthPass nodes edges previousState deltaTime
          (thirdPass nodes edges
             (secondPass localeCompare nodes edges environment
                (firstPass nodes edges environment previousState
                           (initialSim nodes)))))) as H.
  unfold core in H. congruence.
Qed.

(** X3.  What the code does: when the last battery of the node list
    has at least 100 Ah, the system voltage of the result is that
    battery's finalised voltage, whatever the batteries before it. *)
Theorem X3_runSimulation_systemVoltage_last_battery
    (before after : list Node.t) (battery : Node.t) (spec : Spec.t) :
  nodes = before ++ battery :: after ->
  Node.spec battery = Some spec -> isBatteryType (Spec.type spec) = true ->
  Forall (fun n => nodeIsBattery n = false) after ->
  100 <= battCapacityOf battery spec ->
  exists st,
    Sys.nodes (runSimulation localeCompare nodes edges environment
                             previousState deltaTime) !! Node.id battery
    = Some st
    /\ Sys.systemVoltage (runSimulation localeCompare nodes edges
                            environment previousState deltaTime)
       = NodeSim.voltage st.
Proof.
  intros Hn Hs Hb Hafter Hcap.
  rewrite runSimulation_systemVoltage, (runSimulation_nodes localeCompare).
  remember (thirdPass nodes edges
              (secondPass localeCompare nodes edges environment
                 (firstPass nodes edges environment previousState
                            (initialSim nodes)))) as s3 eqn:Hs3.
  clear Hs3. unfold fourthPass. rewrite Hn, !fold_left_app. simpl.
  rewrite !fold_batteryStep_skip by done.
  rewrite batteryStep_nodeStates, Hs, Hb, lookup_insert_eq.
  eexists. split; [reflexivity|].
  rewrite (batteryStep_systemVoltage _ _ _ Hs Hb), batteryEntry_voltage.
  unfold Qgeb. by rewrite (proj2 (Qle_bool_iff _ _) Hcap).
Qed.

End LastBattery.

Lemma X3_runSimulation_systemVoltage_last_battery_witness :
  exists st,
    Sys.nodes (runSimulation ordinalCompare twoBanks [] DEFAULT_ENV None 1)
      !! "battery-b" = Some st
    /\ Sys.systemVoltage
         (runSimulation ordinalCompare twoBanks [] DEFAULT_ENV None 1)
       = NodeSim.voltage st.
Proof.
  apply (X3_runSimulation_systemVoltage_last_battery ordinalCompare twoBanks
           [] DEFAULT_ENV None 1 [bank200] [] lifepo100
           (withChemistry
              (Spec.withCapacity (Spec.bare Battery PowerSource) (Some 100))
              "lifepo4")).
  - reflexivity.
  - reflexivity.
  - reflexivity.
  - constructor.
  - vm_compute. discriminate.
Defined.

(** C7 (the code departs from it).  With a 200 Ah lead-acid bank placed
    before a 100 Ah LiFePO4 battery, the system voltage of the result is
    the finalised voltage of the 100 Ah battery (13.35 V), not that of
    the 200 Ah bank (13 V), which has the highest capacity and is the
    first battery seen: the fourth pass overwrites the system voltage at
    every battery of at least 100 Ah, so the last such battery wins.
    With a single 50 Ah battery the system voltage is not the battery's
    finalised voltage (13 V) either, but the 12.8 V the first pass seeded
    it with. *)
Theorem C7_system_voltage_follows_last_battery :
  let result :=
    runSimulation ordinalCompare twoBanks [] DEFAULT_ENV None 1 in
  let single :=
    runSimulation ordinalCompare [smallBattery] [] DEFAULT_ENV None 1 in
  capacityOf bank200 == 200
  /\ capacityOf lifepo100 == 100
  /\ (exists st, Sys.nodes result !! "battery-a" = Some st
                 /\ NodeSim.voltage st == 13)
  /\ (exists st, Sys.nodes result !! "battery-b" = Some st
                 /\ NodeSim.voltage st == 13.35)
  /\ Sys.systemVoltage result == 13.35
  /\ (exists st, Sys.nodes single !! "battery-c" = Some st
                 /\ NodeSim.voltage st == 13)
  /\ Sys.systemVoltage single == 12.8.
Proof.
  intros result single.
  split; [vm_compute; reflexivity|]. split; [vm_compute; reflexivity|].
  split; [eexists; split; [vm_compute; reflexivity|vm_compute; reflexivity]|].
  split; [eexists; split; [vm_compute; reflexivity|vm_compute; reflexivity]|].
  split; [vm_compute; reflexivity|].
  split; [eexists; split; [vm_compute; reflexivity|vm_compute; reflexivity]|].
  vm_compute. reflexivity.
Qed.

(** ** Protection devices *)

(** What the third pass writes for a protection device, given the node
    states at the moment the device is processed: the larger of the two
    sums decides the status, a blown device reports nothing, and an
    overloaded one that is not blown gets a warning that carries the
    current and the rating. *)
Lemma protectionStep_spec (nodes : list Node.t) (edges : list Edge.t)
    (s : Sim.t) (node : Node.t) (spec : Spec.t) :
  let rating := ratingOf node spec in
  let loads := findConnectedByCategory nodes edges (Node.id node) [Load] in
  let chargers :=
    findConnectedByCategory nodes edges (Node.id node) [Charging] in
  let currentThrough :=
    Qmax (sumActiveLoadCurrent (Sim.nodeStates s) loads)
         (sumChargingCurrent (Sim.nodeStates s) chargers) in
  let status :=
    if isBlownOf node then Off
    else if Qgtb currentThrough rating then Fault else On in
  let s' := protectionStep nodes edges s node spec in
  Sim.nodeStates s'
  = <[Node.id node :=
        NodeSim.basic
          (if isBlownOf node then 0 else Sim.systemVoltage s)
          (if isBlownOf node then 0 else currentThrough)
          (if isBlownOf node then 0
           else currentThrough * Sim.systemVoltage s)
          status]> (Sim.nodeStates s)
  /\ (status = Fault ->
      exists warning,
        Sim.warnings s' = Sim.warnings s ++ [warning]
        /\ In (Num rating) warning /\ In (Fixed 1 currentThrough) warning)
  /\ (status <> Fault -> Sim.warnings s' = Sim.warnings s).
Proof.
  intros rating loads chargers currentThrough status s'.
  subst s' status. unfold protectionStep, currentThroughOf.
  fold rating loads chargers currentThrough.
  destruct (isBlownOf node), (Qgtb currentThrough rating); simpl.
  all: split; [reflexivity|]; split; try done.
  intros _. eexists. split; [reflexivity|].
  unfold overRatedWarning. simpl. tauto.
Qed.

(** C8 (the code departs from it).  On battery - fuse (15 A) - load
    (20 A, on and powered), with the fuse placed before the load in the
    node list, the fuse traces to the load and the load draws 20 A, yet
    the fuse is reported [on] with 0 A and no over-rated warning is
    issued: the third pass reads the load's state before it has written
    it.  With the load placed first, the same diagram gives [fault] with
    20 A and the warning that carries 20 A and 15 A. *)
Theorem C8_fuse_misses_loads_listed_after_it :
  let result :=
    runSimulation ordinalCompare fuseFirstNodes fusedEdges DEFAULT_ENV
                  None 1 in
  let reordered :=
    runSimulation ordinalCompare loadFirstNodes fusedEdges DEFAULT_ENV
                  None 1 in
  findConnectedByCategory fuseFirstNodes fusedEdges "fuse-1" [Load]
  = [load20]
  /\ (exists st, Sys.nodes result !! "load-1" = Some st
                 /\ NodeSim.state st = On /\ NodeSim.current st = 20)
  /\ (exists st, Sys.nodes result !! "fuse-1" = Some st
                 /\ NodeSim.state st = On /\ NodeSim.current st = 0)
  /\ ~ In (overRatedWarning fuse15 20 15) (Sys.warnings result)
  /\ (exists st, Sys.nodes reordered !! "fuse-1" = Some st
                 /\ NodeSim.state st = Fault /\ NodeSim.current st = 20)
  /\ In (overRatedWarning fuse15 20 15) (Sys.warnings reordered).
Proof.
  intros result reordered.
  split; [vm_compute; reflexivity|].
  split; [eexists; split; [vm_compute; reflexivity|split; reflexivity]|].
  split; [eexists; split; [vm_compute; reflexivity|split; reflexivity]|].
  split.
  { vm_compute. intros [H|[H|[H|[]]]]; discriminate. }
  split; [eexists; split; [vm_compute; reflexivity|split; reflexivity]|].
  vm_compute. left. reflexivity.
Qed.

(** ** Zero overrides *)

(** A zero on the left of [||], however it is written, gives way to the
    right side. *)
Lemma or_num_falsy (z d : Q) : z == 0 -> or_num (Some z) d = d.
Proof.
  intros Hz. unfold or_num, truthy.
  by rewrite (proj2 (Qeq_bool_iff z 0) Hz).
Qed.

Lemma or_opt_falsy (z : Q) (o : option Q) :
  z == 0 -> or_opt (Some z) o = o.
Proof.
  intros Hz. unfold or_opt, truthy.
  by rewrite (proj2 (Qeq_bool_iff z 0) Hz).
Qed.

Lemma or_num_scrub (o : option Q) (d : Q) : or_num (scrub o) d = or_num o d.
Proof.
  destruct o as [x|]; simpl; [|done].
  destruct (truthy x) eqn:E; simpl; by rewrite ?E.
Qed.

Lemma or_opt_scrub (a b : option Q) :
  or_opt (scrub a) (scrub b) = scrub (or_opt a b).
Proof.
  destruct a as [x|]; simpl; [|done].
  destruct (truthy x) eqn:E; simpl; by rewrite ?E.
Qed.

Ltac scrub_simpl :=
  cbn [scrubNode scrubSpec scrubCustom Node.id Node.label Node.spec
       Node.customValues Spec.type Spec.category Spec.maxCurrent
       Spec.capacity Spec.rating Spec.chargeRate Spec.efficiency
       Spec.alternatorInputMin Spec.alternatorInputMax Spec.solarInputMin
       Spec.solarInputMax Spec.maxSolarWattage Spec.maxSolarCurrent
       Spec.wattage Spec.voc Spec.vmp Spec.imp Spec.panelCount
       Spec.arrayConfig Spec.batteryChemistry Spec.batteryRole
       Spec.maxOutputPower Spec.traditionalAltMin Spec.maxInputVoltage
       Spec.outputVoltageMin Spec.outputVoltageMax Spec.tempCompNonLithium
       Spec.tempCompLithium Custom.wattage Custom.vmp Custom.imp Custom.voc
       Custom.panelCount Custom.arrayConfig Custom.batteryChemistry
       Custom.capacity Custom.chargeRate Custom.maxCurrent Custom.rating
       Custom.isOn Custom.isBlown fmap option_fmap option_map mbind
       option_bind];
  rewrite ?or_num_scrub, ?or_opt_scrub.

(** The calculators read a scrubbed spec like the spec itself. *)
Lemma calculateSolarOutput_scrub (s : Spec.t) (irradiance : Q)
    (c : Custom.t) :
  calculateSolarOutput (scrubSpec s) irradiance (scrubCustom c)
  = calculateSolarOutput s irradiance c.
Proof. unfold calculateSolarOutput. scrub_simpl. reflexivity. Qed.

Lemma calculateSolarArrayOutput_scrub (s : Spec.t) (irradiance : Q)
    (c : Custom.t) :
  calculateSolarArrayOutput (scrubSpec s) irradiance (scrubCustom c)
  = calculateSolarArrayOutput s irradiance c.
Proof. unfold calculateSolarArrayOutput. scrub_simpl. reflexivity. Qed.

Lemma calculateAlternatorOutput_scrub (s : Spec.t) (rpm : Q) :
  calculateAlternatorOutput (scrubSpec s) rpm
  = calculateAlternatorOutput s rpm.
Proof. unfold calculateAlternatorOutput. scrub_simpl. reflexivity. Qed.

Lemma calculateBatteryState_scrub (s : Spec.t) (i soc dt : Q)
    (prev : option Status) :
  calculateBatteryState (scrubSpec s) i soc dt prev
  = calculateBatteryState s i soc dt prev.
Proof. unfold calculateBatteryState. scrub_simpl. reflexivity. Qed.

Lemma withCapacity_scrub (s : Spec.t) (c : option Q) :
  Spec.withCapacity (scrubSpec s) (scrub c)
  = scrubSpec (Spec.withCapacity s c).
Proof. reflexivity. Qed.

Lemma calculateDCDCMPPTStateWithChemistry_scrub (s : Spec.t)
    (altV solV solP battV soc cap : Q) (chem : string) (starterV amb : Q) :
  calculateDCDCMPPTStateWithChemistry (scrubSpec s) altV solV solP battV soc
                                      cap chem starterV amb
  = calculateDCDCMPPTStateWithChemistry s altV solV solP battV soc cap chem
                                        starterV amb.
Proof.
  unfold calculateDCDCMPPTStateWithChemistry, powerLimitedMaxCurrent,
    alternatorInput, solarInput, outputVoltageValid.
  scrub_simpl. reflexivity.
Qed.

(** So do the readers of a node. *)
Lemma nodeTypeIn_scrub (types : list ComponentType) (n : Node.t) :
  nodeTypeIn types (scrubNode n) = nodeTypeIn types n.
Proof. unfold nodeTypeIn. scrub_simpl. by destruct (Node.spec n). Qed.

Lemma nodeCategoryIn_scrub (cats : list ComponentCategory) (n : Node.t) :
  nodeCategoryIn cats (scrubNode n) = nodeCategoryIn cats n.
Proof. unfold nodeCategoryIn. scrub_simpl. by destruct (Node.spec n). Qed.

Lemma nodeIsBattery_scrub (n : Node.t) :
  nodeIsBattery (scrubNode n) = nodeIsBattery n.
Proof. apply nodeTypeIn_scrub. Qed.

Lemma isPassThrough_scrub (n : Node.t) :
  isPassThrough (scrubNode n) = isPassThrough n.
Proof. apply nodeCategoryIn_scrub. Qed.

Lemma ratingOf_scrub (n : Node.t) (s : Spec.t) :
  ratingOf (scrubNode n) (scrubSpec s) = ratingOf n s.
Proof. unfold ratingOf. scrub_simpl. reflexivity. Qed.

Lemma battCapacityOf_scrub (n : Node.t) (s : Spec.t) :
  battCapacityOf (scrubNode n) (scrubSpec s) = battCapacityOf n s.
Proof. unfold battCapacityOf. scrub_simpl. reflexivity. Qed.

Lemma capacityOf_scrub (n : Node.t) : capacityOf (scrubNode n) = capacityOf n.
Proof.
  unfold capacityOf. scrub_simpl.
  destruct (Node.spec n); scrub_simpl; reflexivity.
Qed.

Lemma vocOf_scrub (n : Node.t) : vocOf (scrubNode n) = vocOf n.
Proof.
  unfold vocOf. scrub_simpl.
  destruct (Node.spec n); scrub_simpl; reflexivity.
Qed.

Lemma isOnOf_scrub (n : Node.t) : isOnOf (scrubNode n) = isOnOf n.
Proof. reflexivity. Qed.

Lemma isBlownOf_scrub (n : Node.t) : isBlownOf (scrubNode n) = isBlownOf n.
Proof. reflexivity. Qed.

Lemma labelIsLithium_scrub (n : Node.t) :
  labelIsLithium (scrubNode n) = labelIsLithium n.
Proof. reflexivity. Qed.

Lemma inferRole_scrub (n : Node.t) : inferRole (scrubNode n) = inferRole n.
Proof. unfold inferRole. scrub_simpl. by destruct (Node.spec n). Qed.

Lemma isHouseBattery_scrub (n : Node.t) :
  isHouseBattery (scrubNode n) = isHouseBattery n.
Proof.
  unfold isHouseBattery. rewrite !nodeTypeIn_scrub. scrub_simpl.
  by destruct (Node.spec n).
Qed.

Lemma isEmpty_scrub (l : list Node.t) :
  isEmpty (map scrubNode l) = isEmpty l.
Proof. unfold isEmpty. by rewrite length_map. Qed.

Lemma filter_map_scrub (p : Node.t -> bool) (l : list Node.t) :
  (forall n, p (scrubNode n) = p n) ->
  List.filter p (map scrubNode l) = map scrubNode (List.filter p l).
Proof.
  intros Hp. induction l as [|n l IH]; simpl; [done|].
  rewrite Hp. destruct (p n); simpl; by rewrite IH.
Qed.

Lemma existsb_map_scrub (p : Node.t -> bool) (l : list Node.t) :
  (forall n, p (scrubNode n) = p n) ->
  existsb p (map scrubNode l) = existsb p l.
Proof.
  intros Hp. induction l as [|n l IH]; simpl; [done|]. by rewrite Hp, IH.
Qed.

Lemma fold_left_map_scrub {A : Type} (f g : A -> Node.t -> A)
    (l : list Node.t) :
  (forall a n, f a (scrubNode n) = g a n) ->
  forall a, fold_left f (map scrubNode l) a = fold_left g l a.
Proof.
  intros H. induction l as [|n l IH]; intros a; simpl; [done|].
  by rewrite H, IH.
Qed.

(** Tracing a scrubbed diagram finds the scrubbed nodes of the trace of
    the diagram. *)
Lemma findNode_scrub (nodes : list Node.t) (id : string) :
  findNode (map scrubNode nodes) id = scrubNode <$> findNode nodes id.
Proof.
  unfold findNode. induction nodes as [|n l IH]; simpl; [done|].
  destruct (String.eqb (Node.id n) id); [done|]. exact IH.
Qed.

Lemma traceEach_scrub (nodes : list Node.t)
    (rec rec' : string -> gset string
                -> option (list Node.t * gset string)) :
  (forall c v, rec' c v = scrubTrace (rec c v)) ->
  forall conns v,
    traceEach (findNode (map scrubNode nodes)) rec' conns v
    = scrubTrace (traceEach (findNode nodes) rec conns v).
Proof.
  intros Hrec. induction conns as [|c rest IH]; intros v; simpl; [done|].
  case_bool_decide; [apply IH|].
  rewrite findNode_scrub.
  destruct (findNode nodes c) as [n|]; simpl; [|apply IH].
  rewrite isPassThrough_scrub. destruct (isPassThrough n).
  - rewrite Hrec. destruct (rec c v) as [[r1 v1]|]; simpl; [|done].
    rewrite IH.
    destruct (traceEach _ rec rest v1) as [[r2 v2]|]; simpl; [|done].
    by rewrite map_app.
  - rewrite IH. by destruct (traceEach _ rec rest _) as [[r2 v2]|].
Qed.

Lemma traceFrom_scrub (nodes : list Node.t) (edges : list Edge.t)
    (fuel : nat) :
  forall s v,
    traceFrom (map scrubNode nodes) edges fuel s v
    = scrubTrace (traceFrom nodes edges fuel s v).
Proof.
  induction fuel as [|fuel IH]; intros s v; simpl; [done|].
  case_bool_decide; [done|]. by apply traceEach_scrub.
Qed.

Lemma traceAllConnections_scrub (nodes : list Node.t) (edges : list Edge.t)
    (s : string) :
  traceAllConnections (map scrubNode nodes) edges s
  = map scrubNode (traceAllConnections nodes edges s).
Proof.
  unfold traceAllConnections. rewrite length_map, traceFrom_scrub.
  by destruct (traceFrom nodes edges _ s ∅) as [[r v]|].
Qed.

Lemma findConnectedByType_scrub (nodes : list Node.t) (edges : list Edge.t)
    (id : string) (types : list ComponentType) :
  findConnectedByType (map scrubNode nodes) edges id types
  = map scrubNode (findConnectedByType nodes edges id types).
Proof.
  unfold findConnectedByType. rewrite traceAllConnections_scrub.
  apply filter_map_scrub. intros. apply nodeTypeIn_scrub.
Qed.

Lemma findConnectedByCategory_scrub (nodes : list Node.t)
    (edges : list Edge.t) (id : string) (cats : list ComponentCategory) :
  findConnectedByCategory (map scrubNode nodes) edges id cats
  = map scrubNode (findConnectedByCategory nodes edges id cats).
Proof.
  unfold findConnectedByCategory. rewrite traceAllConnections_scrub.
  apply filter_map_scrub. intros. apply nodeCategoryIn_scrub.
Qed.

Lemma isConnectedToBattery_scrub (nodes : list Node.t)
    (edges : list Edge.t) (id : string) :
  isConnectedToBattery (map scrubNode nodes) edges id
  = isConnectedToBattery nodes edges id.
Proof.
  unfold isConnectedToBattery.
  by rewrite findConnectedByType_scrub, length_map.
Qed.

Lemma isConnectedToPower_scrub (nodes : list Node.t) (edges : list Edge.t)
    (id : string) :
  isConnectedToPower (map scrubNode nodes) edges id
  = isConnectedToPower nodes edges id.
Proof.
  unfold isConnectedToPower. rewrite traceAllConnections_scrub.
  apply existsb_map_scrub. intros.
  by rewrite nodeTypeIn_scrub, nodeCategoryIn_scrub.
Qed.

Lemma findConnectedBattery_scrub (nodes : list Node.t)
    (edges : list Edge.t) (id : string) :
  findConnectedBattery (map scrubNode nodes) edges id
  = scrubNode <$> findConnectedBattery nodes edges id.
Proof.
  unfold findConnectedBattery. rewrite findConnectedByType_scrub.
  by destruct (findConnectedByType nodes edges id batteryTypes).
Qed.

Lemma initialSim_scrub (nodes : list Node.t) :
  initialSim (map scrubNode nodes) = initialSim nodes.
Proof.
  unfold initialSim. f_equal. apply fold_left_map_scrub.
  intros c n. unfold initCircuit. by rewrite nodeIsBattery_scrub.
Qed.

Lemma sumActiveLoadCurrent_scrub (nodeStates : gmap string NodeSim.t)
    (l : list Node.t) :
  sumActiveLoadCurrent nodeStates (map scrubNode l)
  = sumActiveLoadCurrent nodeStates l.
Proof. unfold sumActiveLoadCurrent. apply fold_left_map_scrub. done. Qed.

Lemma sumChargingCurrent_scrub (nodeStates : gmap string NodeSim.t)
    (l : list Node.t) :
  sumChargingCurrent nodeStates (map scrubNode l)
  = sumChargingCurrent nodeStates l.
Proof. unfold sumChargingCurrent. apply fold_left_map_scrub. done. Qed.

Ltac scrub_rw :=
  rewrite ?calculateSolarOutput_scrub, ?calculateSolarArrayOutput_scrub,
    ?calculateAlternatorOutput_scrub, ?calculateBatteryState_scrub,
    ?calculateDCDCMPPTStateWithChemistry_scrub, ?ratingOf_scrub,
    ?battCapacityOf_scrub, ?capacityOf_scrub, ?vocOf_scrub, ?isOnOf_scrub,
    ?isBlownOf_scrub, ?labelIsLithium_scrub, ?inferRole_scrub,
    ?isHouseBattery_scrub, ?nodeTypeIn_scrub, ?nodeCategoryIn_scrub,
    ?nodeIsBattery_scrub, ?isPassThrough_scrub, ?findConnectedByType_scrub,
    ?findConnectedByCategory_scrub, ?isConnectedToBattery_scrub,
    ?isConnectedToPower_scrub, ?findConnectedBattery_scrub,
    ?traceAllConnections_scrub, ?isEmpty_scrub, ?length_map.

Ltac scrub_node n :=
  scrub_simpl; destruct (Node.spec n) as [spec|]; [|done];
  scrub_simpl; scrub_rw.

Section Scrubbed.

Variable localeCompare : string -> string -> comparison.
Variable nodes : list Node.t.
Variable edges : list Edge.t.
Variable environment : Env.t.
Variable previousState : option Sys.t.
Variable deltaTime : Q.

(** Every step of the four passes treats a scrubbed node of the scrubbed
    diagram like the node of the diagram. *)
Lemma sourceStep_scrub (s : Sim.t) (n : Node.t) :
  sourceStep (map scrubNode nodes) edges environment previousState s
             (scrubNode n)
  = sourceStep nodes edges environment previousState s n.
Proof.
  unfold sourceStep. scrub_node n.
  erewrite fold_left_map_scrub; [reflexivity|].
  intros. scrub_simpl. reflexivity.
Qed.

Lemma gatherInput_scrub (nodeStates : gmap string NodeSim.t)
    (acc : Inputs.t) (n : Node.t) :
  gatherInput nodeStates acc (scrubNode n) = gatherInput nodeStates acc n.
Proof.
  unfold gatherInput. scrub_rw. scrub_simpl.
  destruct (Node.spec n); scrub_simpl; reflexivity.
Qed.

Lemma chargerStep_scrub (s : Sim.t) (n : Node.t) :
  chargerStep localeCompare (map scrubNode nodes) edges environment s
              (scrubNode n)
  = chargerStep localeCompare nodes edges environment s n.
Proof.
  unfold chargerStep. scrub_node n.
  rewrite (fold_left_map_scrub _ _ _
             (gatherInput_scrub (Sim.nodeStates s))).
  destruct (findConnectedBattery nodes edges (Node.id n)); reflexivity.
Qed.

Lemma passiveStep_scrub (s : Sim.t) (n : Node.t) :
  passiveStep (map scrubNode nodes) edges s (scrubNode n)
  = passiveStep nodes edges s n.
Proof.
  unfold passiveStep. scrub_simpl.
  destruct (Node.spec n) as [spec|]; [|done].
  scrub_simpl. destruct (Spec.category spec); try reflexivity.
  - unfold protectionStep, currentThroughOf, overRatedWarning.
    scrub_simpl. scrub_rw.
    rewrite sumActiveLoadCurrent_scrub, sumChargingCurrent_scrub.
    reflexivity.
  - unfold loadStep. scrub_simpl. scrub_rw.
    destruct (findConnectedBattery nodes edges (Node.id n)); reflexivity.
Qed.

Lemma batteryStep_scrub (s : Sim.t) (n : Node.t) :
  batteryStep edges previousState deltaTime s (scrubNode n)
  = batteryStep edges previousState deltaTime s n.
Proof.
  unfold batteryStep, batteryEntry, battStateOf.
  change (netOf edges s (scrubNode n)) with (netOf edges s n).
  destruct (netOf edges s n) as [netPower netCurrent].
  cbn [scrubNode Node.id Node.label Node.spec Node.customValues].
  destruct (Node.spec n) as [spec|]; [|done].
  cbn [fmap option_fmap option_map scrubCustom Custom.capacity].
  change (Spec.capacity (scrubSpec spec)) with (scrub (Spec.capacity spec)).
  change (Spec.type (scrubSpec spec)) with (Spec.type spec).
  rewrite or_opt_scrub, withCapacity_scrub, calculateBatteryState_scrub.
  rewrite <- (battCapacityOf_scrub n spec). reflexivity.
Qed.

(** So does every rule of the diagnostics. *)
Lemma wiringStep_scrub (s : Sim.t) (n : Node.t) :
  wiringStep (map scrubNode nodes) edges environment s (scrubNode n)
  = wiringStep nodes edges environment s n.
Proof. unfold wiringStep. scrub_node n. reflexivity. Qed.

Lemma batteryUseStep_scrub (s : Sim.t) (n : Node.t) :
  batteryUseStep (map scrubNode nodes) edges s (scrubNode n)
  = batteryUseStep nodes edges s n.
Proof.
  unfold batteryUseStep. scrub_node n.
  rewrite !existsb_map_scrub; [reflexivity| | |].
  all: intros; by rewrite ?nodeCategoryIn_scrub, ?nodeTypeIn_scrub.
Qed.

Lemma unprotectedStep_scrub (s : Sim.t) (n : Node.t) :
  unprotectedStep (map scrubNode nodes) edges s (scrubNode n)
  = unprotectedStep nodes edges s n.
Proof.
  unfold unprotectedStep. scrub_rw. scrub_simpl.
  rewrite !existsb_map_scrub; [reflexivity| |].
  all: intros; by rewrite ?nodeCategoryIn_scrub, ?nodeIsBattery_scrub.
Qed.

Lemma undersizedStep_scrub (s : Sim.t) (n : Node.t) :
  undersizedStep edges s (scrubNode n) = undersizedStep edges s n.
Proof. unfold undersizedStep. scrub_node n. reflexivity. Qed.

Lemma solarVocStep_scrub (s : Sim.t) (n : Node.t) :
  solarVocStep (map scrubNode nodes) edges s (scrubNode n)
  = solarVocStep nodes edges s n.
Proof.
  unfold solarVocStep. scrub_node n.
  erewrite fold_left_map_scrub; [reflexivity|].
  intros. scrub_rw. scrub_simpl. reflexivity.
Qed.

Lemma demandStep_scrub (nodeStates : gmap string NodeSim.t)
    (totals : Q * Q) (n : Node.t) :
  demandStep nodeStates totals (scrubNode n)
  = demandStep nodeStates totals n.
Proof. unfold demandStep. scrub_node n. reflexivity. Qed.

Lemma groundCheck_scrub (s : Sim.t) :
  groundCheck (map scrubNode nodes) s = groundCheck nodes s.
Proof.
  unfold groundCheck.
  rewrite !existsb_map_scrub; [reflexivity| |];
    intros; apply nodeCategoryIn_scrub.
Qed.

Lemma chargeRateStep_scrub (s : Sim.t) (n : Node.t) :
  chargeRateStep (map scrubNode nodes) edges s (scrubNode n)
  = chargeRateStep nodes edges s n.
Proof.
  unfold chargeRateStep. scrub_node n.
  erewrite fold_left_map_scrub; [reflexivity|].
  intros. scrub_rw. scrub_simpl. reflexivity.
Qed.

Lemma nearLimitStep_scrub (s : Sim.t) (n : Node.t) :
  nearLimitStep edges s (scrubNode n) = nearLimitStep edges s n.
Proof. unfold nearLimitStep. scrub_node n. reflexivity. Qed.

Lemma dischargeRateStep_scrub (s : Sim.t) (n : Node.t) :
  dischargeRateStep edges s (scrubNode n) = dischargeRateStep edges s n.
Proof. unfold dischargeRateStep. scrub_node n. reflexivity. Qed.

Lemma seriesVocStep_scrub (s : Sim.t) (n : Node.t) :
  seriesVocStep (map scrubNode nodes) edges s (scrubNode n)
  = seriesVocStep nodes edges s n.
Proof.
  unfold seriesVocStep. scrub_simpl. rewrite vocOf_scrub.
  destruct (Node.spec n) as [spec|]; [|done]. scrub_simpl. scrub_rw.
  erewrite fold_left_map_scrub; [reflexivity|].
  intros a m. scrub_simpl. destruct (Node.spec m); scrub_simpl; reflexivity.
Qed.

Lemma wireGaugeStep_scrub (s : Sim.t) (n : Node.t) :
  wireGaugeStep s (scrubNode n) = wireGaugeStep s n.
Proof. unfold wireGaugeStep. scrub_rw. reflexivity. Qed.

Lemma mismatchCheck_scrub (s : Sim.t) :
  mismatchCheck (map scrubNode nodes) s = mismatchCheck nodes s.
Proof.
  unfold mismatchCheck.
  rewrite (filter_map_scrub nodeIsBattery) by apply nodeIsBattery_scrub.
  rewrite (filter_map_scrub isHouseBattery) by apply isHouseBattery_scrub.
  rewrite length_map, map_map. reflexivity.
Qed.

Lemma directLithiumStep_scrub (s : Sim.t) (n : Node.t) :
  directLithiumStep (map scrubNode nodes) edges s (scrubNode n)
  = directLithiumStep nodes edges s n.
Proof.
  unfold directLithiumStep. scrub_rw. scrub_simpl.
  rewrite existsb_map_scrub by (intros; apply nodeTypeIn_scrub).
  erewrite fold_left_map_scrub; [reflexivity|].
  intros. scrub_rw. scrub_simpl. reflexivity.
Qed.

Lemma busLoadStep_scrub (s : Sim.t) (n : Node.t) :
  busLoadStep (map scrubNode nodes) edges s (scrubNode n)
  = busLoadStep nodes edges s n.
Proof.
  unfold busLoadStep. scrub_rw. scrub_simpl.
  rewrite sumActiveLoadCurrent_scrub. reflexivity.
Qed.

Lemma diagnostics_scrub (s : Sim.t) :
  diagnostics (map scrubNode nodes) edges environment s
  = diagnostics nodes edges environment s.
Proof.
  unfold diagnostics, demandTotals.
  rewrite (fold_left_map_scrub _ _ nodes wiringStep_scrub).
  rewrite (fold_left_map_scrub _ _ nodes batteryUseStep_scrub).
  rewrite (fold_left_map_scrub _ _ nodes unprotectedStep_scrub).
  rewrite (fold_left_map_scrub _ _ nodes undersizedStep_scrub).
  rewrite (fold_left_map_scrub _ _ nodes solarVocStep_scrub).
  rewrite (fold_left_map_scrub _ _ nodes (demandStep_scrub _)).
  rewrite groundCheck_scrub.
  rewrite (fold_left_map_scrub _ _ nodes chargeRateStep_scrub).
  rewrite (fold_left_map_scrub _ _ nodes nearLimitStep_scrub).
  rewrite (fold_left_map_scrub _ _ nodes dischargeRateStep_scrub).
  rewrite (fold_left_map_scrub _ _ nodes seriesVocStep_scrub).
  rewrite (fold_left_map_scrub _ _ nodes wireGaugeStep_scrub).
  rewrite mismatchCheck_scrub.
  rewrite (fold_left_map_scrub _ _ nodes directLithiumStep_scrub).
  rewrite (fold_left_map_scrub _ _ nodes busLoadStep_scrub).
  reflexivity.
Qed.

(** A tick on the diagram with every zero spec value and every zero
    override removed gives the result of the tick on the diagram. *)
Lemma runSimulation_scrub :
  runSimulation localeCompare (map scrubNode nodes) edges environment
                previousState deltaTime
  = runSimulation localeCompare nodes edges environment previousState
                  deltaTime.
Proof.
  unfold runSimulation, fourthPass, thirdPass, secondPass, firstPass.
  rewrite initialSim_scrub.
  rewrite (fold_left_map_scrub _ _ nodes sourceStep_scrub).
  rewrite (fold_left_map_scrub _ _ nodes chargerStep_scrub).
  rewrite (fold_left_map_scrub _ _ nodes passiveStep_scrub).
  rewrite (fold_left_map_scrub _ _ nodes batteryStep_scrub).
  rewrite diagnostics_scrub. reflexivity.
Qed.

End Scrubbed.

(** C10.  A value read through the [||] chain is taken from the next
    link when it is 0, as when it is absent.  The whole tick gives the
    same result on a diagram and on the diagram with every zero spec
    value and every zero override removed, so no zero entered by the user
    reaches the computation.  In particular a fuse whose rating override
    is 0 is simulated with the spec's rating, or with the 15 A default
    when the spec has none; a solar panel with wattage 0 produces like
    the 100 W default; a battery with capacity 0 is integrated like the
    100 Ah default; and on the diagram [zeroRatingNodes] the over-rated
    warning names 15 A. *)
Theorem C10_zero_override_falls_back
    (localeCompare : string -> string -> comparison)
    (nodes : list Node.t) (edges : list Edge.t) (environment : Env.t)
    (previousState : option Sys.t) (deltaTime : Q)
    (node : Node.t) (spec : Spec.t)
    (irradiance netCurrent currentSoC : Q)
    (previousStatus : option Status) :
  (forall z d, z == 0 -> or_num (Some z) d = or_num None d)
  /\ (forall o d, ~ d == 0 -> ~ or_num o d == 0)
  /\ runSimulation localeCompare (map scrubNode nodes) edges environment
                   previousState deltaTime
     = runSimulation localeCompare nodes edges environment previousState
                     deltaTime
  /\ (forall z, Custom.rating (Node.customValues node) = Some z ->
        z == 0 ->
        ratingOf node spec = or_num (Spec.rating spec) 15
        /\ (Spec.rating spec = None \/ Spec.rating spec = Some 0 ->
            ratingOf node spec = 15))
  /\ (forall z, Custom.wattage (Node.customValues node) = Some z ->
        z == 0 ->
        Out.power (calculateSolarOutput spec irradiance
                                        (Node.customValues node))
        = or_num (Spec.wattage spec) 100 * (irradiance / 1000)
        /\ (Spec.wattage spec = None \/ Spec.wattage spec = Some 0 ->
            Out.power (calculateSolarOutput spec irradiance
                                            (Node.customValues node))
            = 100 * (irradiance / 1000)))
  /\ (forall z, Custom.capacity (Node.customValues node) = Some z ->
        z == 0 ->
        Spec.capacity spec = None \/ Spec.capacity spec = Some 0 ->
        battCapacityOf node spec = 100
        /\ Batt.stateOfCharge
             (calculateBatteryState
                (Spec.withCapacity spec
                   (or_opt (Custom.capacity (Node.customValues node))
                           (Spec.capacity spec)))
                netCurrent currentSoC deltaTime previousStatus)
           = updateSoC 100 netCurrent currentSoC deltaTime)
  /\ In (overRatedWarning fuseZero 20 15)
        (Sys.warnings
           (runSimulation ordinalCompare zeroRatingNodes fusedEdges
                          DEFAULT_ENV None 1)).
Proof.
  split; [intros z d Hz; by apply or_num_falsy|].
  split; [apply or_num_nonzero|].
  split; [apply runSimulation_scrub|].
  split.
  { intros z Hr Hz. unfold ratingOf. rewrite Hr, (or_num_falsy _ _ Hz).
    split; [reflexivity|]. intros [-> | ->]; reflexivity. }
  split.
  { intros z Hw Hz. unfold calculateSolarOutput.
    rewrite Hw, (or_num_falsy _ _ Hz).
    split; [reflexivity|]. intros [-> | ->]; reflexivity. }
  split.
  { intros z Hc Hz Hs. unfold battCapacityOf, calculateBatteryState.
    rewrite Hc, (or_num_falsy _ _ Hz), (or_opt_falsy _ _ Hz).
    destruct Hs as [-> | ->]; split; reflexivity. }
  vm_compute. left. reflexivity.
Qed.

Lemma C10_zero_override_falls_back_witness :
  ratingOf fuseZero (Spec.bare Fuse Protection) = 15
  /\ runSimulation ordinalCompare (map scrubNode zeroRatingNodes) fusedEdges
                   DEFAULT_ENV None 1
     = runSimulation ordinalCompare zeroRatingNodes fusedEdges DEFAULT_ENV
                     None 1
  /\ In (overRatedWarning fuseZero 20 15)
        (Sys.warnings
           (runSimulation ordinalCompare zeroRatingNodes fusedEdges
                          DEFAULT_ENV None 1)).
Proof.
  destruct (C10_zero_override_falls_back ordinalCompare zeroRatingNodes
              fusedEdges DEFAULT_ENV None 1 fuseZero
              (Spec.bare Fuse Protection) 1000 0 80 None)
    as (_ & _ & Hscrub & Hrating & _ & _ & Hrun).
  split; [|split; [exact Hscrub|exact Hrun]].
  destruct (Hrating 0 eq_refl (Qeq_refl 0)) as [_ Hdefault].
  apply Hdefault. left. reflexivity.
Defined.

(** ** Determinism *)

Lemma fold_left_ext {A B : Type} (f g : A -> B -> A) (l : list B) :
  (forall a b, f a b = g a b) ->
  forall a, fold_left f l a = fold_left g l a.
Proof.
  intros H. induction l as [|x l IH]; intros a; simpl; [done|].
  by rewrite H, IH.
Qed.

Section History.

Variable localeCompare : string -> string -> comparison.
Variable nodes : list Node.t.
Variable edges : list Edge.t.
Variable environment : Env.t.
Variable deltaTime : Q.
Variables p p' : option Sys.t.
Hypothesis Hsame : sameHistory p p'.

Lemma sourceStep_history (s : Sim.t) (n : Node.t) :
  sourceStep nodes edges environment p s n
  = sourceStep nodes edges environment p' s n.
Proof.
  unfold sourceStep. destruct (Node.spec n) as [spec|]; [|done].
  destruct (negb _); [done|]. destruct (isBatteryType _); [|done].
  pose proof (Hsame (Node.id n)) as H. unfold persistentView in H.
  inversion H as [[H1 H2 H3]]. cbv zeta. by rewrite H1, H2.
Qed.

Lemma batteryStep_history (s : Sim.t) (n : Node.t) :
  batteryStep edges p deltaTime s n = batteryStep edges p' deltaTime s n.
Proof.
  unfold batteryStep, batteryEntry, battStateOf.
  destruct (Node.spec n) as [spec|]; [|done].
  destruct (negb _); [done|].
  pose proof (Hsame (Node.id n)) as H. unfold persistentView in H.
  inversion H as [[H1 H2 H3]]. cbv zeta. by rewrite H1, H3.
Qed.

(** X2.  Of the previous result a tick reads, per node, the state of
    charge, the voltage and the status, and nothing else: two previous
    results that agree on these give the same result. *)
Theorem X2_runSimulation_history :
  runSimulation localeCompare nodes edges environment p deltaTime
  = runSimulation localeCompare nodes edges environment p' deltaTime.
Proof.
  unfold runSimulation, fourthPass, firstPass.
  rewrite (fold_left_ext _ _ nodes sourceStep_history).
  set (s3 := thirdPass _ _ _).
  by rewrite (fold_left_ext _ _ nodes batteryStep_history).
Qed.

End History.

Lemma X2_runSimulation_history_witness :
  let tick1 :=
    runSimulation ordinalCompare chainNodes chainEdges engineOn None 1 in
  let stripped := Sys.mk 0 0 0 0 (Sys.nodes tick1) ∅ [] [] in
  runSimulation ordinalCompare chainNodes chainEdges engineOn (Some tick1)
                60
  = runSimulation ordinalCompare chainNodes chainEdges engineOn
                  (Some stripped) 60.
Proof.
  intros tick1 stripped.
  apply (X2_runSimulation_history ordinalCompare chainNodes chainEdges
           engineOn 60 (Some tick1) (Some stripped)).
  intros id. reflexivity.
Defined.

(** *** What a run reads *)

Section ReadSet.

Variables localeCompare localeCompare' : string -> string -> comparison.
Variable nodes : list Node.t.
Variable edges : list Edge.t.
Variables environment environment' : Env.t.
Hypothesis Hcollation : sameCollation nodes localeCompare localeCompare'.
Hypothesis Henv : envView environment = envView environment'.

Lemma envView_fields :
  Env.solarIrradiance environment = Env.solarIrradiance environment'
  /\ Env.engineRunning environment = Env.engineRunning environment'
  /\ Env.alternatorRPM environment = Env.alternatorRPM environment'.
Proof. unfold envView in Henv. by inversion Henv. Qed.

Lemma sourceStep_env (p : option Sys.t) (s : Sim.t) (n : Node.t) :
  sourceStep nodes edges environment p s n
  = sourceStep nodes edges environment' p s n.
Proof.
  destruct envView_fields as (H1 & H2 & H3).
  unfold sourceStep. by rewrite H1, H2, H3.
Qed.

Lemma wiringStep_env (s : Sim.t) (n : Node.t) :
  wiringStep nodes edges environment s n
  = wiringStep nodes edges environment' s n.
Proof.
  destruct envView_fields as (H1 & H2 & H3).
  unfold wiringStep. by rewrite H2.
Qed.

Lemma diagnostics_env (s : Sim.t) :
  diagnostics nodes edges environment s
  = diagnostics nodes edges environment' s.
Proof.
  unfold diagnostics.
  by rewrite (fold_left_ext _ _ nodes wiringStep_env).
Qed.

(** The batteries a charger gathers carry identifiers of the diagram. *)
Lemma gatherInput_known (nodeStates : gmap string NodeSim.t)
    (acc : Inputs.t) (n : Node.t) :
  In n nodes ->
  Forall (knownBattery nodes) (Inputs.connectedBatteries acc) ->
  Forall (knownBattery nodes)
         (Inputs.connectedBatteries (gatherInput nodeStates acc n)).
Proof.
  intros Hn Hacc. unfold gatherInput.
  destruct (nodeStates !! Node.id n) as [st|];
    repeat (match goal with
            | |- context [if ?b then _ else _] => destruct b
            end; simpl; try done).
  all: try (apply Forall_app; split; [done|];
            apply List.Forall_cons; [by exists n|apply List.Forall_nil]).
Qed.

Lemma fold_gatherInput_known (nodeStates : gmap string NodeSim.t)
    (l : list Node.t) (acc : Inputs.t) :
  Forall (fun n => In n nodes) l ->
  Forall (knownBattery nodes) (Inputs.connectedBatteries acc) ->
  Forall (knownBattery nodes)
         (Inputs.connectedBatteries
            (fold_left (gatherInput nodeStates) l acc)).
Proof.
  revert acc. induction l as [|n l IH]; intros acc Hl Hacc; [done|].
  inversion Hl; subst. simpl. apply IH; [done|].
  by apply gatherInput_known.
Qed.

Lemma insertById_collation (x : CB.t) (xs : list CB.t) :
  knownBattery nodes x -> Forall (knownBattery nodes) xs ->
  insertById localeCompare x xs = insertById localeCompare' x xs.
Proof.
  intros (n & Hn & Hx) Hxs.
  induction Hxs as [|y ys (m & Hm & Hy) Hys IH]; [done|].
  simpl. by rewrite Hx, Hy, (Hcollation n m Hn Hm), IH.
Qed.

Lemma insertById_known (c : string -> string -> comparison) (x : CB.t)
    (xs : list CB.t) :
  knownBattery nodes x -> Forall (knownBattery nodes) xs ->
  Forall (knownBattery nodes) (insertById c x xs).
Proof.
  intros Hx Hxs. induction Hxs as [|y ys Hy Hys IH]; simpl.
  - by apply List.Forall_cons.
  - destruct (c _ _); repeat (apply List.Forall_cons; try done).
Qed.

Lemma sortById_known (c : string -> string -> comparison) (xs : list CB.t) :
  Forall (knownBattery nodes) xs ->
  Forall (knownBattery nodes) (sortById c xs).
Proof.
  induction 1 as [|x xs Hx Hxs IH]; simpl; [done|].
  by apply insertById_known.
Qed.

Lemma sortById_collation (xs : list CB.t) :
  Forall (knownBattery nodes) xs ->
  sortById localeCompare xs = sortById localeCompare' xs.
Proof.
  induction 1 as [|x xs Hx Hxs IH]; simpl; [done|].
  rewrite IH. apply insertById_collation; [done|].
  by apply sortById_known.
Qed.

Lemma resolveRoles_collation (systemVoltage inputVoltage : Q)
    (connectedBatteries : list CB.t) :
  Forall (knownBattery nodes) connectedBatteries ->
  resolveRoles localeCompare systemVoltage inputVoltage connectedBatteries
  = resolveRoles localeCompare' systemVoltage inputVoltage
                 connectedBatteries.
Proof.
  intros H. unfold resolveRoles. by rewrite (sortById_collation _ H).
Qed.

Lemma chargerStep_env (s : Sim.t) (n : Node.t) :
  chargerStep localeCompare nodes edges environment s n
  = chargerStep localeCompare' nodes edges environment' s n.
Proof.
  destruct envView_fields as (H1 & H2 & H3).
  unfold chargerStep. rewrite H2.
  destruct (Node.spec n) as [spec|]; [|done].
  rewrite resolveRoles_collation; [done|].
  apply fold_gatherInput_known; [|apply List.Forall_nil].
  apply traceAllConnections_In.
Qed.

End ReadSet.

(** C1.  The result of [runSimulation] is a function of its arguments,
    and of no more than this part of them: the nodes, the edges, the
    length of the tick, the irradiance, the engine flag and the
    alternator speed of the environment, the state of charge, the
    voltage and the status of each node in the previous result, and the
    order in which the host collates the identifiers of the diagram.
    Two runs that agree on these return identical results: the same
    system voltage, totals, node states, connection states, warnings and
    errors.  Two runs on identical inputs are the special case, so that
    a tick that is run again gives the same result again. *)
Theorem C1_runSimulation_deterministic
    (localeCompare localeCompare' : string -> string -> comparison)
    (nodes : list Node.t) (edges : list Edge.t)
    (environment environment' : Env.t)
    (previousState previousState' : option Sys.t) (deltaTime : Q) :
  sameCollation nodes localeCompare localeCompare' ->
  envView environment = envView environment' ->
  sameHistory previousState previousState' ->
  let first :=
    runSimulation localeCompare nodes edges environment previousState
                  deltaTime in
  let second :=
    runSimulation localeCompare' nodes edges environment' previousState'
                  deltaTime in
  first = second
  /\ Sys.systemVoltage first = Sys.systemVoltage second
  /\ Sys.totalLoad first = Sys.totalLoad second
  /\ Sys.totalGeneration first = Sys.totalGeneration second
  /\ Sys.netPower first = Sys.netPower second
  /\ Sys.nodes first = Sys.nodes second
  /\ Sys.connections first = Sys.connections second
  /\ Sys.warnings first = Sys.warnings second
  /\ Sys.errors first = Sys.errors second.
Proof.
  intros Hcollation Henv Hhistory first second.
  assert (first = second) as ->; [|by repeat split].
  unfold first, second, runSimulation, fourthPass, secondPass, firstPass.
  rewrite (fold_left_ext _ _ nodes
             (sourceStep_history nodes edges environment _ _ Hhistory)).
  rewrite (fold_left_ext _ _ nodes
             (fun s n => sourceStep_env nodes edges _ _ Henv
                           previousState' s n)).
  rewrite (fold_left_ext _ _ nodes
             (chargerStep_env _ _ nodes edges _ _ Hcollation Henv)).
  set (s3 := thirdPass _ _ _).
  rewrite (fold_left_ext _ _ nodes
             (batteryStep_history edges deltaTime _ _ Hhistory)).
  by rewrite (diagnostics_env nodes edges _ _ Henv).
Qed.

(** The second tick of a run, and the same tick run again in a warmer
    place, on shore power, from a previous result of which only the node
    states are left. *)
Lemma C1_runSimulation_deterministic_witness :
  let tick1 :=
    runSimulation ordinalCompare chainNodes chainEdges engineOn None 1 in
  let stripped := Sys.mk 0 0 0 0 (Sys.nodes tick1) ∅ [] [] in
  let warmer :=
    Env.mk (Env.solarIrradiance engineOn) 40 (Env.engineRunning engineOn)
           (Env.alternatorRPM engineOn) true in
  runSimulation ordinalCompare chainNodes chainEdges engineOn (Some tick1)
                60
  = runSimulation ordinalCompare chainNodes chainEdges warmer
                  (Some stripped) 60.
Proof.
  intros tick1 stripped warmer.
  apply (C1_runSimulation_deterministic ordinalCompare ordinalCompare
           chainNodes chainEdges engineOn warmer (Some tick1)
           (Some stripped) 60).
  - intros a b _ _. reflexivity.
  - reflexivity.
  - intros id. reflexivity.
Defined.

(** ** What a trace reaches *)

Section Reachability.

Variable nodes : list Node.t.
Variable edges : list Edge.t.

Lemma getDirectConnections_In (p q : string) :
  In q (getDirectConnections edges p) <->
  exists e, In e edges
            /\ ((Edge.source e = p /\ Edge.target e = q)
                \/ (Edge.target e = p /\ Edge.source e = q)).
Proof.
  unfold getDirectConnections. rewrite in_flat_map. split.
  - intros (e & He & Hq). exists e. split; [done|].
    apply in_app_or in Hq as [Hq|Hq].
    + destruct (String.eqb_spec (Edge.source e) p) as [->|]; [|done].
      destruct Hq as [<-|[]]. by left.
    + destruct (String.eqb_spec (Edge.target e) p) as [->|]; [|done].
      destruct Hq as [<-|[]]. by right.
  - intros (e & He & [[<- <-]|[<- <-]]); exists e; (split; [done|]);
      apply in_or_app; rewrite String.eqb_refl; simpl; tauto.
Qed.

Lemma getDirectConnections_sym (p q : string) :
  In q (getDirectConnections edges p) -> In p (getDirectConnections edges q).
Proof.
  rewrite !getDirectConnections_In. intros (e & He & H).
  exists e. split; [done|]. tauto.
Qed.

Lemma passPath_snoc (p m : string) (n : Node.t) (q : string) :
  passPath nodes edges p m ->
  findNode nodes m = Some n -> isPassThrough n = true ->
  In q (getDirectConnections edges m) ->
  passPath nodes edges p q.
Proof.
  intros Hpm Hf Hn Hq. induction Hpm as [p m Hm|p m' n' m Hm' Hf' Hn' _ IH].
  - eapply passPath_through; [exact Hm|exact Hf|exact Hn|].
    by apply passPath_edge.
  - eapply passPath_through; [exact Hm'|exact Hf'|exact Hn'|].
    by apply IH.
Qed.

Lemma passPath_sym (p q : string) :
  passPath nodes edges p q -> passPath nodes edges q p.
Proof.
  induction 1 as [p q Hq|p m n q Hm Hf Hn _ IH].
  - apply passPath_edge. by apply getDirectConnections_sym.
  - eapply passPath_snoc; [exact IH|exact Hf|exact Hn|].
    by apply getDirectConnections_sym.
Qed.

(** *** What the trace finds lies on a pass-through path *)

Lemma traceEach_sound
    (rec : string -> gset string -> option (list Node.t * gset string)) :
  (forall c v r v', rec c v = Some (r, v') ->
     Forall (fun x => passPath nodes edges c (Node.id x)) r) ->
  forall conns v r v',
    traceEach (findNode nodes) rec conns v = Some (r, v') ->
    Forall (fun x =>
              exists c, In c conns
                /\ (Node.id x = c
                    \/ (passThroughId nodes c
                        /\ passPath nodes edges c (Node.id x)))) r.
Proof.
  intros Hrec. induction conns as [|c rest IH]; intros v r v' H; simpl in H.
  - inversion H; subst. constructor.
  - assert (forall r0,
              Forall (fun x =>
                exists c0, In c0 rest
                  /\ (Node.id x = c0
                      \/ (passThroughId nodes c0
                          /\ passPath nodes edges c0 (Node.id x)))) r0 ->
              Forall (fun x =>
                exists c0, In c0 (c :: rest)
                  /\ (Node.id x = c0
                      \/ (passThroughId nodes c0
                          /\ passPath nodes edges c0 (Node.id x)))) r0)
      as Hweak.
    { intros r0 Hr0. eapply Forall_impl; [exact Hr0|]. simpl.
      intros x (c0 & Hc0 & Hx). exists c0. split; [by right|done]. }
    case_bool_decide as Hc; [by eapply Hweak, IH|].
    destruct (findNode nodes c) as [n|] eqn:Hf; [|by eapply Hweak, IH].
    destruct (isPassThrough n) eqn:Hp.
    + destruct (rec c v) as [[r1 v1]|] eqn:Hr; [|done].
      destruct (traceEach _ rec rest v1) as [[r2 v2]|] eqn:He; [|done].
      inversion H; subst. apply Forall_app. split.
      * apply Hrec in Hr. eapply Forall_impl; [exact Hr|]. simpl.
        intros x Hx. exists c. split; [by left|]. right.
        split; [by exists n|done].
      * by eapply Hweak, IH.
    + destruct (traceEach _ rec rest _) as [[r2 v2]|] eqn:He; [|done].
      inversion H; subst. constructor.
      * exists c. split; [by left|]. left. by eapply findNode_id.
      * by eapply Hweak, IH.
Qed.

Lemma traceFrom_sound (fuel : nat) :
  forall s v r v',
    traceFrom nodes edges fuel s v = Some (r, v') ->
    Forall (fun x => passPath nodes edges s (Node.id x)) r.
Proof.
  induction fuel as [|fuel IH]; intros s v r v' H; simpl in H; [done|].
  case_bool_decide.
  - inversion H; subst. constructor.
  - apply traceEach_sound in H; [|exact IH].
    eapply Forall_impl; [exact H|]. simpl.
    intros x (c & Hc & [Hx|[(n & Hf & Hn) Hx]]).
    + rewrite Hx. by apply passPath_edge.
    + by eapply passPath_through.
Qed.

(** *** What the trace marks as visited *)

Lemma traceEach_accounted
    (rec : string -> gset string -> option (list Node.t * gset string)) :
  (forall c v r v', rec c v = Some (r, v') -> v ⊆ v') ->
  (forall c v r v', rec c v = Some (r, v') ->
     forall id, id ∈ v' -> id ∉ v ->
       id = c \/ passThroughId nodes id
       \/ exists n, findNode nodes id = Some n /\ In n r) ->
  forall conns v r v',
    traceEach (findNode nodes) rec conns v = Some (r, v') ->
    forall id, id ∈ v' -> id ∉ v ->
      passThroughId nodes id
      \/ exists n, findNode nodes id = Some n /\ In n r.
Proof.
  intros Hmono Hrec.
  induction conns as [|c rest IH]; intros v r v' H id Hin Hnot; simpl in H.
  - inversion H; subst. done.
  - case_bool_decide as Hc; [by eapply IH|].
    destruct (findNode nodes c) as [n|] eqn:Hf; [|by eapply IH].
    destruct (isPassThrough n) eqn:Hp.
    + destruct (rec c v) as [[r1 v1]|] eqn:Hr; [|done].
      destruct (traceEach _ rec rest v1) as [[r2 v2]|] eqn:He; [|done].
      inversion H; subst.
      destruct (decide (id ∈ v1)) as [Hv1|Hv1].
      * destruct (Hrec _ _ _ _ Hr id Hv1 Hnot) as [->|[Hpt|(m & Hm & Hmr)]].
        -- left. by exists n.
        -- by left.
        -- right. exists m. split; [done|]. apply in_or_app. by left.
      * destruct (IH _ _ _ He id Hin Hv1) as [Hpt|(m & Hm & Hmr)];
          [by left|].
        right. exists m. split; [done|]. apply in_or_app. by right.
    + destruct (traceEach _ rec rest _) as [[r2 v2]|] eqn:He; [|done].
      inversion H; subst.
      destruct (decide (id = c)) as [->|Hne].
      * right. exists n. split; [done|]. by left.
      * destruct (IH _ _ _ He id Hin) as [Hpt|(m & Hm & Hmr)];
          [set_solver|by left|].
        right. exists m. split; [done|]. by right.
Qed.

Lemma traceFrom_accounted (fuel : nat) :
  forall s v r v',
    traceFrom nodes edges fuel s v = Some (r, v') ->
    forall id, id ∈ v' -> id ∉ v ->
      id = s \/ passThroughId nodes id
      \/ exists n, findNode nodes id = Some n /\ In n r.
Proof.
  induction fuel as [|fuel IH]; intros s v r v' H id Hin Hnot; simpl in H;
    [done|].
  case_bool_decide.
  - inversion H; subst. done.
  - destruct (decide (id = s)) as [->|Hne]; [by left|]. right.
    eapply traceEach_accounted; [| |exact H|exact Hin|set_solver].
    + intros c v1 r1 v1' Hr. by apply traceFrom_traced in Hr as [? _].
    + exact IH.
Qed.

(** *** The visited set is closed under the edges of the nodes the trace
    expands *)

Lemma traceEach_closed
    (rec : string -> gset string -> option (list Node.t * gset string)) :
  (forall c v r v', rec c v = Some (r, v') -> v ⊆ v' /\ c ∈ v') ->
  (forall c v r v', rec c v = Some (r, v') ->
     forall p, p ∈ v' -> p ∉ v -> passThroughId nodes p ->
     forall q, In q (getDirectConnections edges p) ->
               is_Some (findNode nodes q) -> q ∈ v') ->
  forall conns v r v',
    traceEach (findNode nodes) rec conns v = Some (r, v') ->
    v ⊆ v'
    /\ (forall q, In q conns -> is_Some (findNode nodes q) -> q ∈ v')
    /\ (forall p, p ∈ v' -> p ∉ v -> passThroughId nodes p ->
        forall q, In q (getDirectConnections edges p) ->
                  is_Some (findNode nodes q) -> q ∈ v').
Proof.
  intros Hmono Hrec.
  induction conns as [|c rest IH]; intros v r v' H; simpl in H.
  - inversion H; subst. split; [done|]. split; [by intros ? []|done].
  - case_bool_decide as Hc.
    { destruct (IH _ _ _ H) as (A & B & C). split; [done|]. split; [|done].
      intros q [<-|Hq] Hfq; [set_solver|by apply B]. }
    destruct (findNode nodes c) as [n|] eqn:Hf.
    2:{ destruct (IH _ _ _ H) as (A & B & C). split; [done|].
        split; [|done].
        intros q [<-|Hq] Hfq; [|by apply B].
        rewrite Hf in Hfq. by destruct Hfq. }
    destruct (isPassThrough n) eqn:Hp.
    + destruct (rec c v) as [[r1 v1]|] eqn:Hr; [|done].
      destruct (traceEach _ rec rest v1) as [[r2 v2]|] eqn:He; [|done].
      inversion H; subst.
      destruct (Hmono _ _ _ _ Hr) as [M1 M2].
      destruct (IH _ _ _ He) as (A & B & C).
      split; [set_solver|]. split.
      * intros q [<-|Hq] Hfq; [set_solver|by apply B].
      * intros p Hin Hnot Hpt q Hq Hfq.
        destruct (decide (p ∈ v1)) as [Hv1|Hv1].
        -- apply A. by eapply (Hrec _ _ _ _ Hr p).
        -- by eapply (C p).
    + destruct (traceEach _ rec rest _) as [[r2 v2]|] eqn:He; [|done].
      inversion H; subst.
      destruct (IH _ _ _ He) as (A & B & C).
      split; [set_solver|]. split.
      * intros q [<-|Hq] Hfq; [set_solver|by apply B].
      * intros p Hin Hnot Hpt q Hq Hfq.
        destruct (decide (p = c)) as [->|Hne].
        -- destruct Hpt as (n' & Hf' & Hp'). congruence.
        -- eapply (C p); [done|set_solver|done|done|done].
Qed.

Lemma traceFrom_visits_start (fuel : nat) (s : string) (v : gset string)
    (r : list Node.t) (v' : gset string) :
  traceFrom nodes edges fuel s v = Some (r, v') -> v ⊆ v' /\ s ∈ v'.
Proof.
  intros H. pose proof (traceFrom_traced _ _ _ _ _ _ _ H) as [Hsub _].
  split; [done|]. destruct fuel as [|fuel]; simpl in H; [done|].
  case_bool_decide as Hs.
  - inversion H; subst. done.
  - apply traceEach_traced in H as [Hs' _]; [set_solver|].
    apply traceFrom_traced.
Qed.

Lemma traceFrom_closed (fuel : nat) :
  forall s v r v',
    traceFrom nodes edges fuel s v = Some (r, v') ->
    forall p, p ∈ v' -> p ∉ v -> (p = s \/ passThroughId nodes p) ->
    forall q, In q (getDirectConnections edges p) ->
              is_Some (findNode nodes q) -> q ∈ v'.
Proof.
  induction fuel as [|fuel IH]; intros s v r v' H p Hin Hnot Hp q Hq Hfq;
    simpl in H; [done|].
  case_bool_decide as Hs.
  - inversion H; subst. done.
  - apply traceEach_closed in H as (A & B & C).
    + destruct (decide (p = s)) as [->|Hne]; [by apply B|].
      destruct Hp as [->|Hp]; [done|].
      eapply (C p); [done|set_solver|done|done|done].
    + intros c v1 r1 v1' Hr. by eapply traceFrom_visits_start.
    + intros c v1 r1 v1' Hr p1 Hin1 Hnot1 Hpt1.
      eapply IH; [exact Hr|done|done|by right].
Qed.

(** Every node at the end of a pass-through path from the start is
    visited when the trace returns. *)
Lemma traceFrom_reaches (fuel : nat) (s : string) (r : list Node.t)
    (v' : gset string) :
  traceFrom nodes edges fuel s ∅ = Some (r, v') ->
  forall p q, passPath nodes edges p q ->
    p ∈ v' -> (p = s \/ passThroughId nodes p) ->
    is_Some (findNode nodes q) -> q ∈ v'.
Proof.
  intros H p q Hpq.
  induction Hpq as [p q Hq|p m n q Hm Hf Hn _ IH]; intros Hin Hp Hfq.
  - eapply traceFrom_closed; [exact H|exact Hin|set_solver|done|done|done].
  - apply IH; [|right; by exists n|done].
    eapply traceFrom_closed; [exact H|exact Hin|set_solver|done|done|].
    by rewrite Hf.
Qed.

(** The nodes a trace returns are exactly the real (not pass-through)
    nodes of the diagram, other than the start, that a pass-through path
    joins to the start. *)
Lemma traceAllConnections_spec (start : string) (x : Node.t) :
  In x (traceAllConnections nodes edges start) <->
  findNode nodes (Node.id x) = Some x
  /\ isPassThrough x = false
  /\ Node.id x ≠ start
  /\ passPath nodes edges start (Node.id x).
Proof.
  destruct (traceAllConnections_returns nodes edges start) as [v' H].
  set (res := traceAllConnections nodes edges start) in *. split.
  - intros Hx.
    pose proof (traceFrom_sound _ _ _ _ _ H) as Hs.
    rewrite Forall_forall in Hs.
    rewrite traceFrom_S in H.
    rewrite bool_decide_eq_false_2 in H by set_solver.
    apply traceEach_traced in H as (_ & Ht & _); [|apply traceFrom_traced].
    rewrite Forall_forall in Ht.
    destruct (Ht x) as (A & B & C & _); [by apply list_elem_of_In|].
    split; [done|]. split; [done|]. split; [set_solver|].
    apply Hs. by apply list_elem_of_In.
  - intros (Hf & Hp & Hne & Hpath).
    assert (Node.id x ∈ v') as Hin.
    { eapply traceFrom_reaches; [exact H|exact Hpath| |by left|by rewrite Hf].
      by eapply traceFrom_visits_start. }
    destruct (traceFrom_accounted _ _ _ _ _ H (Node.id x) Hin)
      as [Heq|[(n & Hn & Hpn)|(n & Hn & Hr)]]; [set_solver|done| |].
    + congruence.
    + congruence.
Qed.

End Reachability.

(** X6.  A trace returns exactly the nodes of the diagram that are not
    pass-through, are not the start itself, and are joined to the start
    by a chain of edges whose inner nodes are all pass-through nodes:
    nothing else is returned, and nothing that such a chain reaches is
    missed, whatever the order of the edges. *)
Theorem X6_trace_is_pass_through_reachability (nodes : list Node.t)
    (edges : list Edge.t) (start : string) (x : Node.t) :
  In x (traceAllConnections nodes edges start) <->
  findNode nodes (Node.id x) = Some x
  /\ isPassThrough x = false
  /\ Node.id x ≠ start
  /\ passPath nodes edges start (Node.id x).
Proof. apply traceAllConnections_spec. Qed.

(** X7.  Tracing is symmetric between two real (not pass-through) nodes
    of the diagram: the trace from the first returns the second exactly
    when the trace from the second returns the first. *)
Theorem X7_trace_symmetric (nodes : list Node.t) (edges : list Edge.t)
    (a b : Node.t) :
  findNode nodes (Node.id a) = Some a -> isPassThrough a = false ->
  findNode nodes (Node.id b) = Some b -> isPassThrough b = false ->
  (In b (traceAllConnections nodes edges (Node.id a)) <->
   In a (traceAllConnections nodes edges (Node.id b))).
Proof.
  intros Ha Hpa Hb Hpb. rewrite !traceAllConnections_spec.
  split; intros (_ & _ & Hne & Hpath);
    (split; [done|]); (split; [done|]); (split; [congruence|]);
    by apply passPath_sym.
Qed.

Lemma X7_trace_symmetric_witness :
  In load20 (traceAllConnections loadFirstNodes fusedEdges "battery-1")
  <-> In houseBattery
        (traceAllConnections loadFirstNodes fusedEdges "load-1").
Proof.
  apply (X7_trace_symmetric loadFirstNodes fusedEdges houseBattery load20);
    reflexivity.
Defined.

(** ** Wire sizing *)

Lemma Qleb_le (x y : Q) : Qleb x y = true <-> x <= y.
Proof. apply Qle_bool_iff. Qed.

Lemma Qgeb_ge (x y : Q) : Qgeb x y = true <-> y <= x.
Proof. apply Qle_bool_iff. Qed.

Lemma Qgtb_gt (x y : Q) : Qgtb x y = true <-> y < x.
Proof. apply Qltb_lt. Qed.

Lemma Qleb_gt (x y : Q) : Qleb x y = false <-> y < x.
Proof.
  unfold Qleb. split.
  - intros H. apply Qnot_le_lt. intros Hle.
    apply Qle_bool_iff in Hle. congruence.
  - intros H. destruct (Qle_bool x y) eqn:E; [|done].
    apply Qle_bool_iff in E. lra.
Qed.

Lemma WIRE_GAUGES_sorted : StronglySorted gaugeOrder WIRE_GAUGES.
Proof.
  unfold WIRE_GAUGES.
  repeat (apply SSorted_cons;
          [|repeat (apply List.Forall_cons;
                    [split; [by vm_compute|split; by vm_compute]|]);
            apply List.Forall_nil]).
  apply SSorted_nil.
Qed.

Lemma WIRE_GAUGES_found :
  Forall (fun w => findGauge (Wire.awg w) = Some w
                   /\ Wire.awg w ≠ ""
                   /\ ~ Wire.maxCurrent10Percent w == 0) WIRE_GAUGES.
Proof.
  unfold WIRE_GAUGES.
  repeat (apply List.Forall_cons;
          [split; [reflexivity|split; by vm_compute]|]).
  apply List.Forall_nil.
Qed.

Lemma findGauge_In (awg : string) (w : Wire.t) :
  findGauge awg = Some w -> In w WIRE_GAUGES /\ Wire.awg w = awg.
Proof.
  unfold findGauge. intros H. apply List.find_some in H as [H1 H2].
  split; [done|]. by apply String.eqb_eq.
Qed.

Lemma findGauge_of_table (w : Wire.t) :
  In w WIRE_GAUGES -> findGauge (Wire.awg w) = Some w.
Proof.
  intros H. pose proof WIRE_GAUGES_found as F. rewrite Forall_forall in F.
  apply list_elem_of_In in H. by destruct (F w H).
Qed.

Lemma StronglySorted_filter_keeps {A : Type} (R : A -> A -> Prop)
    (p : A -> bool) (l : list A) :
  StronglySorted R l -> StronglySorted R (List.filter p l).
Proof.
  induction 1 as [|a l Hl IH Ha]; simpl; [constructor|].
  destruct (p a); [|done]. constructor; [done|].
  rewrite Forall_forall in *. intros x Hx. apply Ha.
  apply list_elem_of_In in Hx. apply filter_In in Hx as [Hx _].
  by apply list_elem_of_In.
Qed.

(** A list that the comparator already orders is left as it is. *)
Lemma sortBy_sorted {A : Type} (compare : A -> A -> Z) (l : list A) :
  StronglySorted (fun a b => (compare a b <= 0)%Z) l ->
  sortBy compare l = l.
Proof.
  induction 1 as [|a l Hl IH Ha]; [done|].
  unfold sortBy in *. simpl. rewrite IH.
  destruct l as [|b l]; [done|]. simpl.
  apply Forall_cons in Ha as [Hab _].
  apply Z.leb_le in Hab. by rewrite Hab.
Qed.

Lemma StronglySorted_weaken {A : Type} (R R' : A -> A -> Prop)
    (l : list A) :
  (forall a b, R a b -> R' a b) ->
  StronglySorted R l -> StronglySorted R' l.
Proof.
  intros HR. induction 1 as [|a l Hl IH Ha]; constructor; [done|].
  eapply Forall_impl; [exact Ha|]. simpl. auto.
Qed.

(** The sort of [recommendWireGauge] never moves a gauge: the table
    lists the gauges thinnest first. *)
Lemma suitable_sorted (p : Wire.t -> bool) :
  sortBy thinnerFirst (List.filter p WIRE_GAUGES)
  = List.filter p WIRE_GAUGES.
Proof.
  apply sortBy_sorted. apply StronglySorted_filter_keeps.
  eapply StronglySorted_weaken; [|exact WIRE_GAUGES_sorted].
  by intros a b [H _].
Qed.

Lemma recommendWireGauge_allSuitable
    (current lengthFeet systemVoltage maxDropPercent : Q) :
  GaugeChoice.allSuitable
    (recommendWireGauge current lengthFeet systemVoltage maxDropPercent)
  = List.filter
      (withinDrop current lengthFeet systemVoltage maxDropPercent)
      WIRE_GAUGES.
Proof. unfold recommendWireGauge. simpl. apply suitable_sorted. Qed.

Lemma withinDrop_le (current lengthFeet systemVoltage maxDropPercent : Q)
    (wire : Wire.t) :
  withinDrop current lengthFeet systemVoltage maxDropPercent wire = true
  <-> Drop.percentDrop
        (calculateVoltageDrop current lengthFeet (Wire.awg wire)
                              systemVoltage) <= maxDropPercent.
Proof. unfold withinDrop. apply Qleb_le. Qed.

(** The head of the suitable gauges is their thinnest. *)
Lemma filter_head_thinnest (p : Wire.t -> bool) (wire : Wire.t)
    (rest : list Wire.t) :
  List.filter p WIRE_GAUGES = wire :: rest ->
  In wire WIRE_GAUGES /\ p wire = true
  /\ Forall (fun w => In w WIRE_GAUGES /\ p w = true) rest
  /\ forall other, In other WIRE_GAUGES -> p other = true ->
                   Wire.mmSq wire <= Wire.mmSq other.
Proof.
  intros H.
  assert (forall w, In w (wire :: rest) <-> In w WIRE_GAUGES /\ p w = true)
    as Hin by (intros w; rewrite <- H; apply filter_In).
  pose proof (StronglySorted_filter_keeps gaugeOrder p _ WIRE_GAUGES_sorted)
    as Hs.
  rewrite H in Hs. apply StronglySorted_inv in Hs as [_ Hs].
  rewrite Forall_forall in Hs.
  destruct (proj1 (Hin wire) (or_introl eq_refl)) as [Hw Hp].
  split; [done|]. split; [done|]. split.
  - rewrite Forall_forall. intros w Hw'. apply Hin. right.
    by apply list_elem_of_In.
  - intros other Ho Hpo.
    destruct (proj2 (Hin other) (conj Ho Hpo)) as [<-|Hr]; [lra|].
    apply list_elem_of_In, Hs in Hr as (_ & Hlt & _). lra.
Qed.

Lemma recommendWireGauge_head
    (current lengthFeet systemVoltage maxDropPercent : Q) :
  let choice :=
    recommendWireGauge current lengthFeet systemVoltage maxDropPercent in
  match List.filter
          (withinDrop current lengthFeet systemVoltage maxDropPercent)
          WIRE_GAUGES with
  | [] =>
      GaugeChoice.recommended choice = "4/0"
      /\ GaugeChoice.alternative choice = None
  | wire :: rest =>
      GaugeChoice.recommended choice = Wire.awg wire
      /\ GaugeChoice.alternative choice = Wire.awg <$> head rest
  end.
Proof.
  unfold recommendWireGauge. cbn [GaugeChoice.recommended
    GaugeChoice.alternative]. rewrite suitable_sorted.
  destruct (List.filter _ WIRE_GAUGES) as [|wire rest] eqn:E; [done|].
  apply filter_head_thinnest in E as (Hw & Hp & Hrest & Hmin).
  pose proof WIRE_GAUGES_found as F. rewrite Forall_forall in F. split.
  - simpl. destruct (F wire) as (_ & Hne & _); [by apply list_elem_of_In|].
    apply String.eqb_neq in Hne. by rewrite Hne.
  - destruct rest as [|second rest]; [done|]. simpl.
    apply Forall_cons in Hrest as [[Hs _] _].
    destruct (F second) as (_ & Hne & _); [by apply list_elem_of_In|].
    apply String.eqb_neq in Hne. by rewrite Hne.
Qed.

Lemma or_num_Some (x d : Q) : ~ x == 0 -> or_num (Some x) d = x.
Proof.
  intros H. unfold or_num, truthy.
  destruct (Qeq_bool x 0) eqn:E; [|done].
  apply Qeq_bool_iff in E. done.
Qed.

(** X8.  For a positive system voltage, [recommendWireGauge] keeps
    exactly the gauges of the table whose voltage drop is within the
    limit, in the order of the table.  When there is one, it recommends
    the thinnest of them (no gauge of smaller cross-section is within
    the limit) and names the next one as the alternative; when there is
    none it answers 4/0 with no alternative. *)
Theorem X8_recommendWireGauge_thinnest_adequate
    (current lengthFeet systemVoltage maxDropPercent : Q) :
  0 < systemVoltage ->
  let choice :=
    recommendWireGauge current lengthFeet systemVoltage maxDropPercent in
  let percentDrop := fun wire : Wire.t =>
    Drop.percentDrop
      (calculateVoltageDrop current lengthFeet (Wire.awg wire)
                            systemVoltage) in
  GaugeChoice.allSuitable choice
  = List.filter (withinDrop current lengthFeet systemVoltage maxDropPercent)
                WIRE_GAUGES
  /\ (forall wire, In wire (GaugeChoice.allSuitable choice) <->
                   In wire WIRE_GAUGES /\ percentDrop wire <= maxDropPercent)
  /\ match GaugeChoice.allSuitable choice with
     | [] =>
         GaugeChoice.recommended choice = "4/0"
         /\ GaugeChoice.alternative choice = None
     | wire :: rest =>
         GaugeChoice.recommended choice = Wire.awg wire
         /\ GaugeChoice.alternative choice = Wire.awg <$> head rest
         /\ forall other,
              In other WIRE_GAUGES -> percentDrop other <= maxDropPercent ->
              Wire.mmSq wire <= Wire.mmSq other
     end.
Proof.
  intros _ choice percentDrop. subst choice percentDrop.
  rewrite recommendWireGauge_allSuitable. split; [done|]. split.
  - intros wire. rewrite filter_In. by rewrite withinDrop_le.
  - pose proof (recommendWireGauge_head current lengthFeet systemVoltage
                  maxDropPercent) as H. cbv zeta in H.
    destruct (List.filter _ WIRE_GAUGES) as [|wire rest] eqn:E; [done|].
    destruct H as [H1 H2]. split; [done|]. split; [done|].
    apply filter_head_thinnest in E as (_ & _ & _ & Hmin).
    intros other Ho Hd. apply Hmin; [done|]. by apply withinDrop_le.
Qed.

Lemma X8_recommendWireGauge_thinnest_adequate_witness :
  GaugeChoice.allSuitable (recommendWireGauge 10 20 12 3)
  = List.filter (withinDrop 10 20 12 3) WIRE_GAUGES
  /\ GaugeChoice.recommended (recommendWireGauge 10 20 12 3) = "8".
Proof.
  destruct (X8_recommendWireGauge_thinnest_adequate 10 20 12 3)
    as (E & _ & _); [by vm_compute|].
  split; [exact E|by vm_compute].
Defined.

Lemma calculateVoltageDrop_of_table (current lengthFeet systemVoltage : Q)
    (w : Wire.t) :
  In w WIRE_GAUGES ->
  calculateVoltageDrop current lengthFeet (Wire.awg w) systemVoltage
  = let voltageDrop :=
      (lengthFeet * 2 * current * Wire.resistance w) / 1000 in
    let percentDrop := (voltageDrop / systemVoltage) * 100 in
    Drop.mk voltageDrop percentDrop (Qleb percentDrop 10).
Proof.
  intros H. unfold calculateVoltageDrop. by rewrite findGauge_of_table.
Qed.

Lemma thicker_less_resistance (w w' : Wire.t) :
  In w WIRE_GAUGES -> In w' WIRE_GAUGES ->
  Wire.mmSq w <= Wire.mmSq w' -> Wire.resistance w' <= Wire.resistance w.
Proof.
  assert (forallb (fun a =>
            forallb (fun b =>
              implb (Qle_bool (Wire.mmSq a) (Wire.mmSq b))
                    (Qle_bool (Wire.resistance b) (Wire.resistance a)))
              WIRE_GAUGES) WIRE_GAUGES = true) as H by (by vm_compute).
  intros Hw Hw' Hle. rewrite forallb_forall in H.
  specialize (H w Hw). rewrite forallb_forall in H. specialize (H w' Hw').
  apply Qle_bool_iff in Hle. rewrite Hle in H. by apply Qle_bool_iff.
Qed.

(** X9.  For a current and a length that are not negative and a
    positive system voltage, a gauge of larger cross-section never drops
    more voltage than a thinner one; so every gauge thicker than a
    suitable one is suitable too. *)
Theorem X9_thicker_gauge_never_drops_more
    (current lengthFeet systemVoltage maxDropPercent : Q)
    (wire thicker : Wire.t) :
  0 <= current -> 0 <= lengthFeet -> 0 < systemVoltage ->
  In wire WIRE_GAUGES -> In thicker WIRE_GAUGES ->
  Wire.mmSq wire <= Wire.mmSq thicker ->
  let drop := fun w : Wire.t =>
    calculateVoltageDrop current lengthFeet (Wire.awg w) systemVoltage in
  Drop.voltageDrop (drop thicker) <= Drop.voltageDrop (drop wire)
  /\ Drop.percentDrop (drop thicker) <= Drop.percentDrop (drop wire)
  /\ (In wire
         (GaugeChoice.allSuitable
            (recommendWireGauge current lengthFeet systemVoltage
                                maxDropPercent)) ->
      In thicker
         (GaugeChoice.allSuitable
            (recommendWireGauge current lengthFeet systemVoltage
                                maxDropPercent))).
Proof.
  intros Hc Hl Hv Hw Ht Hmm drop. subst drop.
  pose proof (thicker_less_resistance _ _ Hw Ht Hmm) as Hr.
  assert (Drop.voltageDrop
            (calculateVoltageDrop current lengthFeet (Wire.awg thicker)
                                  systemVoltage)
          <= Drop.voltageDrop
               (calculateVoltageDrop current lengthFeet (Wire.awg wire)
                                     systemVoltage)) as Hvd.
  { rewrite !calculateVoltageDrop_of_table by done. simpl.
    unfold Qdiv. apply Qmult_le_compat_r; [|by vm_compute].
    rewrite (Qmult_comm _ (Wire.resistance thicker)),
            (Qmult_comm _ (Wire.resistance wire)).
    apply Qmult_le_compat_r; [done|].
    apply Qmult_le_0_compat; [|done].
    apply Qmult_le_0_compat; [done|by vm_compute]. }
  assert (Drop.percentDrop
            (calculateVoltageDrop current lengthFeet (Wire.awg thicker)
                                  systemVoltage)
          <= Drop.percentDrop
               (calculateVoltageDrop current lengthFeet (Wire.awg wire)
                                     systemVoltage)) as Hpd.
  { revert Hvd. rewrite !calculateVoltageDrop_of_table by done. simpl.
    intros Hvd. apply Qmult_le_compat_r; [|by vm_compute].
    unfold Qdiv at 1 3. apply Qmult_le_compat_r; [done|].
    apply Qinv_le_0_compat. lra. }
  split; [done|]. split; [done|].
  rewrite recommendWireGauge_allSuitable, !filter_In, !withinDrop_le.
  intros [_ Hd]. split; [done|]. lra.
Qed.

Lemma X9_thicker_gauge_never_drops_more_witness :
  Drop.percentDrop (calculateVoltageDrop 10 20 "10" 12)
  <= Drop.percentDrop (calculateVoltageDrop 10 20 "14" 12)
  /\ In (Wire.mk "10" 5.26 15 50 0.999)
        (GaugeChoice.allSuitable (recommendWireGauge 10 20 12 10)).
Proof.
  destruct (X9_thicker_gauge_never_drops_more 10 20 12 10
              (Wire.mk "14" 2.08 6 20 2.525) (Wire.mk "10" 5.26 15 50 0.999))
    as (_ & H2 & H3).
  - by vm_compute.
  - by vm_compute.
  - by vm_compute.
  - simpl. tauto.
  - simpl. tauto.
  - by vm_compute.
  - split; [exact H2|]. apply H3. vm_compute. tauto.
Defined.

(** X10.  The wire recommendation of the properties panel always names
    a gauge of the table: its voltage drop is the one computed for that
    gauge and its fuse is sized against that gauge's capacity.  The drop
    shown is within 3 % exactly when some gauge of the table is; when
    none is, the panel still shows 4/0, with a drop above 3 %. *)
Theorem X10_WireRecommendation_shows_table_gauge (current length : Q) :
  let advice := WireRecommendation current length in
  let percentDrop := fun wire : Wire.t =>
    Drop.percentDrop
      (calculateVoltageDrop current length (Wire.awg wire) 12) in
  (exists wire,
      In wire WIRE_GAUGES
      /\ WireAdvice.recommended advice = Wire.awg wire
      /\ WireAdvice.percentDrop advice = percentDrop wire
      /\ FuseChoice.wireCapacity
           (recommendFuse current (WireAdvice.recommended advice))
         = Wire.maxCurrent10Percent wire)
  /\ (WireAdvice.percentDrop advice <= 3 <->
      exists wire, In wire WIRE_GAUGES /\ percentDrop wire <= 3)
  /\ ((forall wire, In wire WIRE_GAUGES -> 3 < percentDrop wire) ->
      WireAdvice.recommended advice = "4/0"
      /\ WireAdvice.alternative advice = None
      /\ 3 < WireAdvice.percentDrop advice).
Proof.
  intros advice percentDrop.
  pose proof (recommendWireGauge_head current length 12 3) as H.
  cbv zeta in H.
  assert (forall wire, In wire WIRE_GAUGES ->
            WireAdvice.recommended advice = Wire.awg wire ->
            WireAdvice.percentDrop advice = percentDrop wire
            /\ FuseChoice.wireCapacity
                 (recommendFuse current (WireAdvice.recommended advice))
               = Wire.maxCurrent10Percent wire) as Hrow.
  { intros wire Hw Hrec. split.
    - subst advice percentDrop. unfold WireRecommendation in *.
      cbn [WireAdvice.recommended WireAdvice.percentDrop] in *.
      by rewrite Hrec.
    - rewrite Hrec. unfold recommendFuse. rewrite findGauge_of_table by done.
      pose proof WIRE_GAUGES_found as F. rewrite Forall_forall in F.
      destruct (F wire) as (_ & _ & Hnz); [by apply list_elem_of_In|].
      change (Wire.maxCurrent10Percent <$> Some wire)
        with (Some (Wire.maxCurrent10Percent wire)).
      rewrite (or_num_Some _ _ Hnz).
      by destruct (firstFit _ _) as [[? ?]|]. }
  set (last := Wire.mk "4/0" 107 300 600 0.049).
  assert (In last WIRE_GAUGES) as Hlast by (simpl; tauto).
  destruct (List.filter _ WIRE_GAUGES) as [|wire rest] eqn:E.
  - destruct H as [H1 H2].
    assert (forall wire, In wire WIRE_GAUGES -> 3 < percentDrop wire) as Hall.
    { intros wire Hw. apply Qleb_gt.
      destruct (withinDrop current length 12 3 wire) eqn:Hwd; [|done].
      assert (In wire (List.filter (withinDrop current length 12 3)
                                   WIRE_GAUGES)) as Hin
        by (by apply filter_In).
      rewrite E in Hin. done. }
    destruct (Hrow last Hlast H1) as [Hp Hc].
    split; [by exists last|]. split.
    + split.
      * intros Hle. specialize (Hall last Hlast). rewrite Hp in Hle. lra.
      * intros (wire & Hw & Hle). specialize (Hall wire Hw). lra.
    + intros _. split; [done|]. split; [done|]. rewrite Hp. by apply Hall.
  - destruct H as [H1 H2].
    apply filter_head_thinnest in E as (Hw & Hp & _ & _).
    destruct (Hrow wire Hw H1) as [Hpd Hc].
    apply withinDrop_le in Hp.
    split; [by exists wire|]. split.
    + split; [intros _; by exists wire|]. intros _. by rewrite Hpd.
    + intros Hall. specialize (Hall wire Hw). exfalso.
      change (percentDrop wire <= 3) in Hp. lra.
Qed.

Lemma X10_WireRecommendation_shows_table_gauge_witness :
  WireAdvice.recommended (WireRecommendation 1000 100) = "4/0"
  /\ WireAdvice.alternative (WireRecommendation 1000 100) = None
  /\ 3 < WireAdvice.percentDrop (WireRecommendation 1000 100).
Proof.
  apply (X10_WireRecommendation_shows_table_gauge 1000 100).
  intros wire Hw. simpl in Hw.
  repeat (destruct Hw as [<-|Hw]; [by vm_compute|]). done.
Defined.

(** ** Fuse and breaker sizing *)

Lemma firstFit_Some (fits : Q -> bool) (ratings : list Q) (r n : Q) :
  firstFit fits ratings = Some (r, n) ->
  exists before after,
    ratings = before ++ r :: after
    /\ Forall (fun s => fits s = false) before
    /\ fits r = true
    /\ n = or_num (head after) r.
Proof.
  induction ratings as [|x rest IH]; simpl; [done|].
  destruct (fits x) eqn:E.
  - intros H. inversion H; subst. by exists [], rest.
  - intros H. destruct (IH H) as (before & after & -> & Hb & Hr & Hn).
    exists (x :: before), after. split; [done|]. split; [|done].
    by constructor.
Qed.

Lemma firstFit_None (fits : Q -> bool) (ratings : list Q) :
  firstFit fits ratings = None <-> Forall (fun s => fits s = false) ratings.
Proof.
  induction ratings as [|x rest IH]; simpl.
  - split; [constructor|done].
  - destruct (fits x) eqn:E.
    + split; [done|]. intros H. apply Forall_cons in H as [H _]. congruence.
    + rewrite IH. split; [by constructor|].
      intros H. by apply Forall_cons in H as [_ H].
Qed.

Lemma StronglySorted_middle {A : Type} (R : A -> A -> Prop)
    (before : list A) (x : A) (after : list A) :
  StronglySorted R (before ++ x :: after) -> Forall (R x) after.
Proof.
  induction before as [|b before IH]; simpl; intros H.
  - by apply StronglySorted_inv in H as [_ H].
  - apply StronglySorted_inv in H as [H _]. by apply IH.
Qed.

Lemma STANDARD_BREAKER_RATINGS_sorted :
  StronglySorted Qlt STANDARD_BREAKER_RATINGS
  /\ Forall (fun r => 0 < r <= 200) STANDARD_BREAKER_RATINGS.
Proof.
  unfold STANDARD_BREAKER_RATINGS. split.
  - repeat (apply SSorted_cons;
            [|repeat (apply List.Forall_cons; [by vm_compute|]);
              apply List.Forall_nil]).
    apply SSorted_nil.
  - repeat (apply List.Forall_cons; [split; by vm_compute|]).
    apply List.Forall_nil.
Qed.

Lemma STANDARD_FUSE_RATINGS_sorted :
  StronglySorted Qlt STANDARD_FUSE_RATINGS
  /\ Forall (fun r => 0 < r) STANDARD_FUSE_RATINGS.
Proof.
  unfold STANDARD_FUSE_RATINGS. split.
  - repeat (apply SSorted_cons;
            [|repeat (apply List.Forall_cons; [by vm_compute|]);
              apply List.Forall_nil]).
    apply SSorted_nil.
  - repeat (apply List.Forall_cons; [by vm_compute|]).
    apply List.Forall_nil.
Qed.

(** In a table of positive ratings in growing order, the first rating
    that fits is followed by a rating of the table that is not
    smaller. *)
Lemma firstFit_sorted (fits : Q -> bool) (ratings : list Q) (r n : Q) :
  StronglySorted Qlt ratings -> Forall (fun s => 0 < s) ratings ->
  firstFit fits ratings = Some (r, n) ->
  In r ratings /\ fits r = true /\ In n ratings /\ r <= n
  /\ forall s, In s ratings -> fits s = true -> r <= s.
Proof.
  intros Hs Hpos H.
  apply firstFit_Some in H as (before & after & -> & Hb & Hr & ->).
  pose proof (StronglySorted_middle _ _ _ _ Hs) as Hafter.
  rewrite Forall_forall in Hb, Hafter, Hpos.
  split; [apply in_or_app; right; by left|]. split; [done|].
  assert (In (or_num (head after) r) (before ++ r :: after)
          /\ r <= or_num (head after) r) as [Hin Hle].
  { destruct after as [|a after].
    - simpl. split; [apply in_or_app; right; by left|lra].
    - assert (0 < a) as Ha.
      { apply Hpos, list_elem_of_In, in_or_app. right. right. by left. }
      change (head (a :: after)) with (Some a).
      rewrite or_num_Some by lra. split.
      + apply in_or_app. right. right. by left.
      + apply Qlt_le_weak, Hafter. by left. }
  split; [done|]. split; [done|].
  intros s Hs' Hfit. apply in_app_or in Hs' as [Hs'|[<-|Hs']].
  - apply list_elem_of_In, Hb in Hs'. congruence.
  - lra.
  - apply Qlt_le_weak, Hafter. by apply list_elem_of_In.
Qed.

(** X11.  For a load whose 125 % does not exceed 200 A,
    [recommendBreaker] returns the smallest standard breaker of at least
    125 % of the load, and a next size from the table that is not
    smaller. *)
Theorem X11_recommendBreaker_smallest_sufficient (loadCurrent : Q) :
  loadCurrent * 1.25 <= 200 ->
  let choice := recommendBreaker loadCurrent in
  In (BreakerChoice.recommended choice) STANDARD_BREAKER_RATINGS
  /\ loadCurrent * 1.25 <= BreakerChoice.recommended choice
  /\ (forall rating,
        In rating STANDARD_BREAKER_RATINGS ->
        loadCurrent * 1.25 <= rating ->
        BreakerChoice.recommended choice <= rating)
  /\ In (BreakerChoice.nextSize choice) STANDARD_BREAKER_RATINGS
  /\ BreakerChoice.recommended choice <= BreakerChoice.nextSize choice.
Proof.
  intros Hload choice. subst choice. unfold recommendBreaker.
  destruct STANDARD_BREAKER_RATINGS_sorted as [Hs Hb].
  destruct (firstFit _ STANDARD_BREAKER_RATINGS) as [[r n]|] eqn:E.
  - apply firstFit_sorted in E as (H1 & H2 & H3 & H4 & H5); [|done|].
    + simpl. apply Qgeb_ge in H2. repeat split; try done.
      intros rating Hr Hle. apply H5; [done|]. by apply Qgeb_ge.
    + eapply Forall_impl; [exact Hb|]. simpl. tauto.
  - apply firstFit_None in E. rewrite Forall_forall in E.
    assert (Qgeb 200 (loadCurrent * 1.25) = false) as Hno.
    { apply E, list_elem_of_In. unfold STANDARD_BREAKER_RATINGS. simpl.
      tauto. }
    apply Qgeb_ge in Hload. congruence.
Qed.

Lemma X11_recommendBreaker_smallest_sufficient_witness :
  30 * 1.25 <= 200
  /\ 30 * 1.25 <= BreakerChoice.recommended (recommendBreaker 30)
  /\ BreakerChoice.recommended (recommendBreaker 30) <= 40.
Proof.
  assert (30 * 1.25 <= 200) as H by (by vm_compute).
  destruct (X11_recommendBreaker_smallest_sufficient 30 H)
    as (_ & H2 & H3 & _).
  split; [exact H|]. split; [exact H2|].
  apply H3; [|by vm_compute]. unfold STANDARD_BREAKER_RATINGS. simpl. tauto.
Defined.

(** X12.  For a load whose 125 % exceeds the largest standard breaker
    (200 A), [recommendBreaker] falls back to the first two ratings of
    the table: it recommends 5 A, with 10 A as the next size. *)
Theorem X12_recommendBreaker_beyond_the_table (loadCurrent : Q) :
  200 < loadCurrent * 1.25 ->
  recommendBreaker loadCurrent = BreakerChoice.mk 5 10.
Proof.
  intros Hload. unfold recommendBreaker.
  destruct STANDARD_BREAKER_RATINGS_sorted as [_ Hb].
  destruct (firstFit _ STANDARD_BREAKER_RATINGS) as [[r n]|] eqn:E; [|done].
  apply firstFit_Some in E as (before & after & Heq & _ & Hr & _).
  rewrite Forall_forall in Hb.
  destruct (Hb r) as [_ Hle].
  { apply list_elem_of_In. rewrite Heq. apply in_or_app. right. by left. }
  apply Qgeb_ge in Hr. lra.
Qed.

Lemma X12_recommendBreaker_beyond_the_table_witness :
  200 < 170 * 1.25 /\ recommendBreaker 170 = BreakerChoice.mk 5 10.
Proof.
  assert (200 < 170 * 1.25) as H by (by vm_compute).
  split; [exact H|]. exact (X12_recommendBreaker_beyond_the_table 170 H).
Defined.

Lemma recommendFuse_wireCapacity (loadCurrent : Q) (wireGauge : string) :
  FuseChoice.wireCapacity (recommendFuse loadCurrent wireGauge)
  = or_num (Wire.maxCurrent10Percent <$> findGauge wireGauge)
           (loadCurrent * 1.5).
Proof.
  unfold recommendFuse. by destruct (firstFit _ _) as [[? ?]|].
Qed.

(** X13.  When some standard fuse lies between 125 % of the load and the
    capacity of the wire, [recommendFuse] returns the smallest such fuse,
    and a next size from the table that is not smaller. *)
Theorem X13_recommendFuse_smallest_in_window (loadCurrent : Q)
    (wireGauge : string) :
  let choice := recommendFuse loadCurrent wireGauge in
  let wireCapacity := FuseChoice.wireCapacity choice in
  (exists rating,
      In rating STANDARD_FUSE_RATINGS
      /\ loadCurrent * 1.25 <= rating /\ rating <= wireCapacity) ->
  In (FuseChoice.recommended choice) STANDARD_FUSE_RATINGS
  /\ loadCurrent * 1.25 <= FuseChoice.recommended choice
  /\ FuseChoice.recommended choice <= wireCapacity
  /\ (forall rating,
        In rating STANDARD_FUSE_RATINGS ->
        loadCurrent * 1.25 <= rating -> rating <= wireCapacity ->
        FuseChoice.recommended choice <= rating)
  /\ In (FuseChoice.nextSize choice) STANDARD_FUSE_RATINGS
  /\ FuseChoice.recommended choice <= FuseChoice.nextSize choice.
Proof.
  intros choice wireCapacity. subst choice wireCapacity.
  rewrite recommendFuse_wireCapacity. unfold recommendFuse.
  set (cap := or_num _ _). intros (rating & Hin & Hlo & Hhi).
  destruct STANDARD_FUSE_RATINGS_sorted as [Hs Hpos].
  destruct (firstFit _ STANDARD_FUSE_RATINGS) as [[r n]|] eqn:E.
  - apply firstFit_sorted in E as (H1 & H2 & H3 & H4 & H5); [|done|done].
    simpl. apply andb_true_iff in H2 as [H2 H2'].
    apply Qgeb_ge in H2. apply Qleb_le in H2'.
    repeat split; try done.
    intros s Hs' Hlo' Hhi'. apply H5; [done|].
    apply andb_true_iff. split; [by apply Qgeb_ge|by apply Qleb_le].
  - apply firstFit_None in E. rewrite Forall_forall in E.
    specialize (E rating (proj2 (list_elem_of_In _ _) Hin)). simpl in E.
    apply andb_false_iff in E as [E|E].
    + apply Qgeb_ge in Hlo. congruence.
    + apply Qleb_le in Hhi. congruence.
Qed.

Lemma X13_recommendFuse_smallest_in_window_witness :
  FuseChoice.wireCapacity (recommendFuse 10 "14") = 20
  /\ 10 * 1.25 <= FuseChoice.recommended (recommendFuse 10 "14")
  /\ FuseChoice.recommended (recommendFuse 10 "14") <= 15.
Proof.
  split; [reflexivity|].
  destruct (X13_recommendFuse_smallest_in_window 10 "14")
    as (_ & H2 & _ & H4 & _).
  - exists 15. split; [unfold STANDARD_FUSE_RATINGS; simpl; tauto|].
    split; by vm_compute.
  - split; [exact H2|]. apply H4.
    + unfold STANDARD_FUSE_RATINGS. simpl. tauto.
    + by vm_compute.
    + by vm_compute.
Defined.

(** X14.  When no standard fuse of at least 125 % of the load is within
    the capacity of the wire, [recommendFuse] falls back to the first
    two ratings of the table: it recommends 1 A, with 2 A as the next
    size. *)
Theorem X14_recommendFuse_without_fit (loadCurrent : Q)
    (wireGauge : string) :
  let choice := recommendFuse loadCurrent wireGauge in
  let wireCapacity := FuseChoice.wireCapacity choice in
  (forall rating,
      In rating STANDARD_FUSE_RATINGS ->
      loadCurrent * 1.25 <= rating -> wireCapacity < rating) ->
  FuseChoice.recommended choice = 1 /\ FuseChoice.nextSize choice = 2.
Proof.
  intros choice wireCapacity. subst choice wireCapacity.
  rewrite recommendFuse_wireCapacity. unfold recommendFuse.
  set (cap := or_num _ _). intros Hnone.
  destruct (firstFit _ STANDARD_FUSE_RATINGS) as [[r n]|] eqn:E; [|done].
  apply firstFit_Some in E as (before & after & Heq & _ & Hr & _).
  apply andb_true_iff in Hr as [H1 H2].
  apply Qgeb_ge in H1. apply Qleb_le in H2.
  specialize (Hnone r). rewrite Heq in Hnone.
  assert (cap < r) by (apply Hnone; [apply in_or_app; right; by left|done]).
  lra.
Qed.

Lemma X14_recommendFuse_without_fit_witness :
  FuseChoice.wireCapacity (recommendFuse 30 "18") = 8
  /\ FuseChoice.recommended (recommendFuse 30 "18") = 1
  /\ FuseChoice.nextSize (recommendFuse 30 "18") = 2.
Proof.
  split; [reflexivity|].
  apply (X14_recommendFuse_without_fit 30 "18").
  intros rating Hin. unfold STANDARD_FUSE_RATINGS in Hin. simpl in Hin.
  change (FuseChoice.wireCapacity (recommendFuse 30 "18")) with 8.
  intros Hle.
  repeat (destruct Hin as [<-|Hin];
          [first [by vm_compute | exfalso; revert Hle; by vm_compute]|]).
  done.
Defined.

(** ** Load budget *)

Lemma calculateTotalLoad_fold (loads : list LoadItem.t) (p w : Q) :
  let step := fun '(peakCurrent, weightedCurrent) load =>
    (peakCurrent + LoadItem.current load,
     weightedCurrent
     + LoadItem.current load * or_num (LoadItem.dutyCycle load) 1) in
  fst (fold_left step loads (p, w))
  == p + fst (fold_left step loads (0, 0))
  /\ snd (fold_left step loads (p, w))
     == w + snd (fold_left step loads (0, 0)).
Proof.
  intros step. revert p w.
  induction loads as [|l loads IH]; intros p w; simpl.
  - split; ring.
  - destruct (IH (p + LoadItem.current l)
                 (w + LoadItem.current l
                      * or_num (LoadItem.dutyCycle l) 1)) as [A B].
    destruct (IH (0 + LoadItem.current l)
                 (0 + LoadItem.current l
                      * or_num (LoadItem.dutyCycle l) 1)) as [C D].
    rewrite A, B, C, D. split; ring.
Qed.

Lemma calculateTotalLoad_cons (l : LoadItem.t) (loads : list LoadItem.t) :
  TotalLoad.peakCurrent (calculateTotalLoad (l :: loads))
  == LoadItem.current l + TotalLoad.peakCurrent (calculateTotalLoad loads)
  /\ TotalLoad.averageCurrent (calculateTotalLoad (l :: loads))
     == LoadItem.current l * or_num (LoadItem.dutyCycle l) 1
        + TotalLoad.averageCurrent (calculateTotalLoad loads).
Proof.
  unfold calculateTotalLoad. simpl.
  pose proof (calculateTotalLoad_fold loads (0 + LoadItem.current l)
                (0 + LoadItem.current l
                     * or_num (LoadItem.dutyCycle l) 1)) as H.
  cbv zeta in H.
  destruct (fold_left _ loads (0 + _, _)) as [p1 w1].
  destruct (fold_left _ loads (0, 0)) as [p0 w0].
  simpl in *. destruct H as [-> ->]. split; ring.
Qed.

Lemma calculateTotalLoad_dailyAh (loads : list LoadItem.t) :
  TotalLoad.dailyAh (calculateTotalLoad loads)
  = TotalLoad.averageCurrent (calculateTotalLoad loads) * 8.
Proof.
  unfold calculateTotalLoad. by destruct (fold_left _ loads (0, 0)).
Qed.

(** X15.  In the budget of [calculateTotalLoad] the daily consumption
    is 8 hours of the average current.  With currents that are not
    negative and duty cycles within [0,1] the average is between 0 and
    the peak.  A duty cycle of 0 counts as 1: when every duty cycle is
    absent, 0 or 1 the average is the peak. *)
Theorem X15_calculateTotalLoad_budget (loads : list LoadItem.t) :
  let total := calculateTotalLoad loads in
  TotalLoad.dailyAh total == 8 * TotalLoad.averageCurrent total
  /\ (Forall (fun load =>
                0 <= LoadItem.current load
                /\ match LoadItem.dutyCycle load with
                   | Some d => 0 <= d <= 1
                   | None => True
                   end) loads ->
      0 <= TotalLoad.averageCurrent total
      /\ TotalLoad.averageCurrent total <= TotalLoad.peakCurrent total)
  /\ (Forall (fun load =>
                match LoadItem.dutyCycle load with
                | Some d => d == 0 \/ d == 1
                | None => True
                end) loads ->
      TotalLoad.averageCurrent total == TotalLoad.peakCurrent total).
Proof.
  intros total. subst total.
  assert (TotalLoad.peakCurrent (calculateTotalLoad []) == 0
          /\ TotalLoad.averageCurrent (calculateTotalLoad []) == 0)
    as [P0 A0] by (split; reflexivity).
  split; [|split].
  - rewrite calculateTotalLoad_dailyAh. ring.
  - induction 1 as [|l loads [Hc Hd] Hrest IH].
    + rewrite P0, A0. lra.
    + destruct (calculateTotalLoad_cons l loads) as [-> ->].
      assert (0 <= or_num (LoadItem.dutyCycle l) 1 <= 1) as [D0 D1].
      { unfold or_num. destruct (LoadItem.dutyCycle l) as [d|]; [|lra].
        destruct (truthy d); lra. }
      assert (0 <= LoadItem.current l * or_num (LoadItem.dutyCycle l) 1)
        by (by apply Qmult_le_0_compat).
      assert (LoadItem.current l * or_num (LoadItem.dutyCycle l) 1
              <= LoadItem.current l * 1)
        by (rewrite !(Qmult_comm (LoadItem.current l));
            by apply Qmult_le_compat_r).
      lra.
  - induction 1 as [|l loads Hd Hrest IH].
    + by rewrite P0, A0.
    + destruct (calculateTotalLoad_cons l loads) as [-> ->].
      assert (or_num (LoadItem.dutyCycle l) 1 == 1) as ->.
      { unfold or_num, truthy. destruct (LoadItem.dutyCycle l) as [d|]; [|done].
        destruct (Qeq_bool d 0) eqn:E; [done|].
        destruct Hd as [Hd|Hd]; [|done].
        apply Qeq_bool_iff in Hd. congruence. }
      rewrite IH. ring.
Qed.

Lemma X15_calculateTotalLoad_budget_witness :
  TotalLoad.averageCurrent
    (calculateTotalLoad [LoadItem.mk 10 (Some 0.5); LoadItem.mk 4 (Some 0)])
  <= TotalLoad.peakCurrent
       (calculateTotalLoad [LoadItem.mk 10 (Some 0.5); LoadItem.mk 4 (Some 0)]).
Proof.
  destruct (X15_calculateTotalLoad_budget
              [LoadItem.mk 10 (Some 0.5); LoadItem.mk 4 (Some 0)])
    as (_ & H & _).
  apply H. repeat (apply List.Forall_cons; [split; by vm_compute|]).
  apply List.Forall_nil.
Defined.

(** ** Circuit validation *)

(** X16.  [validateCircuit] reports a circuit as valid exactly when the
    gauge is in the table, the voltage drop at 12 V is at most 10 %, the
    load does not exceed the capacity of the wire and the fuse is not
    below the load; it is valid exactly when it has no error.  For a
    gauge that is not in the table it returns the single error
    "Unknown wire gauge" and no warning. *)
Theorem X16_validateCircuit_valid_iff (loadCurrent : Q) (wireGauge : string)
    (fuseRating wireLengthFeet : Q) :
  let result :=
    validateCircuit loadCurrent wireGauge fuseRating wireLengthFeet in
  (Validation.isValid result = true <->
   exists wire,
     In wire WIRE_GAUGES /\ Wire.awg wire = wireGauge
     /\ Drop.percentDrop
          (calculateVoltageDrop loadCurrent wireLengthFeet wireGauge 12)
        <= 10
     /\ loadCurrent <= Wire.maxCurrent10Percent wire
     /\ loadCurrent <= fuseRating)
  /\ (Validation.isValid result = true <-> Validation.errors result = [])
  /\ ((forall wire, In wire WIRE_GAUGES -> Wire.awg wire ≠ wireGauge) ->
      Validation.warnings result = []
      /\ Validation.errors result
         = [[Lit "Unknown wire gauge: "; Lit wireGauge]]).
Proof.
  intros result. subst result. unfold validateCircuit.
  destruct (findGauge wireGauge) as [wireSpec|] eqn:Hf.
  - destruct (findGauge_In _ _ Hf) as [Hin Hawg].
    set (pd := Drop.percentDrop _).
    assert (forall wire, In wire WIRE_GAUGES -> Wire.awg wire = wireGauge ->
                         wire = wireSpec) as Huniq.
    { intros wire Hw Ha. apply findGauge_of_table in Hw.
      rewrite Ha, Hf in Hw. congruence. }
    unfold Qgtb.
    destruct (Qltb_spec 10 pd) as [H10|H10];
      [|destruct (Qltb_spec 3 pd) as [H3|H3]];
      destruct (Qltb_spec (Wire.maxCurrent10Percent wireSpec) loadCurrent)
        as [Hcap|Hcap];
      destruct (Qltb_spec fuseRating loadCurrent) as [Hfuse|Hfuse];
      destruct (Qltb_spec (Wire.maxCurrent10Percent wireSpec) fuseRating)
        as [Hw|Hw];
      cbn [app isEmptyList Validation.isValid Validation.errors
           Validation.warnings];
      (split; [split; [try done|
                       intros (wire & Hwi & Ha & Hd & Hc & Hfu);
                       rewrite (Huniq wire Hwi Ha) in *; try lra]
              |split; [try done|
                       intros Hnone; by destruct (Hnone wireSpec Hin)]]);
      try (intros _; exists wireSpec; repeat split; try done; lra).
  - split; [|split; [done|done]]. split; [done|].
    intros (wire & Hwi & Ha & _). apply findGauge_of_table in Hwi.
    rewrite Ha in Hwi. congruence.
Qed.

Lemma X16_validateCircuit_valid_iff_witness :
  Validation.warnings (validateCircuit 10 "13" 15 10) = []
  /\ Validation.errors (validateCircuit 10 "13" 15 10)
     = [[Lit "Unknown wire gauge: "; Lit "13"]].
Proof.
  apply (X16_validateCircuit_valid_iff 10 "13" 15 10).
  intros wire Hw. simpl in Hw.
  repeat (destruct Hw as [<-|Hw]; [by vm_compute|]). done.
Defined.

(** ** Bank and array sizing *)

Lemma ceil_bounds (x : Q) : x <= ceil x /\ ceil x < x + 1.
Proof.
  unfold ceil. split; [apply Qle_ceiling|].
  pose proof (Qceiling_lt x) as H.
  unfold Z.sub in H. rewrite inject_Z_plus, inject_Z_opp in H.
  change (inject_Z 1) with 1 in H. lra.
Qed.

Lemma ceil_least (x : Q) (z : Z) : x <= inject_Z z -> ceil x <= inject_Z z.
Proof.
  intros H. unfold ceil. rewrite <- Zle_Qle.
  apply Qceiling_resp_le in H. by rewrite Qceiling_Z in H.
Qed.

Lemma ceil_mono (x y : Q) : x <= y -> ceil x <= ceil y.
Proof.
  intros H. unfold ceil. rewrite <- Zle_Qle. by apply Qceiling_resp_le.
Qed.

(** X17.  For a daily consumption and a number of days that are not
    negative and a positive depth of discharge, the minimum capacity of
    [calculateBatteryBank], discharged to that depth, covers the days of
    autonomy; the recommended capacity covers 120 % of them and is not
    below the minimum. *)
Theorem X17_calculateBatteryBank_covers_autonomy
    (dailyAh daysAutonomy depthOfDischarge systemVoltage : Q) :
  0 <= dailyAh -> 0 <= daysAutonomy -> 0 < depthOfDischarge ->
  let bank :=
    calculateBatteryBank dailyAh daysAutonomy depthOfDischarge
                         systemVoltage in
  dailyAh * daysAutonomy
  <= Bank.minimumCapacity bank * (depthOfDischarge / 100)
  /\ Bank.minimumCapacity bank <= Bank.recommendedCapacity bank
  /\ 1.2 * (dailyAh * daysAutonomy)
     <= Bank.recommendedCapacity bank * (depthOfDischarge / 100).
Proof.
  intros Hd Hn Hdod bank. subst bank. unfold calculateBatteryBank.
  cbn [Bank.minimumCapacity Bank.recommendedCapacity].
  set (exact := dailyAh * daysAutonomy / (depthOfDischarge / 100)).
  assert (0 < depthOfDischarge / 100) as Hfrac.
  { unfold Qdiv. apply Qmult_lt_0_compat; [done|by vm_compute]. }
  assert (0 <= dailyAh * daysAutonomy) as Hneed
    by (by apply Qmult_le_0_compat).
  assert (exact * (depthOfDischarge / 100) == dailyAh * daysAutonomy)
    as Hex.
  { unfold exact. field. intros E. rewrite E in Hfrac. lra. }
  assert (0 <= exact) as Hex0.
  { unfold exact. unfold Qdiv at 1. apply Qmult_le_0_compat; [done|].
    apply Qinv_le_0_compat. lra. }
  destruct (ceil_bounds exact) as [Hc1 Hc2].
  destruct (ceil_bounds (exact * 1.2)) as [Hr1 Hr2].
  split; [|split].
  - rewrite <- Hex. apply Qmult_le_compat_r; [done|lra].
  - apply ceil_mono. lra.
  - assert (1.2 * (dailyAh * daysAutonomy)
            == exact * 1.2 * (depthOfDischarge / 100)) as ->
      by (rewrite <- Hex; ring).
    apply Qmult_le_compat_r; [done|lra].
Qed.

Lemma X17_calculateBatteryBank_covers_autonomy_witness :
  80 * 2 <= Bank.minimumCapacity (calculateBatteryBank 80 2 50 12) * (50 / 100)
  /\ Bank.minimumCapacity (calculateBatteryBank 80 2 50 12)
     <= Bank.recommendedCapacity (calculateBatteryBank 80 2 50 12).
Proof.
  destruct (X17_calculateBatteryBank_covers_autonomy 80 2 50 12)
    as (H1 & H2 & _); [by vm_compute|by vm_compute|by vm_compute|].
  split; [exact H1|exact H2].
Defined.

(** X18.  For a daily consumption that is not negative and positive sun
    hours and efficiency, the minimum wattage of
    [calculateSolarRequirements] yields the daily consumption at 12 V,
    the recommended wattage yields 125 % of it and is not below the
    minimum, and the number of 100 W panels covers the recommended
    wattage. *)
Theorem X18_calculateSolarRequirements_covers_demand
    (dailyAh peakSunHours systemEfficiency : Q) :
  0 <= dailyAh -> 0 < peakSunHours -> 0 < systemEfficiency ->
  let need :=
    calculateSolarRequirements dailyAh peakSunHours systemEfficiency in
  dailyAh * 12
  <= SolarNeed.minimumWatts need * (peakSunHours * systemEfficiency)
  /\ 1.25 * (dailyAh * 12)
     <= SolarNeed.recommendedWatts need * (peakSunHours * systemEfficiency)
  /\ SolarNeed.minimumWatts need <= SolarNeed.recommendedWatts need
  /\ SolarNeed.recommendedWatts need <= SolarNeed.panelCount100W need * 100.
Proof.
  intros Hd Hs He need. subst need. unfold calculateSolarRequirements.
  cbn [SolarNeed.minimumWatts SolarNeed.recommendedWatts
       SolarNeed.panelCount100W].
  set (exact := dailyAh * 12 / (peakSunHours * systemEfficiency)).
  assert (0 < peakSunHours * systemEfficiency) as Hden
    by (by apply Qmult_lt_0_compat).
  assert (exact * (peakSunHours * systemEfficiency) == dailyAh * 12) as Hex.
  { unfold exact. rewrite Qmult_comm. apply Qmult_div_r. lra. }
  assert (0 <= exact) as Hex0.
  { unfold exact. unfold Qdiv. apply Qmult_le_0_compat; [lra|].
    apply Qinv_le_0_compat. lra. }
  clearbody exact.
  destruct (ceil_bounds exact) as [Hc1 _].
  destruct (ceil_bounds (exact * 1.25)) as [Hr1 _].
  destruct (ceil_bounds (exact * 1.25 / 100)) as [Hp1 _].
  split; [|split; [|split]].
  - rewrite <- Hex. apply Qmult_le_compat_r; [done|lra].
  - assert (1.25 * (dailyAh * 12)
            == exact * 1.25 * (peakSunHours * systemEfficiency)) as ->
      by (rewrite <- Hex; ring).
    apply Qmult_le_compat_r; [done|lra].
  - apply ceil_mono. lra.
  - unfold ceil in Hp1 |- *.
    set (count := Qceiling (exact * 1.25 / 100)) in *.
    assert (exact * 1.25 <= inject_Z (count * 100)) as Hle.
    { rewrite inject_Z_mult. change (inject_Z 100) with 100.
      clearbody count. revert Hp1. generalize (inject_Z count).
      intros q Hq. unfold Qdiv in Hq. clear - Hq.
      assert (/ 100 == 0.01) as E by reflexivity. rewrite E in Hq. lra. }
    apply ceil_least in Hle. unfold ceil in Hle.
    rewrite inject_Z_mult in Hle. exact Hle.
Qed.

Lemma X18_calculateSolarRequirements_covers_demand_witness :
  100 * 12
  <= SolarNeed.minimumWatts (calculateSolarRequirements 100 5 0.75)
     * (5 * 0.75)
  /\ SolarNeed.recommendedWatts (calculateSolarRequirements 100 5 0.75)
     <= SolarNeed.panelCount100W (calculateSolarRequirements 100 5 0.75)
        * 100.
Proof.
  destruct (X18_calculateSolarRequirements_covers_demand 100 5 0.75)
    as (H1 & _ & _ & H4); [by vm_compute|by vm_compute|by vm_compute|].
  split; [exact H1|exact H4].
Defined.

(** ** Coulomb counting *)

Lemma clamp_cases (lo hi x : Q) :
  lo <= hi ->
  (x <= lo /\ Qmax lo (Qmin hi x) == lo)
  \/ (lo <= x <= hi /\ Qmax lo (Qmin hi x) == x)
  \/ (hi <= x /\ Qmax lo (Qmin hi x) == hi).
Proof.
  intros Hlh.
  destruct (Q.min_spec hi x) as [[H1 E1]|[H1 E1]];
    destruct (Q.max_spec lo (Qmin hi x)) as [[H2 E2]|[H2 E2]];
    rewrite E1 in *; rewrite E2.
  - right. right. split; [lra|reflexivity].
  - right. right. split; lra.
  - destruct (Qlt_le_dec x lo).
    + lra.
    + right. left. split; [lra|reflexivity].
  - left. split; [lra|reflexivity].
Qed.

Lemma updateSoC_cases (capacity netCurrent currentSoC deltaTime : Q) :
  let rate := netCurrent / 3600 / capacity * 100 in
  let next := currentSoC + rate * deltaTime in
  let soc := updateSoC capacity netCurrent currentSoC deltaTime in
  (next <= 0 /\ soc == 0) \/ (0 <= next <= 100 /\ soc == next)
  \/ (100 <= next /\ soc == 100).
Proof.
  intros rate next soc. subst soc. unfold updateSoC.
  assert (currentSoC + netCurrent * deltaTime / 3600 / capacity * 100
          == next) as E by (unfold next, rate, Qdiv; ring).
  destruct (clamp_cases 0 100
              (currentSoC + netCurrent * deltaTime / 3600 / capacity * 100))
    as [[H1 H2]|[[H1 H2]|[H1 H2]]]; [lra| | |]; rewrite E in H1.
  - left. by split.
  - right. left. split; [done|]. by rewrite <- E.
  - right. right. by split.
Qed.

Lemma rate_sign (capacity netCurrent : Q) :
  0 < capacity ->
  let rate := netCurrent / 3600 / capacity * 100 in
  (0 <= netCurrent -> 0 <= rate) /\ (netCurrent <= 0 -> rate <= 0).
Proof.
  intros Hc rate. subst rate.
  assert (0 < / capacity) as Hinv by (by apply Qinv_lt_0_compat).
  assert (netCurrent / 3600 / capacity * 100
          == netCurrent * (/ capacity * (100 / 3600))) as E
    by (unfold Qdiv; ring).
  assert (0 < / capacity * (100 / 3600)) as Hk.
  { apply Qmult_lt_0_compat; [done|by vm_compute]. }
  rewrite E. split; intros H.
  - apply Qmult_le_0_compat; lra.
  - assert (0 <= (- netCurrent) * (/ capacity * (100 / 3600)))
      by (apply Qmult_le_0_compat; lra).
    assert (- netCurrent * (/ capacity * (100 / 3600))
            == - (netCurrent * (/ capacity * (100 / 3600)))) as E' by ring.
    rewrite E' in H0. lra.
Qed.

(** X19.  For a battery of positive capacity, a tick that is not of
    negative length and a state of charge within [0,100]: a net current
    that is not negative never lowers the state of charge, one that is
    not positive never raises it, and a zero net current leaves it as it
    was. *)
Theorem X19_charge_direction (spec : Spec.t)
    (netCurrent currentSoC deltaTime : Q) (previousState : option Status) :
  0 < or_num (Spec.capacity spec) 100 -> 0 <= deltaTime ->
  0 <= currentSoC <= 100 ->
  let soc :=
    Batt.stateOfCharge
      (calculateBatteryState spec netCurrent currentSoC deltaTime
                             previousState) in
  (0 <= netCurrent -> currentSoC <= soc)
  /\ (netCurrent <= 0 -> soc <= currentSoC)
  /\ (netCurrent == 0 -> soc == currentSoC).
Proof.
  intros Hcap Hdt [Hlo Hhi] soc. subst soc. unfold calculateBatteryState.
  cbn [Batt.stateOfCharge].
  set (capacity := or_num (Spec.capacity spec) 100) in *.
  destruct (rate_sign capacity netCurrent Hcap) as [Hpos Hneg].
  pose proof (updateSoC_cases capacity netCurrent currentSoC deltaTime)
    as Hcases. cbv zeta in *.
  set (rate := netCurrent / 3600 / capacity * 100) in *.
  set (soc := updateSoC capacity netCurrent currentSoC deltaTime) in *.
  clearbody soc.
  assert (0 <= netCurrent -> 0 <= rate * deltaTime) as Hup
    by (intros H; apply Qmult_le_0_compat; auto).
  assert (netCurrent <= 0 -> rate * deltaTime <= 0) as Hdown.
  { intros H. specialize (Hneg H).
    assert (0 <= (- rate) * deltaTime)
      by (apply Qmult_le_0_compat; lra).
    assert (- rate * deltaTime == - (rate * deltaTime)) as E by ring.
    rewrite E in H0. lra. }
  clearbody rate. revert Hup Hdown Hcases.
  generalize (rate * deltaTime). intros step Hup Hdown Hcases.
  split; [|split].
  - intros H. specialize (Hup H). lra.
  - intros H. specialize (Hdown H). lra.
  - intros H. assert (0 <= netCurrent) as H1 by lra.
    assert (netCurrent <= 0) as H2 by lra.
    specialize (Hup H1). specialize (Hdown H2). lra.
Qed.

Lemma X19_charge_direction_witness :
  50 <= Batt.stateOfCharge
          (calculateBatteryState (Spec.bare Battery PowerSource) 10 50 3600
                                 None).
Proof.
  destruct (X19_charge_direction (Spec.bare Battery PowerSource) 10 50 3600
              None) as (H & _).
  - by vm_compute.
  - by vm_compute.
  - split; by vm_compute.
  - apply H. by vm_compute.
Defined.

(** X20.  A longer tick goes further in the same direction: for a
    battery of positive capacity, from the same state of charge and
    under the same net current, the state of charge after the longer of
    two ticks is not below the one after the shorter when the current
    is not negative, and not above it when the current is not
    positive. *)
Theorem X20_longer_tick_goes_further (spec : Spec.t)
    (netCurrent currentSoC shorter longer : Q) (st st' : option Status) :
  0 < or_num (Spec.capacity spec) 100 -> shorter <= longer ->
  let after := fun deltaTime previous =>
    Batt.stateOfCharge
      (calculateBatteryState spec netCurrent currentSoC deltaTime
                             previous) in
  (0 <= netCurrent -> after shorter st <= after longer st')
  /\ (netCurrent <= 0 -> after longer st' <= after shorter st).
Proof.
  intros Hcap Hdt after. subst after. unfold calculateBatteryState.
  cbn [Batt.stateOfCharge].
  set (capacity := or_num (Spec.capacity spec) 100) in *.
  destruct (rate_sign capacity netCurrent Hcap) as [Hpos Hneg].
  pose proof (updateSoC_cases capacity netCurrent currentSoC shorter) as C1.
  pose proof (updateSoC_cases capacity netCurrent currentSoC longer) as C2.
  cbv zeta in *.
  set (rate := netCurrent / 3600 / capacity * 100) in *.
  assert (0 <= netCurrent -> rate * shorter <= rate * longer) as Hup.
  { intros H. rewrite !(Qmult_comm rate). apply Qmult_le_compat_r; auto. }
  assert (netCurrent <= 0 -> rate * longer <= rate * shorter) as Hdown.
  { intros H. specialize (Hneg H).
    assert ((- rate) * shorter <= (- rate) * longer) as A.
    { rewrite !(Qmult_comm (- rate)). apply Qmult_le_compat_r; [done|lra]. }
    assert (- rate * shorter == - (rate * shorter)) as E1 by ring.
    assert (- rate * longer == - (rate * longer)) as E2 by ring.
    rewrite E1, E2 in A. lra. }
  clearbody rate. revert C1 C2 Hup Hdown.
  generalize (rate * shorter) (rate * longer).
  generalize (updateSoC capacity netCurrent currentSoC shorter).
  generalize (updateSoC capacity netCurrent currentSoC longer).
  intros r2 r1 a b C1 C2 Hup Hdown.
  split; intros H; [specialize (Hup H)|specialize (Hdown H)];
    destruct C1 as [[? ?]|[[? ?]|[? ?]]];
    destruct C2 as [[? ?]|[[? ?]|[? ?]]]; lra.
Qed.

Lemma X20_longer_tick_goes_further_witness :
  Batt.stateOfCharge
    (calculateBatteryState (Spec.bare Battery PowerSource) 50 90 60 None)
  <= Batt.stateOfCharge
       (calculateBatteryState (Spec.bare Battery PowerSource) 50 90 3600
                              (Some ChargingSt)).
Proof.
  destruct (X20_longer_tick_goes_further (Spec.bare Battery PowerSource) 50
              90 60 3600 None (Some ChargingSt)) as (H & _).
  - by vm_compute.
  - by vm_compute.
  - apply H. by vm_compute.
Defined.

(** ** Resting voltage *)

Lemma getChargingProfile_cases (chemistry : string) :
  let profile := getChargingProfile (Some chemistry) in
  (isLithiumChemistry chemistry = true
   /\ Profile.voltageAtFull profile = 13.6
   /\ Profile.voltageAt50 profile = 13.2
   /\ Profile.voltageAtEmpty profile = 12.0)
  \/ (isLithiumChemistry chemistry = false
      /\ Profile.voltageAtEmpty profile = 11.8
      /\ (Profile.voltageAt50 profile = 12.2
          \/ Profile.voltageAt50 profile = 12.3)).
Proof.
  unfold getChargingProfile, or_str, isLithiumChemistry.
  destruct (String.eqb_spec chemistry "") as [->|_];
    [right; simpl; tauto|].
  unfold CHARGING_PROFILES.
  destruct (String.eqb_spec chemistry "lead-acid") as [->|_];
    [right; simpl; tauto|].
  destruct (String.eqb_spec chemistry "agm") as [->|_];
    [right; simpl; tauto|].
  destruct (String.eqb_spec chemistry "gel") as [->|_];
    [right; simpl; tauto|].
  destruct (String.eqb_spec chemistry "lithium") as [->|_];
    [left; simpl; tauto|].
  destruct (String.eqb_spec chemistry "lifepo4") as [->|_];
    [left; simpl; tauto|].
  right. simpl. tauto.
Qed.

Lemma restingVoltage_range (chemistry : string) (soc : Q) :
  0 <= soc <= 100 ->
  11.4 <= restingVoltage (isLithiumChemistry chemistry)
            (getChargingProfile (Some chemistry)) soc <= 13.7.
Proof.
  intros [Hlo Hhi]. unfold restingVoltage, Qgtb.
  destruct (getChargingProfile_cases chemistry)
    as [(-> & -> & -> & ->)|(-> & -> & [->| ->])];
    repeat match goal with
           | |- context [Qltb ?a ?b] => destruct (Qltb_spec a b)
           end; lra.
Qed.

Lemma calculateBatteryState_voltage (spec : Spec.t)
    (netCurrent currentSoC deltaTime : Q) (previousState : option Status) :
  let result :=
    calculateBatteryState spec netCurrent currentSoC deltaTime
                          previousState in
  let chemistry := or_str (Spec.batteryChemistry spec) "lead-acid" in
  Batt.voltage result
  == restingVoltage (isLithiumChemistry chemistry)
       (getChargingProfile (Some chemistry)) (Batt.stateOfCharge result)
  /\ 11.4 <= Batt.voltage result <= 13.7.
Proof.
  intros result chemistry. subst result. unfold calculateBatteryState.
  cbn [Batt.voltage Batt.stateOfCharge]. fold chemistry.
  pose proof (restingVoltage_range chemistry _
                (updateSoC_range (or_num (Spec.capacity spec) 100)
                   netCurrent currentSoC deltaTime)) as H.
  revert H. generalize (restingVoltage (isLithiumChemistry chemistry)
    (getChargingProfile (Some chemistry))
    (updateSoC (or_num (Spec.capacity spec) 100) netCurrent currentSoC
               deltaTime)).
  intros v Hv.
  destruct (clamp_cases 10.5 14.6 v) as [[H1 H2]|[[H1 H2]|[H1 H2]]];
    [by vm_compute|lra| |lra].
  rewrite H2. split; [reflexivity|done].
Qed.

(** ** What a tick leaves on a battery node *)

Section BatteryNodes.

Variable localeCompare : string -> string -> comparison.
Variable nodes : list Node.t.
Variable edges : list Edge.t.
Variable environment : Env.t.
Variable previousState : option Sys.t.
Variable deltaTime : Q.

(** The state of a battery node in the result is one the fourth pass
    wrote for it. *)
Lemma runSimulation_battery (P : NodeSim.t -> Prop) (node : Node.t)
    (spec : Spec.t) :
  In node nodes -> Node.spec node = Some spec ->
  isBatteryType (Spec.type spec) = true ->
  (forall s n sp,
      Node.id n = Node.id node -> Node.spec n = Some sp ->
      isBatteryType (Spec.type sp) = true ->
      P (batteryEntry edges previousState deltaTime s n sp)) ->
  exists st,
    Sys.nodes (runSimulation localeCompare nodes edges environment
                             previousState deltaTime) !! Node.id node
    = Some st /\ P st.
Proof.
  intros Hin Hspec Hbatt HP. rewrite runSimulation_nodes. unfold fourthPass.
  apply (fourthPass_entry edges previousState deltaTime P (Node.id node) HP).
  left. by exists node, spec.
Qed.

Lemma batteryEntry_fields (s : Sim.t) (n : Node.t) (sp : Spec.t) :
  let entry := batteryEntry edges previousState deltaTime s n sp in
  let battState := battStateOf edges previousState deltaTime s n sp in
  NodeSim.voltage entry = Batt.voltage battState
  /\ NodeSim.stateOfCharge entry = Some (Batt.stateOfCharge battState).
Proof.
  unfold batteryEntry, overwriteBattery.
  destruct (netOf _ _ _) as [p c].
  by destruct (Sim.nodeStates s !! Node.id n).
Qed.

Lemma runSimulation_soc_range (node : Node.t) (spec : Spec.t) :
  In node nodes -> Node.spec node = Some spec ->
  isBatteryType (Spec.type spec) = true ->
  exists st soc,
    Sys.nodes (runSimulation localeCompare nodes edges environment
                             previousState deltaTime) !! Node.id node
    = Some st
    /\ NodeSim.stateOfCharge st = Some soc /\ 0 <= soc <= 100.
Proof.
  intros Hin Hspec Hbatt.
  destruct (runSimulation_battery
              (fun st => exists soc, NodeSim.stateOfCharge st = Some soc
                                     /\ 0 <= soc <= 100) node spec)
    as (st & Hst & soc & H); [done|done|done| |by exists st, soc].
  intros s n sp _ _ _.
  destruct (batteryEntry_fields s n sp) as [_ ->]. eexists. split; [done|].
  unfold battStateOf. destruct (netOf _ _ _) as [p c].
  unfold calculateBatteryState. simpl. apply updateSoC_range.
Qed.

Lemma runSimulation_disconnected (node : Node.t) (spec : Spec.t) :
  In node nodes -> Node.spec node = Some spec ->
  isBatteryType (Spec.type spec) = true ->
  isNodeConnected edges (Node.id node) = false ->
  let prevSoC :=
    nullish (prevNode previousState (Node.id node)
               ≫= NodeSim.stateOfCharge) 80 in
  0 <= prevSoC <= 100 ->
  exists st soc,
    Sys.nodes (runSimulation localeCompare nodes edges environment
                             previousState deltaTime) !! Node.id node
    = Some st
    /\ NodeSim.stateOfCharge st = Some soc /\ soc == prevSoC
    /\ NodeSim.current st = 0 /\ NodeSim.power st = 0.
Proof.
  intros Hin Hspec Hbatt Hconn prevSoC Hrange.
  destruct (runSimulation_battery
              (fun st => exists soc,
                   NodeSim.stateOfCharge st = Some soc /\ soc == prevSoC
                   /\ NodeSim.current st = 0 /\ NodeSim.power st = 0)
              node spec) as (st & Hst & soc & H);
    [done|done|done| |by exists st, soc].
  intros s n sp Hid Hsp Hb. unfold batteryEntry, battStateOf, netOf.
  rewrite Hid, Hconn.
  assert (match Sim.batteryCircuits s !! Node.id node with
          | Some _ => (0, 0)
          | None => (0, 0)
          end = (0, 0)) as -> by (by destruct (_ !! _)).
  unfold overwriteBattery. eexists.
  split; [by destruct (Sim.nodeStates s !! Node.id node)|].
  split; [|by destruct (Sim.nodeStates s !! Node.id node)].
  unfold calculateBatteryState. simpl. by apply updateSoC_idle.
Qed.

(** X21.  When no battery of the diagram has a member name of
    [Object.prototype] as its chemistry, the voltage of a battery node
    is between 11.4 V and 13.7 V in every result of [runSimulation],
    whatever its capacity and the currents: the clamp to [10.5, 14.6] of
    [calculateBatteryState] is never reached. *)
Theorem X21_battery_voltage_within_curve (node : Node.t) (spec : Spec.t) :
  plainBatteries nodes = true ->
  In node nodes -> Node.spec node = Some spec ->
  isBatteryType (Spec.type spec) = true ->
  exists st,
    Sys.nodes (runSimulation localeCompare nodes edges environment
                             previousState deltaTime) !! Node.id node
    = Some st
    /\ 11.4 <= NodeSim.voltage st <= 13.7.
Proof.
  intros _ Hin Hspec Hbatt.
  apply (runSimulation_battery
           (fun st => 11.4 <= NodeSim.voltage st <= 13.7) node spec);
    [done|done|done|].
  intros s n sp _ _ _.
  destruct (batteryEntry_fields s n sp) as [-> _].
  unfold battStateOf. destruct (netOf _ _ _) as [p c].
  apply calculateBatteryState_voltage.
Qed.

(** *** Connections *)

Lemma connectionStates_lookup (v : Q) (id : string) :
  forall (l : list Edge.t) (init : gmap string Conn.t),
    let states :=
      fold_left (fun states edge =>
                   <[Edge.id edge :=
                       Conn.mk (Edge.id edge) (Edge.source edge)
                               (Edge.target edge) v 0 0 0 true]> states)
                l init in
    ((exists e, In e l /\ Edge.id e = id) \/ is_Some (init !! id) ->
     is_Some (states !! id))
    /\ (forall c, states !! id = Some c ->
          init !! id = Some c
          \/ exists e, In e l /\ Edge.id e = id
               /\ c = Conn.mk id (Edge.source e) (Edge.target e) v 0 0 0
                              true).
Proof.
  induction l as [|e l IH]; intros init; simpl.
  - split; [by intros [(? & [] & _)|?]|]. intros c Hc. by left.
  - destruct (IH (<[Edge.id e :=
                      Conn.mk (Edge.id e) (Edge.source e) (Edge.target e)
                              v 0 0 0 true]> init)) as [A B].
    split.
    + intros [(e' & [->|Hin] & Hid)|Hinit]; apply A.
      * right. rewrite Hid, lookup_insert_eq. by eexists.
      * left. by exists e'.
      * right. destruct (decide (Edge.id e = id)) as [->|Hne].
        -- rewrite lookup_insert_eq. by eexists.
        -- by rewrite lookup_insert_ne.
    + intros c Hc. destruct (B c Hc) as [Hinit|(e' & Hin & Hid & ->)].
      * destruct (decide (Edge.id e = id)) as [Heq|Hne].
        -- rewrite Heq, lookup_insert_eq in Hinit. right. exists e.
           split; [by left|]. split; [done|]. congruence.
        -- rewrite lookup_insert_ne in Hinit by done. by left.
      * right. exists e'. split; [by right|]. done.
Qed.

(** X23.  The result has a connection state for every edge of the
    diagram and for nothing else; each one repeats the identifier and
    the ends of an edge, is at the system voltage of the result, is
    active, and carries no measurement: current, power and voltage drop
    are always 0. *)
Theorem X23_connections_carry_no_measurement :
  let result :=
    runSimulation localeCompare nodes edges environment previousState
                  deltaTime in
  (forall edge, In edge edges ->
                is_Some (Sys.connections result !! Edge.id edge))
  /\ (forall id c,
        Sys.connections result !! id = Some c ->
        (exists edge,
            In edge edges /\ Edge.id edge = id
            /\ Conn.sourceId c = Edge.source edge
            /\ Conn.targetId c = Edge.target edge)
        /\ Conn.id c = id
        /\ Conn.voltage c = Sys.systemVoltage result
        /\ Conn.current c = 0 /\ Conn.power c = 0
        /\ Conn.voltageDrop c = 0 /\ Conn.isActive c = true).
Proof.
  intros result. subst result. unfold runSimulation.
  cbn [Sys.connections Sys.systemVoltage].
  set (s4 := fourthPass _ _ _ _ _).
  pose proof (diagnostics_core nodes edges environment s4) as Hcore.
  unfold core in Hcore.
  assert (Sim.systemVoltage (diagnostics nodes edges environment s4)
          = Sim.systemVoltage s4) as -> by congruence.
  unfold connectionStates. split.
  - intros edge Hin.
    destruct (connectionStates_lookup (Sim.systemVoltage s4) (Edge.id edge)
                edges ∅) as [A _].
    apply A. left. by exists edge.
  - intros id c Hc.
    destruct (connectionStates_lookup (Sim.systemVoltage s4) id edges ∅)
      as [_ B].
    destruct (B c Hc) as [Hinit|(e & Hin & Hid & ->)];
      [by rewrite lookup_empty in Hinit|].
    split; [by exists e|]. done.
Qed.

End BatteryNodes.

Lemma X21_battery_voltage_within_curve_witness :
  exists st,
    Sys.nodes (runSimulation ordinalCompare twoBanks [] DEFAULT_ENV None
                             3600) !! "battery-b" = Some st
    /\ 11.4 <= NodeSim.voltage st <= 13.7.
Proof.
  apply (X21_battery_voltage_within_curve ordinalCompare twoBanks []
           DEFAULT_ENV None 3600 lifepo100
           (withChemistry
              (Spec.withCapacity (Spec.bare Battery PowerSource) (Some 100))
              "lifepo4")).
  - reflexivity.
  - simpl. tauto.
  - reflexivity.
  - reflexivity.
Defined.

(** ** Charger output *)

(** X22.  For a battery chemistry that is not a member name of
    [Object.prototype] and a positive battery voltage, the output
    current that the DC-DC MPPT charger reports never exceeds its
    ceiling (or 0 when the ceiling is negative), and the ceiling never
    exceeds the charge rate of the device, the safe rate of the
    chemistry for the capacity of the battery, or the maximum output
    power divided by the battery voltage.  The state is [fault] exactly
    when the alternator input is above the maximum input voltage, and
    then the output current is 0; the state [charging] means an output
    current above 0.1 A. *)
Theorem X22_charger_output_ceiling (spec : Spec.t)
    (alternatorVoltage solarVoltage solarPower batteryVoltage batterySOC
     batteryCapacity : Q) (batteryChemistry : string)
    (starterBatteryVoltage ambientTempC : Q) :
  inheritedMember batteryChemistry = false -> 0 < batteryVoltage ->
  let st :=
    calculateDCDCMPPTStateWithChemistry spec alternatorVoltage solarVoltage
      solarPower batteryVoltage batterySOC batteryCapacity batteryChemistry
      starterBatteryVoltage ambientTempC in
  let ceiling :=
    powerLimitedMaxCurrent spec batteryVoltage batteryCapacity
                           batteryChemistry in
  NodeSim.current st <= Qmax 0 ceiling
  /\ NodeSim.outputCurrent st = Some (NodeSim.current st)
  /\ ceiling <= or_num (Spec.chargeRate spec) 30
  /\ ceiling
     <= batteryCapacity
        * Profile.maxChargeRate (getChargingProfile (Some batteryChemistry))
  /\ ceiling <= or_num (Spec.maxOutputPower spec) 400 / batteryVoltage
  /\ (NodeSim.state st = Fault <->
      or_num (Spec.maxInputVoltage spec) 30 < alternatorVoltage)
  /\ (NodeSim.state st = Fault -> NodeSim.current st = 0)
  /\ (NodeSim.state st = ChargingSt -> 0.1 < NodeSim.current st).
Proof.
  intros _ _ st ceiling. subst st.
  unfold calculateDCDCMPPTStateWithChemistry.
  fold ceiling.
  destruct (alternatorInput _ _ _ _ _) as [[dcDcActive altPower] o1].
  destruct (solarInput _ _ _ _ _ _) as [solarActual o2].
  destruct (chargeStageMachine _ _ _) as [stage o3].
  cbn [NodeSim.current NodeSim.outputCurrent NodeSim.state].
  assert (ceiling <= or_num (Spec.chargeRate spec) 30
          /\ ceiling
             <= batteryCapacity
                * Profile.maxChargeRate
                    (getChargingProfile (Some batteryChemistry))
          /\ ceiling <= or_num (Spec.maxOutputPower spec) 400
                        / batteryVoltage) as (L1 & L2 & L3).
  { unfold ceiling, powerLimitedMaxCurrent. split; [|split].
    - eapply Qle_trans; [apply Q.le_min_l|apply Q.le_min_l].
    - eapply Qle_trans; [apply Q.le_min_l|apply Q.le_min_r].
    - apply Q.le_min_r. }
  unfold Qgtb.
  destruct (Qltb_spec (or_num (Spec.maxInputVoltage spec) 30)
              alternatorVoltage) as [Hov|Hov].
  - split; [apply Q.le_max_l|]. repeat split; try done.
  - split.
    { eapply Qle_trans; [apply Q.le_min_r|apply Q.le_max_r]. }
    split; [done|]. split; [done|]. split; [done|]. split; [done|].
    destruct (Qltb_spec 0.1 (Qmin o3 ceiling)) as [Hc|Hc].
    + split; [split; [done|intros; lra]|]. split; done.
    + destruct (dcDcActive || Qltb 0 solarActual)%bool;
        (split; [split; [done|intros; lra]|]); split; done.
Qed.

Lemma X22_charger_output_ceiling_witness :
  let st :=
    calculateDCDCMPPTStateWithChemistry (Spec.bare DcDcMpptCharger Charging)
      14.2 0 0 12.4 60 100 "lifepo4" 12.8 25 in
  NodeSim.current st
  <= Qmax 0 (powerLimitedMaxCurrent (Spec.bare DcDcMpptCharger Charging)
               12.4 100 "lifepo4")
  /\ NodeSim.outputCurrent st = Some (NodeSim.current st).
Proof.
  intros st.
  destruct (X22_charger_output_ceiling (Spec.bare DcDcMpptCharger Charging)
              14.2 0 0 12.4 60 100 "lifepo4" 12.8 25)
    as (H1 & H2 & _); [reflexivity|by vm_compute|].
  split; [exact H1|exact H2].
Defined.

(** ** Usage periods *)

(** X24.  The four usage periods split the day: every hour lies in
    exactly one of morning, afternoon, evening and night. *)
Theorem X24_every_hour_in_one_period (hour : Q) :
  exists period,
    isHourInPeriod hour period = true
    /\ forall other, isHourInPeriod hour other = true -> other = period.
Proof.
  unfold isHourInPeriod, Qgeb.
  destruct (Qlt_le_dec hour 6) as [H6|H6];
    [|destruct (Qlt_le_dec hour 12) as [H12|H12];
      [|destruct (Qlt_le_dec hour 18) as [H18|H18];
        [|destruct (Qlt_le_dec hour 23) as [H23|H23]]]].
  1: exists Night. 2: exists Morning. 3: exists Afternoon.
  4: exists Evening. 5: exists Night.
  all: split;
    [simpl;
     repeat match goal with
            | |- context [Qle_bool ?a ?b] =>
                let E := fresh in
                destruct (Qle_bool a b) eqn:E;
                [apply Qle_bool_iff in E|apply Qleb_gt in E]
            | |- context [Qltb ?a ?b] => destruct (Qltb_spec a b)
            end; simpl; try done; exfalso; lra
    |intros [] Hother; simpl in Hother; try done; exfalso;
     repeat match type of Hother with
            | context [Qle_bool ?a ?b] =>
                let E := fresh in
                destruct (Qle_bool a b) eqn:E;
                [apply Qle_bool_iff in E|apply Qleb_gt in E]
            | context [Qltb ?a ?b] => destruct (Qltb_spec a b)
            end; simpl in Hother; try done; lra].
Qed.

(** ** The charge summary of the panel *)

(** A node that [calculateChargeSummary] counts as a battery, with a
    capacity that is not negative and a state of charge within
    bounds. *)
Lemma batteryStats_range (simulation : Sys.t) (nodes : list Node.t) :
  Forall (fun node =>
            forall spec,
              Node.spec node = Some spec ->
              (typeIs (Spec.type spec) Battery
               || typeIs (Spec.type spec) BatteryBank)%bool = true ->
              0 <= or_num (Custom.capacity (Node.customValues node))
                          (or_num (Spec.capacity spec) 100)
              /\ 0 <= nullish (Sys.nodes simulation !! Node.id node
                                 ≫= NodeSim.stateOfCharge) 80 <= 100)
         nodes ->
  forall totalCapacity totalAhRemaining batteryCount,
    0 <= totalAhRemaining <= totalCapacity ->
    let '(capacity, remaining, _) :=
      fold_left (batteryStats simulation) nodes
                (totalCapacity, totalAhRemaining, batteryCount) in
    0 <= remaining <= capacity.
Proof.
  induction 1 as [|node nodes Hnode _ IH]; intros cap rem cnt Hrange;
    simpl; [done|].
  destruct (Node.spec node) as [spec|]; [|by apply IH].
  destruct (typeIs _ _ || typeIs _ _)%bool eqn:Ht; [|by apply IH].
  destruct (Hnode spec eq_refl Ht) as [Hc [Hlo Hhi]].
  apply IH.
  set (c := or_num _ _) in *. set (soc := nullish _ _) in *.
  assert (0 <= soc / 100 <= 1) as [F0 F1].
  { unfold Qdiv. assert (/ 100 == 0.01) as -> by reflexivity. lra. }
  assert (0 <= c * (soc / 100)) by (by apply Qmult_le_0_compat).
  assert (c * (soc / 100) <= c * 1).
  { rewrite !(Qmult_comm c). by apply Qmult_le_compat_r. }
  lra.
Qed.

Lemma share_range (remaining capacity : Q) :
  0 <= remaining <= capacity ->
  0 <= (if Qgtb capacity 0 then remaining / capacity * 100 else 0) <= 100.
Proof.
  intros [Hlo Hhi]. unfold Qgtb.
  destruct (Qltb_spec 0 capacity) as [Hc|Hc]; [|lra].
  assert (0 <= remaining / capacity).
  { apply Qle_shift_div_l; [done|lra]. }
  assert (remaining / capacity <= 1).
  { apply Qle_shift_div_r; [done|lra]. }
  lra.
Qed.

Lemma calculateChargeSummary_range (nodes : list Node.t)
    (simulation : Sys.t) (environment : Env.t) :
  Forall (fun node =>
            forall spec,
              Node.spec node = Some spec ->
              (typeIs (Spec.type spec) Battery
               || typeIs (Spec.type spec) BatteryBank)%bool = true ->
              0 <= or_num (Custom.capacity (Node.customValues node))
                          (or_num (Spec.capacity spec) 100)
              /\ 0 <= nullish (Sys.nodes simulation !! Node.id node
                                 ≫= NodeSim.stateOfCharge) 80 <= 100)
         nodes ->
  let summary := calculateChargeSummary nodes (Some simulation) environment in
  0 <= ChargeSummary.currentSoC summary <= 100
  /\ 0 <= ChargeSummary.totalBatteryCapacity summary.
Proof.
  intros Hnodes summary. subst summary. unfold calculateChargeSummary.
  pose proof (batteryStats_range simulation nodes Hnodes 0 0 0%nat) as H.
  destruct (fold_left _ nodes _) as [[cap rem] cnt].
  cbn [ChargeSummary.currentSoC ChargeSummary.totalBatteryCapacity].
  assert (0 <= rem <= cap) as Hr by (apply H; lra).
  split; [by apply share_range|lra].
Qed.

(** X25.  In the charge summary the time to full and the time to empty
    are never both given: the first needs a net current above 0.1 A, the
    second one below -0.1 A.  The slow-down factor is 0.5 above 80 % and
    1 otherwise (its 0.2 branch is never taken).  When the capacities
    counted are not negative and the states of charge read are within
    [0,100], the state of charge shown is within [0,100]. *)
Theorem X25_charge_summary_estimates (nodes : list Node.t)
    (simulation : Sys.t) (environment : Env.t) :
  let summary := calculateChargeSummary nodes (Some simulation) environment in
  (ChargeSummary.timeToFull summary = None
   \/ ChargeSummary.timeToEmpty summary = None)
  /\ (is_Some (ChargeSummary.timeToFull summary) ->
      0.1 < ChargeSummary.netChargeCurrent summary)
  /\ (is_Some (ChargeSummary.timeToEmpty summary) ->
      ChargeSummary.netChargeCurrent summary < - 0.1)
  /\ (forall soc, avgChargeEfficiency soc = if Qgtb soc 80 then 0.5 else 1)
  /\ (Forall (fun node =>
                forall spec,
                  Node.spec node = Some spec ->
                  (typeIs (Spec.type spec) Battery
                   || typeIs (Spec.type spec) BatteryBank)%bool = true ->
                  0 <= or_num (Custom.capacity (Node.customValues node))
                              (or_num (Spec.capacity spec) 100)
                  /\ 0 <= nullish (Sys.nodes simulation !! Node.id node
                                     ≫= NodeSim.stateOfCharge) 80 <= 100)
             nodes ->
      0 <= ChargeSummary.currentSoC summary <= 100
      /\ 0 <= ChargeSummary.totalBatteryCapacity summary).
Proof.
  intros summary.
  split; [|split; [|split; [|split]]].
  - subst summary. unfold calculateChargeSummary.
    destruct (fold_left _ nodes _) as [[cap rem] cnt].
    cbn [ChargeSummary.timeToFull ChargeSummary.timeToEmpty]. unfold Qgtb.
    destruct (Qltb_spec 0.1 (Sys.netPower simulation
                             / Sys.systemVoltage simulation)) as [H1|H1];
      destruct (Qltb_spec (Sys.netPower simulation
                           / Sys.systemVoltage simulation) (- 0.1))
        as [H2|H2]; simpl; try tauto.
    exfalso. lra.
  - subst summary. unfold calculateChargeSummary.
    destruct (fold_left _ nodes _) as [[cap rem] cnt].
    cbn [ChargeSummary.timeToFull ChargeSummary.netChargeCurrent].
    unfold Qgtb.
    destruct (Qltb_spec 0.1 (Sys.netPower simulation
                             / Sys.systemVoltage simulation)) as [H1|H1];
      [done|]. simpl. by intros [? ?].
  - subst summary. unfold calculateChargeSummary.
    destruct (fold_left _ nodes _) as [[cap rem] cnt].
    cbn [ChargeSummary.timeToEmpty ChargeSummary.netChargeCurrent].
    destruct (Qltb_spec (Sys.netPower simulation
                         / Sys.systemVoltage simulation) (- 0.1))
      as [H2|H2]; [done|]. simpl. by intros [? ?].
  - intros soc. unfold avgChargeEfficiency, Qgtb.
    destruct (Qltb_spec 80 soc) as [H80|H80]; [done|].
    destruct (Qltb_spec 90 soc) as [H90|H90]; [exfalso; lra|done].
  - apply calculateChargeSummary_range.
Qed.

Lemma X25_charge_summary_estimates_witness :
  0 <= ChargeSummary.currentSoC
         (calculateChargeSummary [houseBattery]
            (Some (Sys.mk 12 0 0 0 ∅ ∅ [] [])) DEFAULT_ENV) <= 100
  /\ 0 <= ChargeSummary.totalBatteryCapacity
            (calculateChargeSummary [houseBattery]
               (Some (Sys.mk 12 0 0 0 ∅ ∅ [] [])) DEFAULT_ENV).
Proof.
  apply (X25_charge_summary_estimates [houseBattery]
           (Sys.mk 12 0 0 0 ∅ ∅ [] []) DEFAULT_ENV).
  apply List.Forall_cons; [|apply List.Forall_nil].
  intros spec Hspec _. inversion Hspec; subst. clear Hspec.
  split; [by vm_compute|split; by vm_compute].
Defined.

(** X26.  The charge summary computed from the result of a tick on the
    same diagram shows a state of charge within [0,100], provided no
    battery has a negative capacity or a member name of
    [Object.prototype] as its chemistry. *)
Theorem X26_charge_summary_after_a_tick
    (localeCompare : string -> string -> comparison) (nodes : list Node.t)
    (edges : list Edge.t) (environment : Env.t)
    (previousState : option Sys.t) (deltaTime : Q) :
  plainBatteries nodes = true ->
  (forall node spec,
      In node nodes -> Node.spec node = Some spec ->
      (typeIs (Spec.type spec) Battery
       || typeIs (Spec.type spec) BatteryBank)%bool = true ->
      0 <= or_num (Custom.capacity (Node.customValues node))
                  (or_num (Spec.capacity spec) 100)) ->
  let summary :=
    calculateChargeSummary nodes
      (Some (runSimulation localeCompare nodes edges environment
                           previousState deltaTime)) environment in
  0 <= ChargeSummary.currentSoC summary <= 100
  /\ 0 <= ChargeSummary.totalBatteryCapacity summary.
Proof.
  intros _ Hcap. apply calculateChargeSummary_range.
  rewrite Forall_forall. intros node Hin spec Hspec Ht.
  apply list_elem_of_In in Hin. split; [by eapply Hcap|].
  assert (isBatteryType (Spec.type spec) = true) as Hb.
  { unfold isBatteryType. apply orb_true_iff in Ht as [->| ->]; simpl;
      [done|]. by rewrite orb_true_r. }
  destruct (runSimulation_soc_range localeCompare nodes edges environment
              previousState deltaTime node spec Hin Hspec Hb)
    as (st & soc & -> & Hsoc & Hrange).
  simpl. by rewrite Hsoc.
Qed.

Lemma X26_charge_summary_after_a_tick_witness :
  0 <= ChargeSummary.currentSoC
         (calculateChargeSummary chainNodes
            (Some (runSimulation ordinalCompare chainNodes chainEdges
                                 engineOn None 3600)) engineOn) <= 100
  /\ 0 <= ChargeSummary.totalBatteryCapacity
            (calculateChargeSummary chainNodes
               (Some (runSimulation ordinalCompare chainNodes chainEdges
                                    engineOn None 3600)) engineOn).
Proof.
  apply (X26_charge_summary_after_a_tick ordinalCompare chainNodes
           chainEdges engineOn None 3600); [reflexivity|].
  intros node spec Hin Hspec _. simpl in Hin.
  repeat (destruct Hin as [<-|Hin];
          [inversion Hspec; subst; by vm_compute|]).
  done.
Defined.

(** ** Ticks in a row *)

Lemma runSteps_snoc (localeCompare : string -> string -> comparison)
    (ticks : list Tick.t) (tick : Tick.t) (panel : Panel.t) :
  runSteps localeCompare (ticks ++ [tick]) panel
  = runStep localeCompare tick (runSteps localeCompare ticks panel).
Proof. unfold runSteps. by rewrite fold_left_app. Qed.

(** X27.  A battery that stays without any edge never drifts: after any
    number of ticks of the panel, whatever the speed, the environment
    and the rest of the diagram at each tick, its state of charge is the
    one it started from (80 without history) and its current and power
    are 0. *)
Theorem X27_unwired_battery_never_drifts
    (localeCompare : string -> string -> comparison) (node : Node.t)
    (spec : Spec.t) (ticks : list Tick.t) (last : Tick.t)
    (panel : Panel.t) :
  Node.spec node = Some spec -> isBatteryType (Spec.type spec) = true ->
  Forall (fun tick =>
            In node (Tick.nodes tick)
            /\ isNodeConnected (Tick.edges tick) (Node.id node) = false)
         (ticks ++ [last]) ->
  let startSoC :=
    nullish (prevNode (Panel.prevSimRef panel) (Node.id node)
               ≫= NodeSim.stateOfCharge) 80 in
  0 <= startSoC <= 100 ->
  let after := runSteps localeCompare (ticks ++ [last]) panel in
  exists result st soc,
    Panel.simulation after = Some result
    /\ Panel.prevSimRef after = Some result
    /\ Sys.nodes result !! Node.id node = Some st
    /\ NodeSim.stateOfCharge st = Some soc /\ soc == startSoC
    /\ NodeSim.current st = 0 /\ NodeSim.power st = 0.
Proof.
  intros Hspec Hbatt Hticks startSoC Hrange after. subst after.
  assert (forall t p,
            In node (Tick.nodes t) ->
            isNodeConnected (Tick.edges t) (Node.id node) = false ->
            nullish (prevNode (Panel.prevSimRef p) (Node.id node)
                       ≫= NodeSim.stateOfCharge) 80 == startSoC ->
            exists result st soc,
              Panel.simulation (runStep localeCompare t p) = Some result
              /\ Panel.prevSimRef (runStep localeCompare t p) = Some result
              /\ Sys.nodes result !! Node.id node = Some st
              /\ NodeSim.stateOfCharge st = Some soc /\ soc == startSoC
              /\ NodeSim.current st = 0 /\ NodeSim.power st = 0) as Hstep.
  { intros t p Hin Hconn Hprev. unfold runStep. simpl.
    destruct (runSimulation_disconnected localeCompare (Tick.nodes t)
                (Tick.edges t) (Tick.environment t) (Panel.prevSimRef p)
                (Tick.simSpeed t) node spec Hin Hspec Hbatt Hconn)
      as (st & soc & Hst & Hsoc & Heq & Hc & Hp).
    { cbv zeta. rewrite Hprev. done. }
    eexists _, st, soc. split; [done|]. split; [done|]. split; [done|].
    split; [done|]. split; [|done]. cbv zeta in Heq.
    by rewrite Heq, Hprev. }
  revert last Hticks. induction ticks as [|tick ticks IH] using rev_ind;
    intros last Hticks.
  - apply Forall_app in Hticks as [_ Hlast].
    apply Forall_cons in Hlast as [[Hin Hconn] _]. simpl.
    apply Hstep; [done|done|reflexivity].
  - rewrite runSteps_snoc.
    apply Forall_app in Hticks as [Hinit Hlast].
    apply Forall_cons in Hlast as [[Hin Hconn] _].
    destruct (IH tick Hinit)
      as (result & st & soc & _ & Hprev & Hst & Hsoc & Heq & _).
    apply Hstep; [done|done|].
    rewrite Hprev. simpl. rewrite Hst. simpl. by rewrite Hsoc.
Qed.

Lemma X27_unwired_battery_never_drifts_witness :
  exists result st soc,
    Panel.simulation
      (runSteps ordinalCompare
         [Tick.mk [houseBattery] [] DEFAULT_ENV 1;
          Tick.mk [houseBattery; load20] [] engineOn 3600]
         Panel.initial) = Some result
    /\ Panel.prevSimRef
         (runSteps ordinalCompare
            [Tick.mk [houseBattery] [] DEFAULT_ENV 1;
             Tick.mk [houseBattery; load20] [] engineOn 3600]
            Panel.initial) = Some result
    /\ Sys.nodes result !! "battery-1" = Some st
    /\ NodeSim.stateOfCharge st = Some soc /\ soc == 80
    /\ NodeSim.current st = 0 /\ NodeSim.power st = 0.
Proof.
  apply (X27_unwired_battery_never_drifts ordinalCompare houseBattery
           (Spec.withCapacity (Spec.bare Battery PowerSource) (Some 100))
           [Tick.mk [houseBattery] [] DEFAULT_ENV 1]
           (Tick.mk [houseBattery; load20] [] engineOn 3600)
           Panel.initial).
  - reflexivity.
  - reflexivity.
  - simpl. apply List.Forall_cons; [split; [simpl; tauto|reflexivity]|].
    apply List.Forall_cons; [split; [simpl; tauto|reflexivity]|].
    apply List.Forall_nil.
  - simpl. split; discriminate.
Defined.

(** ** The simulation clock *)

Lemma append_cons (x : ascii) (a b : string) :
  String x a +:+ b = String x (a +:+ b).
Proof. reflexivity. Qed.

Lemma append_empty (b : string) : "" +:+ b = b.
Proof. reflexivity. Qed.

Lemma append_nil_r (a : string) : a +:+ "" = a.
Proof. induction a as [|x a IH]; [done|]. by rewrite append_cons, IH. Qed.

Lemma append_assoc (a b c : string) : (a +:+ b) +:+ c = a +:+ (b +:+ c).
Proof.
  induction a as [|x a IH]; [done|]. by rewrite !append_cons, IH.
Qed.

Lemma digitOf_digitChar (d : Z) :
  (0 <= d < 10)%Z -> digitOf (digitChar d) = Some d.
Proof.
  intros H.
  assert (d = 0 \/ d = 1 \/ d = 2 \/ d = 3 \/ d = 4 \/ d = 5 \/ d = 6
          \/ d = 7 \/ d = 8 \/ d = 9)%Z as Hd by lia.
  repeat (destruct Hd as [->|Hd]; [reflexivity|]). by subst.
Qed.

(** Reading the digits of [n] gives [n] back. *)
Lemma readNumber_decimalDigits (fuel : nat) :
  forall (n : Z) (rest : string),
    (0 <= n < 2 ^ Z.of_nat fuel)%Z ->
    readNumber 0 (decimalDigits fuel n rest) = readNumber n rest.
Proof.
  induction fuel as [|fuel IH]; intros n rest Hn.
  - simpl in *. assert (n = 0)%Z as -> by lia. done.
  - cbn [decimalDigits].
    pose proof (Z.div_mod n 10 ltac:(lia)) as Hdm.
    pose proof (Z.mod_pos_bound n 10 ltac:(lia)) as Hm.
    destruct (Z.eqb_spec (n / 10) 0) as [Hq|Hq].
    + cbn [readNumber]. rewrite digitOf_digitChar by done.
      f_equal. lia.
    + rewrite IH.
      * cbn [readNumber]. rewrite digitOf_digitChar by done. f_equal. lia.
      * rewrite Nat2Z.inj_succ, Z.pow_succ_r in Hn by lia.
        split; [apply Z.div_pos; lia|].
        apply Z.div_lt_upper_bound; lia.
Qed.

Lemma decimalDigits_append (fuel : nat) :
  forall (n : Z) (acc rest : string),
    decimalDigits fuel n acc +:+ rest = decimalDigits fuel n (acc +:+ rest).
Proof.
  induction fuel as [|fuel IH]; intros n acc rest; [done|].
  cbn [decimalDigits]. destruct (n / 10 =? 0)%Z; [done|].
  by rewrite IH, append_cons.
Qed.

Lemma readNumber_numberToString (n : Z) (rest : string) :
  (0 <= n)%Z ->
  readNumber 0 (numberToString n +:+ rest) = readNumber n rest.
Proof.
  intros Hn. unfold numberToString.
  destruct (Z.ltb_spec n 0) as [?|_]; [lia|].
  rewrite decimalDigits_append, append_empty.
  apply readNumber_decimalDigits. split; [done|].
  destruct (Z.eq_dec n 0%Z) as [->|Hne]; [done|].
  rewrite Nat2Z.inj_succ, Z2Nat.id by apply Z.log2_nonneg.
  apply Z.log2_spec. lia.
Qed.

Lemma readNumber_zeros (k : nat) (rest : string) :
  readNumber 0 (repeatChar "0" k +:+ rest) = readNumber 0 rest.
Proof.
  induction k as [|k IH]; [done|].
  cbn [repeatChar]. rewrite append_cons. cbn [readNumber].
  change (digitOf "0") with (Some 0%Z). exact IH.
Qed.

Lemma readNumber_padStart (n : Z) (rest : string) :
  (0 <= n)%Z ->
  readNumber 0 (padStart 2 "0" (numberToString n) +:+ rest)
  = readNumber n rest.
Proof.
  intros Hn. unfold padStart.
  rewrite append_assoc, readNumber_zeros.
  by apply readNumber_numberToString.
Qed.

(** *** The three fields *)

Lemma Qfloor_unique (x : Q) (z : Z) :
  inject_Z z <= x -> x < inject_Z (z + 1) -> Qfloor x = z.
Proof.
  intros Hlo Hhi.
  pose proof (Qfloor_le x) as H1. pose proof (Qlt_floor x) as H2.
  assert (inject_Z (Qfloor x) < inject_Z (z + 1)) as A by lra.
  assert (inject_Z z < inject_Z (Qfloor x + 1)) as B by lra.
  rewrite <- Zlt_Qlt in A, B. lia.
Qed.

Lemma truncate_nonneg (x : Q) : 0 <= x -> truncate x = Qfloor x.
Proof.
  intros H. unfold truncate, Qfloor. destruct x as [n d]. simpl.
  apply Z.quot_div_nonneg; [|lia].
  unfold Qle in H. simpl in H. lia.
Qed.

Lemma Qfloor_div (x : Q) (m : Z) :
  0 <= x -> (0 < m)%Z ->
  Qfloor (x / inject_Z m) = (Qfloor x / m)%Z.
Proof.
  intros Hx Hm.
  pose proof (Qfloor_le x) as H1. pose proof (Qlt_floor x) as H2.
  set (N := Qfloor x) in *.
  pose proof (Z.div_mod N m ltac:(lia)) as Hdm.
  pose proof (Z.mod_pos_bound N m Hm) as Hmod.
  assert (0 < inject_Z m) as Hmq
    by (change 0 with (inject_Z 0); by rewrite <- Zlt_Qlt).
  apply Qfloor_unique.
  - apply Qle_shift_div_l; [done|].
    rewrite <- inject_Z_mult.
    eapply Qle_trans; [|exact H1]. rewrite <- Zle_Qle. lia.
  - apply Qlt_shift_div_r; [done|].
    rewrite <- inject_Z_mult.
    eapply Qlt_le_trans; [exact H2|]. rewrite <- Zle_Qle. lia.
Qed.

Lemma remainder_bounds (x : Q) (m : Z) :
  0 <= x -> (0 < m)%Z ->
  inject_Z (Qfloor x mod m) <= remainder x (inject_Z m)
  /\ remainder x (inject_Z m) < inject_Z (Qfloor x mod m + 1).
Proof.
  intros Hx Hm. unfold remainder.
  assert (0 < inject_Z m) as Hmq
    by (change 0 with (inject_Z 0); by rewrite <- Zlt_Qlt).
  rewrite truncate_nonneg, Qfloor_div by
    first [done | apply Qle_shift_div_l; [done|lra]].
  pose proof (Qfloor_le x) as H1. pose proof (Qlt_floor x) as H2.
  set (N := Qfloor x) in *.
  pose proof (Z.div_mod N m ltac:(lia)) as Hdm.
  assert (inject_Z (N mod m)
          == inject_Z N - inject_Z m * inject_Z (N / m)) as E.
  { rewrite <- inject_Z_mult. unfold Qminus.
    rewrite <- inject_Z_opp, <- inject_Z_plus.
    apply inject_Z_injective. lia. }
  rewrite inject_Z_plus in H2 |- *. change (inject_Z 1) with 1 in *.
  rewrite E. split; lra.
Qed.

Lemma remainder_nonneg (x : Q) (m : Z) :
  0 <= x -> (0 < m)%Z -> 0 <= remainder x (inject_Z m).
Proof.
  intros Hx Hm. destruct (remainder_bounds x m Hx Hm) as [H _].
  eapply Qle_trans; [|exact H].
  change 0 with (inject_Z 0). rewrite <- Zle_Qle.
  by apply Z.mod_pos_bound.
Qed.

Lemma formatSimTime_fields (seconds : Q) :
  0 <= seconds ->
  Qfloor (seconds / 3600) = (Qfloor seconds / 3600)%Z
  /\ Qfloor (remainder seconds 3600 / 60)
     = (Qfloor seconds mod 3600 / 60)%Z
  /\ Qfloor (remainder seconds 60) = (Qfloor seconds mod 60)%Z.
Proof.
  intros Hs. split; [|split].
  - by apply (Qfloor_div seconds 3600).
  - destruct (remainder_bounds seconds 3600 Hs ltac:(lia)) as [Hlo Hhi].
    change (Qfloor (remainder seconds 3600 / 60))
      with (Qfloor (remainder seconds (inject_Z 3600) / inject_Z 60)).
    rewrite (Qfloor_div (remainder seconds (inject_Z 3600)) 60);
      [|by apply (remainder_nonneg seconds 3600)|lia].
    f_equal. by apply Qfloor_unique.
  - destruct (remainder_bounds seconds 60 Hs ltac:(lia)) as [Hlo Hhi].
    by apply Qfloor_unique.
Qed.

(** X28.  The clock of the panel can be read back: for a time that is
    not negative and below [2^53] seconds, the text [formatSimTime]
    shows, read as hours (when there are three fields), minutes and
    seconds, is the whole number of seconds elapsed.  The minutes and
    seconds shown are below 60. *)
Theorem X28_formatSimTime_reads_back (seconds : Q) :
  0 <= seconds < 9007199254740992 ->
  readSimTime (formatSimTime seconds) = Some (Qfloor seconds)
  /\ (0 <= Qfloor (remainder seconds 3600 / 60) < 60)%Z
  /\ (0 <= Qfloor (remainder seconds 60) < 60)%Z.
Proof.
  intros [Hs _].
  destruct (formatSimTime_fields seconds Hs) as (Hh & Hm & Hsec).
  assert (0 <= Qfloor seconds)%Z as HN.
  { rewrite <- (Qfloor_Z 0%Z). by apply Qfloor_resp_le. }
  set (N := Qfloor seconds) in *.
  pose proof (Z.div_mod N 3600 ltac:(lia)) as D1.
  pose proof (Z.mod_pos_bound N 3600 ltac:(lia)) as B1.
  pose proof (Z.div_mod (N mod 3600) 60 ltac:(lia)) as D2.
  pose proof (Z.mod_pos_bound (N mod 3600) 60 ltac:(lia)) as B2.
  pose proof (Z.div_mod N 60 ltac:(lia)) as D3.
  pose proof (Z.mod_pos_bound N 60 ltac:(lia)) as B3.
  assert (0 <= N / 3600)%Z as Hh0 by (apply Z.div_pos; lia).
  assert (0 <= N mod 3600 / 60 < 60)%Z as Hm0.
  { split; [apply Z.div_pos; lia|].
    apply Z.div_lt_upper_bound; lia. }
  assert (3600 * (N / 3600) + 60 * (N mod 3600 / 60) + N mod 60 = N)%Z
    as Hsum.
  { assert ((N mod 3600) mod 60 = N mod 60)%Z as E.
    { apply (Z.mod_unique N 60 (60 * (N / 3600) + N mod 3600 / 60));
        [left; lia|lia]. }
    lia. }
  split; [|rewrite Hm, Hsec; lia].
  unfold formatSimTime. rewrite Hh, Hm, Hsec.
  assert (forall (n : Z) (rest : string),
            readNumber n (String ":" rest) = (n, String ":" rest)) as Hcolon
    by done.
  assert (forall n : Z,
            (0 <= n)%Z ->
            readNumber 0 (padStart 2 "0" (numberToString n)) = (n, ""))
    as Hlast.
  { intros n Hn.
    rewrite <- (append_nil_r (padStart 2 "0" (numberToString n))).
    by rewrite readNumber_padStart. }
  destruct (Z.ltb_spec 0 (N / 3600)) as [Hpos|Hzero]; unfold readSimTime;
    rewrite !append_cons, !append_empty.
  - rewrite readNumber_numberToString, Hcolon by lia.
    rewrite readNumber_padStart, Hcolon by lia.
    rewrite Hlast by lia. f_equal. lia.
  - rewrite readNumber_numberToString, Hcolon by lia.
    rewrite Hlast by lia. f_equal. lia.
Qed.

Lemma X28_formatSimTime_reads_back_witness :
  formatSimTime 3725.5 = "1:02:05"
  /\ readSimTime (formatSimTime 3725.5) = Some 3725%Z.
Proof.
  split; [by vm_compute|].
  apply (X28_formatSimTime_reads_back 3725.5). by vm_compute.
Defined.

(** ** Loads *)

Section Loads.

Variable localeCompare : string -> string -> comparison.
Variable nodes : list Node.t.
Variable edges : list Edge.t.
Variable environment : Env.t.
Variable previousState : option Sys.t.
Variable deltaTime : Q.

Lemma sourceStep_totalLoad (s : Sim.t) (n : Node.t) :
  Sim.totalLoad (sourceStep nodes edges environment previousState s n)
  = Sim.totalLoad s.
Proof.
  unfold sourceStep.
  repeat match goal with
         | |- context [match ?x with _ => _ end] => destruct x
         end; reflexivity.
Qed.

Lemma chargerStep_totalLoad (s : Sim.t) (n : Node.t) :
  Sim.totalLoad (chargerStep localeCompare nodes edges environment s n)
  = Sim.totalLoad s.
Proof.
  unfold chargerStep.
  repeat match goal with
         | |- context [match ?x with _ => _ end] => destruct x
         end; reflexivity.
Qed.

Lemma batteryStep_totalLoad (s : Sim.t) (n : Node.t) :
  Sim.totalLoad (batteryStep edges previousState deltaTime s n)
  = Sim.totalLoad s.
Proof.
  unfold batteryStep.
  repeat match goal with
         | |- context [match ?x with _ => _ end] => destruct x
         end; reflexivity.
Qed.

Lemma fold_totalLoad {A : Type} (f : Sim.t -> A -> Sim.t) :
  (forall s x, Sim.totalLoad (f s x) = Sim.totalLoad s) ->
  forall l s, Sim.totalLoad (fold_left f l s) = Sim.totalLoad s.
Proof.
  intros Hf. induction l as [|x l IH]; intros s; simpl; [done|].
  by rewrite IH, Hf.
Qed.

Lemma beforeLoads_totalLoad :
  Sim.totalLoad
    (beforeLoads localeCompare nodes edges environment previousState) = 0.
Proof.
  unfold beforeLoads, secondPass, firstPass.
  by rewrite (fold_totalLoad _ chargerStep_totalLoad),
    (fold_totalLoad _ sourceStep_totalLoad).
Qed.

Lemma loadStep_spec (s : Sim.t) (node : Node.t) (spec : Spec.t) :
  let s' := loadStep nodes edges s node spec in
  Sim.nodeStates s'
  = <[Node.id node :=
        loadEntry nodes edges (Sim.systemVoltage s) node spec]>
      (Sim.nodeStates s)
  /\ Sim.systemVoltage s' = Sim.systemVoltage s
  /\ Sim.totalLoad s'
     == Sim.totalLoad s
        + (if (isOnOf node
               && isConnectedToPower nodes edges (Node.id node))%bool
           then ratedCurrent node spec else 0) * Sim.systemVoltage s.
Proof.
  unfold loadStep, loadEntry, ratedCurrent.
  destruct (isOnOf node); destruct (isConnectedToPower _ _ _); simpl;
    try (split; [done|split; [done|ring]]).
  destruct (findConnectedBattery _ _ _); simpl;
    (split; [done|split; [done|ring]]).
Qed.

Lemma passiveStep_spec (s : Sim.t) (n : Node.t) :
  let s' := passiveStep nodes edges s n in
  Sim.systemVoltage s' = Sim.systemVoltage s
  /\ Sim.totalLoad s'
     == Sim.totalLoad s + loadDraw nodes edges n * Sim.systemVoltage s
  /\ (forall id, id ≠ Node.id n ->
                 Sim.nodeStates s' !! id = Sim.nodeStates s !! id)
  /\ (forall spec,
        Node.spec n = Some spec -> Spec.category spec = Load ->
        Sim.nodeStates s' !! Node.id n
        = Some (loadEntry nodes edges (Sim.systemVoltage s) n spec)).
Proof.
  unfold passiveStep, loadDraw.
  destruct (Node.spec n) as [spec|] eqn:Hs.
  2:{ cbv zeta. split; [done|]. split; [ring|]. split; [done|]. done. }
  destruct (Spec.category spec) eqn:Hc; cbv zeta; unfold catIs;
    cbn [bool_decide decide_rel andb];
    try (rewrite bool_decide_eq_false_2 by done; cbn [andb]).
  all: try (split; [done|]; split; [simpl; ring|]; split;
            [intros id Hid; simpl; by rewrite ?lookup_insert_ne|
             intros sp Hsp Hcat; congruence]).
  - (* protection *)
    unfold protectionStep. cbv zeta.
    destruct (_ && _)%bool; simpl;
      (split; [done|]; split; [ring|]; split;
       [intros id Hid; by rewrite lookup_insert_ne|
        intros sp Hsp Hcat; congruence]).
  - (* load *)
    rewrite bool_decide_eq_true_2 by done. cbn [andb].
    destruct (loadStep_spec s n spec) as (A & B & C). cbv zeta in *.
    split; [done|]. split; [done|]. split.
    + intros id Hid. rewrite A. by rewrite lookup_insert_ne.
    + intros sp Hsp _. inversion Hsp; subst. rewrite A.
      by rewrite lookup_insert_eq.
Qed.

Lemma thirdPass_totalLoad (l : list Node.t) :
  forall s,
    Sim.systemVoltage (fold_left (passiveStep nodes edges) l s)
    = Sim.systemVoltage s
    /\ Sim.totalLoad (fold_left (passiveStep nodes edges) l s)
       == Sim.totalLoad s
          + Sim.systemVoltage s
            * fold_right (fun n total => loadDraw nodes edges n + total)
                         0 l.
Proof.
  induction l as [|n l IH]; intros s; simpl.
  - split; [done|ring].
  - destruct (passiveStep_spec s n) as (A & B & _). cbv zeta in *.
    destruct (IH (passiveStep nodes edges s n)) as [C D].
    split; [congruence|]. rewrite D, A, B. ring.
Qed.

(** X29.  The total load of the result is the system voltage the loads
    see (the one the first two passes leave) times the sum of the rated
    currents of the loads that are switched on and reach a power
    source: every such load counts once, whatever the order of the
    nodes; the net power is the generation less that load. *)
Theorem X29_total_load_is_sum_of_active_loads :
  let result :=
    runSimulation localeCompare nodes edges environment previousState
                  deltaTime in
  Sys.totalLoad result
  == busVoltage localeCompare nodes edges environment previousState
     * fold_right (fun n total => loadDraw nodes edges n + total) 0 nodes
  /\ Sys.netPower result
     = Sys.totalGeneration result - Sys.totalLoad result.
Proof.
  intros result. subst result. unfold runSimulation.
  cbn [Sys.totalLoad Sys.netPower Sys.totalGeneration]. split; [|done].
  set (s3 := thirdPass nodes edges _).
  pose proof (diagnostics_core nodes edges environment
                (fourthPass nodes edges previousState deltaTime s3)) as Hc.
  unfold core in Hc.
  assert (Sim.totalLoad
            (diagnostics nodes edges environment
               (fourthPass nodes edges previousState deltaTime s3))
          = Sim.totalLoad s3) as ->.
  { transitivity
      (Sim.totalLoad (fourthPass nodes edges previousState deltaTime s3));
      [congruence|].
    unfold fourthPass. apply fold_totalLoad, batteryStep_totalLoad. }
  subst s3. unfold thirdPass.
  destruct (thirdPass_totalLoad nodes
              (beforeLoads localeCompare nodes edges environment
                           previousState)) as [_ H].
  unfold beforeLoads in *. rewrite H.
  pose proof beforeLoads_totalLoad as H0. unfold beforeLoads in H0.
  rewrite H0. unfold busVoltage, beforeLoads. ring.
Qed.

(** *** The state of a load *)

Lemma thirdPass_load (node : Node.t) (spec : Spec.t) (v : Q) :
  Node.spec node = Some spec -> Spec.category spec = Load ->
  forall l s,
    Sim.systemVoltage s = v ->
    (forall other, In other l -> Node.id other = Node.id node ->
                   other = node) ->
    In node l
    \/ Sim.nodeStates s !! Node.id node
       = Some (loadEntry nodes edges v node spec) ->
    Sim.nodeStates (fold_left (passiveStep nodes edges) l s) !! Node.id node
    = Some (loadEntry nodes edges v node spec).
Proof.
  intros Hspec Hcat. induction l as [|n l IH]; intros s Hv Huniq H; simpl.
  - by destruct H.
  - destruct (passiveStep_spec s n) as (A & _ & C & D). cbv zeta in *.
    apply IH; [congruence|intros; apply Huniq; [by right|done]|].
    destruct (decide (Node.id n = Node.id node)) as [Heq|Hne].
    + right. assert (n = node) as -> by (apply Huniq; [by left|done]).
      rewrite (D spec Hspec Hcat). by rewrite Hv.
    + destruct H as [[->|Hin]|Hs]; [done|by left|].
      right. rewrite C by done. exact Hs.
Qed.

Lemma fourthPass_other (id : string) :
  forall l s,
    (forall n spec,
        In n l -> Node.id n = id -> Node.spec n = Some spec ->
        isBatteryType (Spec.type spec) = false) ->
    Sim.nodeStates
      (fold_left (batteryStep edges previousState deltaTime) l s) !! id
    = Sim.nodeStates s !! id.
Proof.
  induction l as [|n l IH]; intros s Hno; simpl; [done|].
  rewrite IH by (intros; eapply Hno; [by right|done|done]).
  rewrite batteryStep_nodeStates.
  destruct (Node.spec n) as [spec|] eqn:Hs; [|done].
  destruct (isBatteryType (Spec.type spec)) eqn:Hb; [|done].
  destruct (decide (Node.id n = id)) as [Heq|Hne].
  - rewrite (Hno n spec (or_introl eq_refl) Heq Hs) in Hb. done.
  - by rewrite lookup_insert_ne.
Qed.

(** X30.  In the result, a load node whose identifier no other node
    shares is [on] exactly when it is switched on and reaches a power
    source, and then draws its rated current; switched on without a
    power source it is in [fault], switched off it is [off], and in both
    cases it draws nothing.  Its power is its current times the system
    voltage the loads see, and its voltage is that voltage when it
    reaches a power source and 0 otherwise. *)
Theorem X30_load_state (node : Node.t) (spec : Spec.t) :
  In node nodes -> Node.spec node = Some spec ->
  Spec.category spec = Load -> isBatteryType (Spec.type spec) = false ->
  (forall other, In other nodes -> Node.id other = Node.id node ->
                 other = node) ->
  let v := busVoltage localeCompare nodes edges environment previousState in
  let isOn := isOnOf node in
  let isPowered := isConnectedToPower nodes edges (Node.id node) in
  exists st,
    Sys.nodes (runSimulation localeCompare nodes edges environment
                             previousState deltaTime) !! Node.id node
    = Some st
    /\ NodeSim.state st
       = (if (isOn && isPowered)%bool then On
          else if isOn then Fault else Off)
    /\ NodeSim.current st
       = (if (isOn && isPowered)%bool
          then or_num (Custom.maxCurrent (Node.customValues node))
                      (or_num (Spec.maxCurrent spec) 5)
          else 0)
    /\ NodeSim.power st = NodeSim.current st * v
    /\ NodeSim.voltage st = (if isPowered then v else 0).
Proof.
  intros Hin Hspec Hcat Hbatt Huniq v isOn isPowered.
  exists (loadEntry nodes edges v node spec). split; [|done].
  rewrite runSimulation_nodes. unfold fourthPass.
  rewrite fourthPass_other.
  - unfold thirdPass. apply thirdPass_load; try done. by left.
  - intros n sp Hn Hid Hsp. rewrite (Huniq n Hn Hid) in Hsp. congruence.
Qed.

End Loads.

Lemma X30_load_state_witness :
  exists st,
    Sys.nodes (runSimulation ordinalCompare chainNodes chainEdges
                             DEFAULT_ENV None 1) !! "load-1" = Some st
    /\ NodeSim.state st = On /\ NodeSim.current st = 20.
Proof.
  destruct (X30_load_state ordinalCompare chainNodes chainEdges DEFAULT_ENV
              None 1 load20 (withMaxCurrent (Spec.bare Windlass Load) 20))
    as (st & H1 & H2 & H3 & _).
  - simpl. tauto.
  - reflexivity.
  - reflexivity.
  - reflexivity.
  - intros other Hin Hid. simpl in Hin.
    repeat (destruct Hin as [<-|Hin]; [first [reflexivity|discriminate]|]).
    done.
  - exists st. split; [exact H1|]. split; [exact H2|exact H3].
Defined.

(** ** Protection devices in the result *)

Section Protection.

Variable localeCompare : string -> string -> comparison.
Variable nodes : list Node.t.
Variable edges : list Edge.t.
Variable environment : Env.t.
Variable previousState : option Sys.t.
Variable deltaTime : Q.

Lemma protectionStep_reading (s : Sim.t) (node : Node.t) (spec : Spec.t) :
  exists st,
    Sim.nodeStates (protectionStep nodes edges s node spec) !! Node.id node
    = Some st
    /\ protectionReading node spec (Sim.systemVoltage s) st.
Proof.
  unfold protectionStep, protectionReading. cbv zeta.
  destruct (isBlownOf node);
    destruct (Qgtb (currentThroughOf nodes edges (Sim.nodeStates s) node)
                   (ratingOf node spec)) eqn:E;
    cbn [andb negb statusIs]; eexists;
    (split; [simpl; by rewrite lookup_insert_eq|]); simpl; try done.
  all: by rewrite E.
Qed.

Lemma thirdPass_protection (node : Node.t) (spec : Spec.t) (v : Q) :
  Node.spec node = Some spec -> Spec.category spec = Protection ->
  forall l s,
    Sim.systemVoltage s = v ->
    (forall other, In other l -> Node.id other = Node.id node ->
                   other = node) ->
    In node l
    \/ (exists st, Sim.nodeStates s !! Node.id node = Some st
                   /\ protectionReading node spec v st) ->
    exists st,
      Sim.nodeStates (fold_left (passiveStep nodes edges) l s)
        !! Node.id node = Some st
      /\ protectionReading node spec v st.
Proof.
  intros Hspec Hcat. induction l as [|n l IH]; intros s Hv Huniq H; simpl.
  - by destruct H.
  - destruct (passiveStep_spec nodes edges s n) as (A & _ & C & _).
    cbv zeta in *.
    apply IH; [congruence|intros; apply Huniq; [by right|done]|].
    destruct (decide (Node.id n = Node.id node)) as [Heq|Hne].
    + right. assert (n = node) as -> by (apply Huniq; [by left|done]).
      unfold passiveStep. rewrite Hspec, Hcat, <- Hv.
      apply protectionStep_reading.
    + destruct H as [[->|Hin]|Hs]; [done|by left|].
      right. by rewrite C.
Qed.

(** X4.  In the result, a protection device whose identifier no other
    node shares is [off] exactly when it is marked blown, and then shows
    no voltage, current or power; otherwise it is in [fault] exactly
    when the current it shows exceeds its rating and [on] when it does
    not, its voltage is the system voltage the loads see and its power
    is its current times that voltage.  The batteries of the diagram
    have plain chemistries, so that the chargers report numbers. *)
Theorem X4_protection_reading (node : Node.t) (spec : Spec.t) :
  plainBatteries nodes = true ->
  In node nodes -> Node.spec node = Some spec ->
  Spec.category spec = Protection -> isBatteryType (Spec.type spec) = false ->
  (forall other, In other nodes -> Node.id other = Node.id node ->
                 other = node) ->
  let v := busVoltage localeCompare nodes edges environment previousState in
  let rating := ratingOf node spec in
  exists st,
    Sys.nodes (runSimulation localeCompare nodes edges environment
                             previousState deltaTime) !! Node.id node
    = Some st
    /\ (NodeSim.state st = Off <-> isBlownOf node = true)
    /\ (NodeSim.state st = Fault <->
        isBlownOf node = false /\ rating < NodeSim.current st)
    /\ (NodeSim.state st = On <->
        isBlownOf node = false /\ NodeSim.current st <= rating)
    /\ (isBlownOf node = true ->
        NodeSim.voltage st = 0 /\ NodeSim.current st = 0
        /\ NodeSim.power st = 0)
    /\ (isBlownOf node = false ->
        NodeSim.voltage st = v /\ NodeSim.power st = NodeSim.current st * v).
Proof.
  intros _ Hin Hspec Hcat Hbatt Huniq v rating.
  destruct (thirdPass_protection node spec v Hspec Hcat nodes
              (beforeLoads localeCompare nodes edges environment
                           previousState) eq_refl Huniq (or_introl Hin))
    as (st & Hst & Hread).
  exists st. split.
  { rewrite runSimulation_nodes. unfold fourthPass.
    rewrite fourthPass_other; [exact Hst|].
    intros n sp Hn Hid Hsp. rewrite (Huniq n Hn Hid) in Hsp. congruence. }
  unfold protectionReading in Hread. fold rating in Hread.
  destruct (isBlownOf node).
  - destruct Hread as (-> & -> & -> & ->).
    repeat split; try done; by intros [? ?].
  - destruct Hread as (Hs & -> & ->). unfold Qgtb in Hs.
    destruct (Qltb_spec rating (NodeSim.current st)) as [Hlt|Hle];
      rewrite Hs; repeat split; try done; try (by intros [? ?]);
      try (intros [_ ?]; exfalso; lra).
    by apply Qnot_lt_le.
Qed.

End Protection.

Lemma X4_protection_reading_witness :
  exists st,
    Sys.nodes (runSimulation ordinalCompare loadFirstNodes fusedEdges
                             DEFAULT_ENV None 1) !! "fuse-1" = Some st
    /\ (NodeSim.state st = Fault <->
        isBlownOf fuse15 = false /\ 15 < NodeSim.current st).
Proof.
  destruct (X4_protection_reading ordinalCompare loadFirstNodes fusedEdges
              DEFAULT_ENV None 1 fuse15
              (withRating (Spec.bare Fuse Protection) 15))
    as (st & H1 & _ & H2 & _).
  - reflexivity.
  - simpl. tauto.
  - reflexivity.
  - reflexivity.
  - reflexivity.
  - intros other Hin Hid. simpl in Hin.
    repeat (destruct Hin as [<-|Hin]; [first [reflexivity|discriminate]|]).
    done.
  - exists st. split; [exact H1|exact H2].
Defined.
